(** * Task Master (testing-stand-147): the task store and its derived views

    A shallow embedding of [src/app/page.tsx] (the [TodoApp] component) and
    of the platform functions it calls, with the properties of the
    specification stated and settled against it.

    Conventions of the model.
    - A JavaScript string is the list of its UTF-16 code units ([jsstring]).
    - A [Date] is its time value: milliseconds since the epoch, in [Z].
    - The clock ([Date.now()], [new Date()]) and the time zone are inputs
      of the functions that read them.
    - React state is threaded explicitly: an event handler is a function
      from the state of the render it closes over to the next state. *)

From Stdlib Require Import ZArith NArith List Bool Lia String Ascii.
From Stdlib Require Import Permutation Sorted QArith Qround Qpower Qabs Lqa.
From Stdlib Require Import SpecFloat.
Import ListNotations.
Open Scope Z_scope.

(** ** JavaScript strings *)

Definition jsstring := list N.

(** A source literal, written as a Rocq string of Latin-1 characters. *)
Definition lit (s : string) : jsstring :=
  List.map N_of_ascii (list_ascii_of_string s).

Fixpoint jsstring_eqb (a b : jsstring) : bool :=
  match a, b with
  | [], [] => true
  | x :: a', y :: b' => N.eqb x y && jsstring_eqb a' b'
  | _, _ => false
  end.

(** [WhiteSpace] and [LineTerminator] of ECMAScript: the code units that
    [String.prototype.trim] strips. *)
Definition is_white_space (c : N) : bool :=
  ((9 <=? c) && (c <=? 13) || (c =? 32) || (c =? 160) || (c =? 5760)
   || (8192 <=? c) && (c <=? 8202) || (c =? 8232) || (c =? 8233)
   || (c =? 8239) || (c =? 8287) || (c =? 12288) || (c =? 65279))%N.

Fixpoint trimStart (s : jsstring) : jsstring :=
  match s with
  | c :: s' => if is_white_space c then trimStart s' else s
  | [] => []
  end.

Definition trimEnd (s : jsstring) : jsstring := rev (trimStart (rev s)).

Definition trim (s : jsstring) : jsstring := trimEnd (trimStart s).

(** ** The data model *)

Inductive Priority := low | medium | high.
Inductive Category := personal | work | shopping | health | other.
Inductive FilterType := all | active | completed_only.
Inductive SortType := date | by_priority | alphabetical | by_dueDate.

Definition Priority_eqb (p q : Priority) : bool :=
  match p, q with
  | low, low | medium, medium | high, high => true
  | _, _ => false
  end.

(** [interface Todo]. [createdAt] holds the time value of the [Date]. *)
Record Todo := mkTodo {
  id : Z;
  text : jsstring;
  completed : bool;
  priority : Priority;
  category : Category;
  dueDate : option jsstring;
  createdAt : Z;
  notes : jsstring
}.

(** The fields of the add form: the state variables [inputValue],
    [priority], [category], [dueDate] and [notes] of [TodoApp]. *)
Module Form.
Record t := mk {
  inputValue : jsstring;
  priority : Priority;
  category : Category;
  dueDate : jsstring;
  notes : jsstring
}.

(** The values the form is reset to after an add, which are also the
    initial values of the [useState] calls. *)
Definition blank : t := mk [] medium personal [] [].
End Form.

(** The state of [TodoApp]: one field per [useState]. *)
Record App := mkApp {
  todos : list Todo;
  form : Form.t;
  filter : FilterType;
  categoryFilter : option Category;
  sortBy : SortType;
  searchQuery : jsstring;
  darkMode : bool;
  showAddForm : bool;
  editingId : option Z;
  editText : jsstring;
  showStats : bool;
  deletingId : option Z;
  addedId : option Z
}.

Definition initialApp : App :=
  mkApp [] Form.blank all None date [] false false None [] true None None.

(** ** The task store *)

(** [dueDate || null]: the empty string is falsy. *)
Definition or_null (s : jsstring) : option jsstring :=
  match s with
  | [] => None
  | _ => Some s
  end.

(** [addTodo]. [newId] is the reading of [Date.now()] and [created] the
    reading of [new Date()], two separate calls in the source. The timer
    that clears [addedId] after 500 ms only drives an animation and is not
    modelled. *)
Definition addTodo (newId created : Z) (st : App) : App :=
  let f := form st in
  if jsstring_eqb (trim (Form.inputValue f)) [] then st
  else
    let newTodo :=
      {| id := newId;
         text := Form.inputValue f;
         completed := false;
         priority := Form.priority f;
         category := Form.category f;
         dueDate := or_null (Form.dueDate f);
         createdAt := created;
         notes := Form.notes f |} in
    {| todos := newTodo :: todos st;
       form := Form.blank;
       filter := filter st;
       categoryFilter := categoryFilter st;
       sortBy := sortBy st;
       searchQuery := searchQuery st;
       darkMode := darkMode st;
       showAddForm := false;
       editingId := editingId st;
       editText := editText st;
       showStats := showStats st;
       deletingId := deletingId st;
       addedId := Some newId |}.

(** The user fills the add form (the [onChange] handlers of its inputs). *)
Definition fillForm (f : Form.t) (st : App) : App :=
  {| todos := todos st;
     form := f;
     filter := filter st;
     categoryFilter := categoryFilter st;
     sortBy := sortBy st;
     searchQuery := searchQuery st;
     darkMode := darkMode st;
     showAddForm := showAddForm st;
     editingId := editingId st;
     editText := editText st;
     showStats := showStats st;
     deletingId := deletingId st;
     addedId := addedId st |}.

(** One add as the user performs it: the form contents, then the two clock
    readings of the handler. *)
Record AddEvent := mkAdd {
  add_form : Form.t;
  add_now : Z;
  add_created : Z
}.

Definition add (e : AddEvent) (st : App) : App :=
  addTodo (add_now e) (add_created e) (fillForm (add_form e) st).

Definition adds (es : list AddEvent) (st : App) : App :=
  fold_left (fun s e => add e s) es st.

Definition toggle (todo : Todo) : Todo :=
  {| id := id todo;
     text := text todo;
     completed := negb (completed todo);
     priority := priority todo;
     category := category todo;
     dueDate := dueDate todo;
     createdAt := createdAt todo;
     notes := notes todo |}.

(** [toggleTodo]: [todos.map(todo => todo.id === id ? {...} : todo)]. *)
Definition toggleTodo (i : Z) (ts : list Todo) : list Todo :=
  List.map (fun todo => if id todo =? i then toggle todo else todo) ts.

(** ** Aggregate statistics *)

Module Stats.
Record t := mk {
  total : nat;
  active : nat;
  completed : nat;
  highPriority : nat
}.
End Stats.

Definition stats (ts : list Todo) : Stats.t :=
  {| Stats.total := List.length ts;
     Stats.active := List.length (List.filter (fun t => negb (completed t)) ts);
     Stats.completed := List.length (List.filter (fun t => completed t) ts);
     Stats.highPriority :=
       List.length (List.filter
                 (fun t => Priority_eqb (priority t) high && negb (completed t))
                 ts) |}.

(** ** Numbers and dates of the platform *)

(** A JavaScript number that results from date arithmetic: an integer, or
    [None] for NaN. *)
Definition number := option Z.

Definition number_sub (a b : number) : number :=
  match a, b with
  | Some x, Some y => Some (x - y)
  | _, _ => None
  end.

(** [a < b] on numbers: false as soon as one side is NaN. *)
Definition number_ltb (a b : number) : bool :=
  match a, b with
  | Some x, Some y => x <? y
  | _, _ => false
  end.

Definition digit_value (c : N) : option Z :=
  if ((48 <=? c) && (c <=? 57))%N then Some (Z.of_N c - 48) else None.

Definition digit_unit (d : Z) : N := Z.to_N (48 + d).

(** The decimal digits of a non-negative integer, most significant first. *)
Fixpoint digits_fuel (fuel : nat) (n : Z) : jsstring :=
  match fuel with
  | O => []
  | S f =>
      if n <? 10 then [digit_unit n]
      else digits_fuel f (n / 10) ++ [digit_unit (n mod 10)]
  end.

Definition digits (n : Z) : jsstring :=
  digits_fuel (S (Z.to_nat (Z.log2 n))) n.

(** The digits of [n], padded with zeros on the left to [width] places. *)
Definition pad (width : nat) (n : Z) : jsstring :=
  let d := digits n in
  repeat 48%N (width - List.length d) ++ d.

Definition msPerDay : Z := 86400000.

(** [Day(t)] of ECMAScript: the day number of a time value. *)
Definition Day (t : Z) : Z := t / msPerDay.

(** [WeekDay(t)]: 0 is Sunday; day 0 (1 January 1970) was a Thursday. *)
Definition WeekDay (t : Z) : Z := (Day t + 4) mod 7.

(** Year, month (1 to 12) and day of the month (1 to 31) of a day number,
    in the proleptic Gregorian calendar that ECMAScript uses. The
    computation counts days from 1 March of year 0 in eras of 400 years. *)
Definition civil_from_days (z : Z) : Z * Z * Z :=
  let z := z + 719468 in
  let era := z / 146097 in
  let doe := z - era * 146097 in
  let yoe := (doe - doe / 1460 + doe / 36524 - doe / 146096) / 365 in
  let doy := doe - (365 * yoe + yoe / 4 - yoe / 100) in
  let mp := (5 * doy + 2) / 153 in
  let d := doy - (153 * mp + 2) / 5 + 1 in
  let m := if mp <? 10 then mp + 3 else mp - 9 in
  let y := yoe + era * 400 in
  (if m <=? 2 then y + 1 else y, m, d).

(** The day number of a calendar date: the inverse direction. *)
Definition days_from_civil (y m d : Z) : Z :=
  let y := if m <=? 2 then y - 1 else y in
  let era := y / 400 in
  let yoe := y - era * 400 in
  let doy := (153 * (if 2 <? m then m - 3 else m + 9) + 2) / 5 + d - 1 in
  let doe := yoe * 365 + yoe / 4 - yoe / 100 + doy in
  era * 146097 + doe - 719468.

Definition is_leap (y : Z) : bool :=
  (y mod 4 =? 0) && (negb (y mod 100 =? 0) || (y mod 400 =? 0)).

Definition days_in_month (y m : Z) : Z :=
  if m =? 2 then (if is_leap y then 29 else 28)
  else if (m =? 4) || (m =? 6) || (m =? 9) || (m =? 11) then 30
  else 31.

Definition two_digits (a b : N) : option Z :=
  match digit_value a, digit_value b with
  | Some x, Some y => Some (10 * x + y)
  | _, _ => None
  end.

(** [Date.parse] on the date-only form [YYYY-MM-DD] of the Date Time String
    Format, which is read as midnight UTC of that day. This is the form the
    date input of the add form produces. A field out of range gives NaN, as
    ECMAScript prescribes for the format. The other forms of the format and
    the fallbacks an engine may add are outside the model, which answers NaN
    for them; no statement below is about such a string. *)
Definition Date_parse (s : jsstring) : number :=
  match s with
  | [y1; y2; y3; y4; 45%N; m1; m2; 45%N; d1; d2] =>
      match two_digits y1 y2, two_digits y3 y4, two_digits m1 m2,
            two_digits d1 d2 with
      | Some yh, Some yl, Some m, Some d =>
          let y := 100 * yh + yl in
          if (1 <=? m) && (m <=? 12) && (1 <=? d) && (d <=? days_in_month y m)
          then Some (days_from_civil y m d * msPerDay)
          else None
      | _, _, _, _ => None
      end
  | _ => None
  end.

Definition day_name (w : Z) : jsstring :=
  lit (match w with
       | 0 => "Sun" | 1 => "Mon" | 2 => "Tue" | 3 => "Wed"
       | 4 => "Thu" | 5 => "Fri" | _ => "Sat"
       end).

Definition month_name (m : Z) : jsstring :=
  lit (match m with
       | 1 => "Jan" | 2 => "Feb" | 3 => "Mar" | 4 => "Apr"
       | 5 => "May" | 6 => "Jun" | 7 => "Jul" | 8 => "Aug"
       | 9 => "Sep" | 10 => "Oct" | 11 => "Nov" | _ => "Dec"
       end).

(** The year as [DateString] writes it: at least four digits, with a minus
    sign before a negative year. *)
Definition year_string (y : Z) : jsstring :=
  if y <? 0 then 45%N :: pad 4 (- y) else pad 4 y.

(** [LocalTime(t)]: the time zone is its offset from UTC in minutes, east
    positive (the negation of [getTimezoneOffset()]), taken as constant. *)
Definition LocalTime (tz : Z) (t : Z) : Z := t + tz * 60000.

(** [Date.prototype.toDateString]: the calendar day in local time, as in
    [Sat Jun 01 2024]. *)
Definition toDateString (tz : Z) (tv : number) : jsstring :=
  match tv with
  | None => lit "Invalid Date"
  | Some t =>
      let t := LocalTime tz t in
      let '(y, m, d) := civil_from_days (Day t) in
      day_name (WeekDay t) ++ 32%N :: month_name m ++ 32%N :: pad 2 d
        ++ 32%N :: year_string y
  end.

(** A string or null used as a condition: null and the empty string are
    falsy. *)
Definition truthy (s : option jsstring) : bool :=
  match s with
  | Some (_ :: _) => true
  | _ => false
  end.

(** [isOverdue]. [now] is the reading of [new Date()]; the two readings of
    one evaluation are taken to be the same instant. *)
Definition isOverdue (tz now : Z) (dueDate : option jsstring) : bool :=
  match dueDate with
  | Some (c :: s) =>
      let due := Date_parse (c :: s) in
      number_ltb due (Some now)
      && negb (jsstring_eqb (toDateString tz due) (toDateString tz (Some now)))
  | _ => false
  end.

(** [isDueToday]. *)
Definition isDueToday (tz now : Z) (dueDate : option jsstring) : bool :=
  match dueDate with
  | Some (c :: s) =>
      jsstring_eqb (toDateString tz (Date_parse (c :: s)))
                   (toDateString tz (Some now))
  | _ => false
  end.

(** ** Sorting the view *)

(** The [dueDate] case of the comparator given to [sort]. *)
Definition compare_dueDate (a b : Todo) : number :=
  if negb (truthy (dueDate a)) then Some 1
  else if negb (truthy (dueDate b)) then Some (-1)
  else
    match dueDate a, dueDate b with
    | Some da, Some db => number_sub (Date_parse da) (Date_parse db)
    | _, _ => None
    end.

Definition priorityOrder (p : Priority) : Z :=
  match p with
  | high => 0
  | medium => 1
  | low => 2
  end.

(** The [priority] case. *)
Definition compare_priority (a b : Todo) : number :=
  Some (priorityOrder (priority a) - priorityOrder (priority b)).

(** The default case: newest first. On a task made in this session
    [new Date(createdAt)] copies the [Date]. *)
Definition compare_date (a b : Todo) : number :=
  Some (createdAt b - createdAt a).

(** The comparator of [filteredTodos]. [localeCompare] depends on the
    locale of the browser and is a parameter. *)
Definition comparator (localeCompare : jsstring -> jsstring -> Z)
    (s : SortType) (a b : Todo) : number :=
  match s with
  | by_priority => compare_priority a b
  | alphabetical => Some (localeCompare (text a) (text b))
  | by_dueDate => compare_dueDate a b
  | date => compare_date a b
  end.

(** How [Array.prototype.sort] reads the result of a comparator: a positive
    number puts [a] after [b]; NaN counts as 0. *)
Definition comes_after (v : number) : bool :=
  match v with
  | Some z => 0 <? z
  | None => false
  end.

(** [Array.prototype.sort] is stable. For a comparator that is a
    consistent ordering the result is the one a stable insertion sort
    gives, which is the model here; for an inconsistent comparator the
    order is left to the engine. *)
Fixpoint insert_sorted {A : Type} (cmp : A -> A -> number) (x : A)
    (l : list A) : list A :=
  match l with
  | [] => [x]
  | y :: l' =>
      if comes_after (cmp x y) then y :: insert_sorted cmp x l' else x :: l
  end.

Definition sort {A : Type} (cmp : A -> A -> number) (l : list A) : list A :=
  fold_right (insert_sorted cmp) [] l.

(** ** JSON values *)

(** The JavaScript values that the persisted state is made of. A number is
    an exact decimal: [VNum z] is the integer [z], and [VFrac m e] is
    [m * 10^e] with [e < 0] and [m] not a multiple of 10. Numbers are not
    rounded to binary64, so the model is exact where binary64 is, on the
    integers below [2^53] in magnitude; every number the store writes is
    one, a reading of [Date.now()]. A [VDate] is a [Date] object with a
    valid time value. The properties of an object are kept in creation
    order; the reordering of integer-like keys is not modelled, the keys
    of a task are names. *)
#[warnings="-register-all"]
Inductive value :=
| VNull
| VBool (b : bool)
| VNum (z : Z)
| VFrac (m e : Z)
| VStr (s : jsstring)
| VDate (t : Z)
| VArr (l : list value)
| VObj (l : list (jsstring * value)).

(** What a fallible platform call does: it returns, or it throws
    [SyntaxError]. [OutOfFuel] is the third answer of the fuelled
    recursion below; [JSON_parse] never gives it. *)
Inductive result (A : Type) :=
| Ok (a : A)
| SyntaxError
| OutOfFuel.
Arguments Ok {A} a.
Arguments SyntaxError {A}.
Arguments OutOfFuel {A}.

Definition bind {A B : Type} (r : result A) (k : A -> result B) : result B :=
  match r with
  | Ok a => k a
  | SyntaxError => SyntaxError
  | OutOfFuel => OutOfFuel
  end.

Notation "x <- r ;; k" := (bind r (fun x => k))
  (at level 61, r at next level, right associativity).
Notation "' p <- r ;; k" := (bind r (fun p => k))
  (at level 61, p pattern, r at next level, right associativity).

(** *** [JSON.stringify] *)

Definition hex_unit (d : N) : N :=
  (if d <? 10 then 48 + d else 87 + d)%N.

(** [\uXXXX] with lower-case hexadecimal digits. *)
Definition unicode_escape (c : N) : jsstring :=
  [92; 117; hex_unit (c / 4096 mod 16); hex_unit (c / 256 mod 16);
   hex_unit (c / 16 mod 16); hex_unit (c mod 16)]%N.

Definition is_high_surrogate (c : N) : bool :=
  ((55296 <=? c) && (c <=? 56319))%N.

Definition is_low_surrogate (c : N) : bool :=
  ((56320 <=? c) && (c <=? 57343))%N.

(** One code unit inside a JSON string, when it is not a surrogate. *)
Definition quote_unit (c : N) : jsstring :=
  (if c =? 8 then [92; 98]
   else if c =? 9 then [92; 116]
   else if c =? 10 then [92; 110]
   else if c =? 12 then [92; 102]
   else if c =? 13 then [92; 114]
   else if c =? 34 then [92; 34]
   else if c =? 92 then [92; 92]
   else if c <? 32 then unicode_escape c
   else [c])%N.

(** The body of [QuoteJSONString]: a surrogate pair is written as it is, a
    lone surrogate is escaped. *)
Fixpoint quote_units (s : jsstring) : jsstring :=
  match s with
  | [] => []
  | c :: rest =>
      if is_high_surrogate c then
        match rest with
        | d :: rest' =>
            if is_low_surrogate d then c :: d :: quote_units rest'
            else unicode_escape c ++ quote_units rest
        | [] => unicode_escape c
        end
      else if is_low_surrogate c then unicode_escape c ++ quote_units rest
      else quote_unit c ++ quote_units rest
  end.

Definition QuoteJSONString (s : jsstring) : jsstring :=
  34%N :: quote_units s ++ [34%N].

(** The digits of a positive integer without its trailing zeros. *)
Fixpoint strip_zeros (fuel : nat) (n : Z) : Z :=
  match fuel with
  | O => n
  | S f => if (0 <? n) && (n mod 10 =? 0) then strip_zeros f (n / 10) else n
  end.

(** [Number::toString] from the decimal digits [sd] of the significand and
    the position [n] of the decimal point: the number is
    [0.sd * 10^n]. *)
Definition decimal_string (sd : jsstring) (n : Z) : jsstring :=
  let k := Z.of_nat (List.length sd) in
  if (k <=? n) && (n <=? 21) then sd ++ repeat 48%N (Z.to_nat (n - k))
  else if (0 <? n) && (n <=? 21) then
    firstn (Z.to_nat n) sd ++ 46%N :: skipn (Z.to_nat n) sd
  else if (-6 <? n) && (n <=? 0) then
    48%N :: 46%N :: repeat 48%N (Z.to_nat (- n)) ++ sd
  else
    let e := n - 1 in
    let es := (if e <? 0 then 45%N else 43%N) :: digits (Z.abs e) in
    match sd with
    | [] => []
    | [d] => d :: 101%N :: es
    | d :: more => d :: 46%N :: more ++ 101%N :: es
    end.

(** [Number::toString] of a non-negative integer: plain digits below
    [10^21], exponent notation from there on. *)
Definition natural_string (a : Z) : jsstring :=
  if a <? 10 ^ 21 then digits a
  else
    decimal_string (digits (strip_zeros (List.length (digits a)) a))
                   (Z.of_nat (List.length (digits a))).

Definition integer_string (z : Z) : jsstring :=
  if z <? 0 then 45%N :: natural_string (- z) else natural_string z.

Definition fraction_string (m e : Z) : jsstring :=
  let sd := digits (Z.abs m) in
  let body := decimal_string sd (Z.of_nat (List.length sd) + e) in
  if m <? 0 then 45%N :: body else body.

(** [Date.prototype.toISOString], which [toJSON] calls: always UTC. A year
    outside 0 to 9999 is written with a sign and six digits. *)
Definition toISOString (t : Z) : jsstring :=
  let '(y, m, d) := civil_from_days (Day t) in
  let ms := t mod msPerDay in
  (if (0 <=? y) && (y <=? 9999) then pad 4 y
   else (if y <? 0 then 45%N else 43%N) :: pad 6 (Z.abs y))
  ++ 45%N :: pad 2 m ++ 45%N :: pad 2 d ++ 84%N
  :: pad 2 (ms / 3600000) ++ 58%N :: pad 2 (ms / 60000 mod 60) ++ 58%N
  :: pad 2 (ms / 1000 mod 60) ++ 46%N :: pad 3 (ms mod 1000) ++ [90%N].

(** The elements of an array or the members of an object, separated by
    commas. *)
Fixpoint commas (parts : list jsstring) : jsstring :=
  match parts with
  | [] => []
  | [p] => p
  | p :: more => p ++ 44%N :: commas more
  end.

(** [JSON.stringify(v)] with no replacer and no indentation. *)
Fixpoint JSON_stringify (v : value) : jsstring :=
  match v with
  | VNull => lit "null"
  | VBool true => lit "true"
  | VBool false => lit "false"
  | VNum z => integer_string z
  | VFrac m e => fraction_string m e
  | VStr s => QuoteJSONString s
  | VDate t => QuoteJSONString (toISOString t)
  | VArr l => 91%N :: commas (List.map JSON_stringify l) ++ [93%N]
  | VObj l =>
      123%N
      :: commas (List.map
                   (fun kv => QuoteJSONString (fst kv)
                              ++ 58%N :: JSON_stringify (snd kv)) l)
      ++ [125%N]
  end.

(** What [JSON.stringify] makes of a value before it writes it: a [Date]
    answers [toJSON] with its ISO string. *)
Fixpoint jsonify (v : value) : value :=
  match v with
  | VDate t => VStr (toISOString t)
  | VArr l => VArr (List.map jsonify l)
  | VObj l => VObj (List.map (fun kv => (fst kv, jsonify (snd kv))) l)
  | _ => v
  end.

(** *** [JSON.parse] *)

(** JSON white space: space, tab, line feed, carriage return. *)
Definition is_json_ws (c : N) : bool :=
  ((c =? 32) || (c =? 9) || (c =? 10) || (c =? 13))%N.

Fixpoint skip_ws (s : jsstring) : jsstring :=
  match s with
  | c :: s' => if is_json_ws c then skip_ws s' else s
  | [] => []
  end.

Definition hex_value (c : N) : option N :=
  (if (48 <=? c) && (c <=? 57) then Some (c - 48)
   else if (97 <=? c) && (c <=? 102) then Some (c - 87)
   else if (65 <=? c) && (c <=? 70) then Some (c - 55)
   else None)%N.

Definition hex4 (a b c d : N) : option N :=
  match hex_value a, hex_value b, hex_value c, hex_value d with
  | Some x, Some y, Some z, Some w => Some (4096 * x + 256 * y + 16 * z + w)%N
  | _, _, _, _ => None
  end.

Definition cons_unit (c : N) (r : result (jsstring * jsstring))
  : result (jsstring * jsstring) :=
  ' (s, rest) <- r ;; Ok (c :: s, rest).

(** The characters of a string after its opening quote, up to and with
    the closing quote. *)
Fixpoint parse_string_body (s : jsstring) : result (jsstring * jsstring) :=
  match s with
  | [] => SyntaxError
  | c :: rest =>
      if (c =? 34)%N then Ok ([], rest)
      else if (c =? 92)%N then
        match rest with
        | [] => SyntaxError
        | e :: rest1 =>
            if (e =? 34)%N then cons_unit 34%N (parse_string_body rest1)
            else if (e =? 92)%N then cons_unit 92%N (parse_string_body rest1)
            else if (e =? 47)%N then cons_unit 47%N (parse_string_body rest1)
            else if (e =? 98)%N then cons_unit 8%N (parse_string_body rest1)
            else if (e =? 102)%N then cons_unit 12%N (parse_string_body rest1)
            else if (e =? 110)%N then cons_unit 10%N (parse_string_body rest1)
            else if (e =? 114)%N then cons_unit 13%N (parse_string_body rest1)
            else if (e =? 116)%N then cons_unit 9%N (parse_string_body rest1)
            else if (e =? 117)%N then
              match rest1 with
              | h1 :: h2 :: h3 :: h4 :: rest2 =>
                  match hex4 h1 h2 h3 h4 with
                  | Some u => cons_unit u (parse_string_body rest2)
                  | None => SyntaxError
                  end
              | _ => SyntaxError
              end
            else SyntaxError
        end
      else if (c <? 32)%N then SyntaxError
      else cons_unit c (parse_string_body rest)
  end.

(** The longest prefix of digits: its value read after [acc], how many
    digits it has, and what follows. *)
Fixpoint span_digits (acc : Z) (count : nat) (s : jsstring)
  : Z * nat * jsstring :=
  match s with
  | c :: s' =>
      match digit_value c with
      | Some d => span_digits (10 * acc + d) (S count) s'
      | None => (acc, count, s)
      end
  | [] => (acc, count, s)
  end.

(** The number [m * 10^e] as a value. *)
Fixpoint decimal_value (fuel : nat) (m e : Z) : value :=
  if 0 <=? e then VNum (m * 10 ^ e)
  else if m =? 0 then VNum 0
  else
    match fuel with
    | O => VFrac m e
    | S f => if m mod 10 =? 0 then decimal_value f (m / 10) (e + 1)
             else VFrac m e
    end.

(** The first character of [s] is [c]. *)
Definition starts_with (c : N) (s : jsstring) : bool :=
  match s with
  | c' :: _ => (c' =? c)%N
  | [] => false
  end.

(** The integer part of a JSON number: a single [0], or digits that do not
    start with [0]. *)
Definition parse_int_part (s : jsstring) : result (Z * jsstring) :=
  if starts_with 48 s then Ok (0, tl s)
  else
    let '(v, n, rest) := span_digits 0 0 s in
    match n with
    | O => SyntaxError
    | _ => Ok (v, rest)
    end.

(** The optional fraction: the significand with the fraction digits
    appended, and how many they are. *)
Definition parse_frac_part (i : Z) (s : jsstring) : result (Z * nat * jsstring) :=
  if starts_with 46 s then
    let '(v, n, rest) := span_digits i 0 (tl s) in
    match n with
    | O => SyntaxError
    | _ => Ok (v, n, rest)
    end
  else Ok (i, O, s).

Definition parse_exp_digits (s : jsstring) : result (Z * jsstring) :=
  let '(v, n, rest) := span_digits 0 0 s in
  match n with
  | O => SyntaxError
  | _ => Ok (v, rest)
  end.

(** The optional exponent. *)
Definition parse_exp_part (s : jsstring) : result (Z * jsstring) :=
  if starts_with 101 s || starts_with 69 s then
    if starts_with 43 (tl s) then parse_exp_digits (tl (tl s))
    else if starts_with 45 (tl s) then
      ' (x, r) <- parse_exp_digits (tl (tl s)) ;; Ok (- x, r)
    else parse_exp_digits (tl s)
  else Ok (0, s).

Definition parse_number (s : jsstring) : result (value * jsstring) :=
  let neg := starts_with 45 s in
  ' (i, s2) <- parse_int_part (if neg then tl s else s) ;;
  ' (m, n, s3) <- parse_frac_part i s2 ;;
  ' (x, s4) <- parse_exp_part s3 ;;
  let e := x - Z.of_nat n in
  Ok (decimal_value (Z.to_nat (- e)) (if neg then - m else m) e, s4).

(** [s] starts with the characters of [word]: what follows them. *)
Fixpoint expect (word s : jsstring) : option jsstring :=
  match word, s with
  | [], _ => Some s
  | w :: word', c :: s' => if (w =? c)%N then expect word' s' else None
  | _ :: _, [] => None
  end.

Definition parse_literal (word : string) (v : value) (s : jsstring)
  : result (value * jsstring) :=
  match expect (lit word) s with
  | Some rest => Ok (v, rest)
  | None => SyntaxError
  end.

(** Defining a property: a name that is there already keeps its place and
    takes the new value, a new name goes last. *)
Fixpoint set_property (k : jsstring) (v : value)
    (l : list (jsstring * value)) : list (jsstring * value) :=
  match l with
  | [] => [(k, v)]
  | (k', v') :: l' =>
      if jsstring_eqb k' k then (k, v) :: l'
      else (k', v') :: set_property k v l'
  end.

(** A JSON value, after optional white space; the elements of an array
    after its first bracket; the members of an object after its brace,
    added to [acc]. Each call takes one unit of fuel. *)
Fixpoint parse_value (fuel : nat) (s : jsstring) {struct fuel}
  : result (value * jsstring) :=
  match fuel with
  | O => OutOfFuel
  | S f =>
      let s := skip_ws s in
      if starts_with 123 s then
        if starts_with 125 (skip_ws (tl s))
        then Ok (VObj [], tl (skip_ws (tl s)))
        else parse_members f [] (tl s)
      else if starts_with 91 s then
        if starts_with 93 (skip_ws (tl s))
        then Ok (VArr [], tl (skip_ws (tl s)))
        else ' (l, rest) <- parse_elements f (tl s) ;; Ok (VArr l, rest)
      else if starts_with 34 s then
        ' (str, rest) <- parse_string_body (tl s) ;; Ok (VStr str, rest)
      else if starts_with 116 s then parse_literal "true" (VBool true) s
      else if starts_with 102 s then parse_literal "false" (VBool false) s
      else if starts_with 110 s then parse_literal "null" VNull s
      else parse_number s
  end

with parse_elements (fuel : nat) (s : jsstring) {struct fuel}
  : result (list value * jsstring) :=
  match fuel with
  | O => OutOfFuel
  | S f =>
      ' (v, rest) <- parse_value f s ;;
      let rest := skip_ws rest in
      if starts_with 44 rest then
        ' (l, rest') <- parse_elements f (tl rest) ;; Ok (v :: l, rest')
      else if starts_with 93 rest then Ok ([v], tl rest)
      else SyntaxError
  end

with parse_members (fuel : nat) (acc : list (jsstring * value)) (s : jsstring)
    {struct fuel} : result (value * jsstring) :=
  match fuel with
  | O => OutOfFuel
  | S f =>
      let s := skip_ws s in
      if starts_with 34 s then
        ' (k, rest1) <- parse_string_body (tl s) ;;
        let rest1 := skip_ws rest1 in
        if starts_with 58 rest1 then
          ' (v, rest2) <- parse_value f (tl rest1) ;;
          let acc' := set_property k v acc in
          let rest2 := skip_ws rest2 in
          if starts_with 44 rest2 then parse_members f acc' (tl rest2)
          else if starts_with 125 rest2 then Ok (VObj acc', tl rest2)
          else SyntaxError
        else SyntaxError
      else SyntaxError
  end.

(** [JSON.parse(text)] with no reviver: one value, then only white space. *)
Definition JSON_parse (text : jsstring) : result value :=
  ' (v, rest) <- parse_value (S (2 * List.length text)) text ;;
  match skip_ws rest with
  | [] => Ok v
  | _ => SyntaxError
  end.

(** ** Persistence *)

Definition Priority_string (p : Priority) : jsstring :=
  lit (match p with
       | low => "low"
       | medium => "medium"
       | high => "high"
       end).

Definition Category_string (c : Category) : jsstring :=
  lit (match c with
       | personal => "personal"
       | work => "work"
       | shopping => "shopping"
       | health => "health"
       | other => "other"
       end).

(** A task as the object that [addTodo] builds, its properties in the
    order of the object literal; [createdAt] is a [Date]. *)
Definition todo_value (t : Todo) : value :=
  VObj [ (lit "id", VNum (id t));
         (lit "text", VStr (text t));
         (lit "completed", VBool (completed t));
         (lit "priority", VStr (Priority_string (priority t)));
         (lit "category", VStr (Category_string (category t)));
         (lit "dueDate", match dueDate t with
                         | Some d => VStr d
                         | None => VNull
                         end);
         (lit "createdAt", VDate (createdAt t));
         (lit "notes", VStr (notes t)) ].

Definition todos_value (ts : list Todo) : value :=
  VArr (List.map todo_value ts).

(** The two entries of [localStorage] that the application uses; [None]
    is an absent key, for which [getItem] answers null. *)
Record Storage := mkStorage {
  complexTodos : option jsstring;
  darkMode_item : option jsstring
}.

(** The effect that saves the tasks:
    [localStorage.setItem('complexTodos', JSON.stringify(todos))]. *)
Definition saveTodos (ts : list Todo) (stg : Storage) : Storage :=
  {| complexTodos := Some (JSON_stringify (todos_value ts));
     darkMode_item := darkMode_item stg |}.

(** What the mount effect leaves in the [todos] and [darkMode] state: the
    parsed values go to [setTodos] and [setDarkMode] unchecked. *)
Record Loaded := mkLoaded {
  loaded_todos : value;
  loaded_darkMode : value
}.

(** The initial state of the two: [useState<Todo[]>([])] and
    [useState(false)]. *)
Definition nothing_loaded : Loaded := mkLoaded (VArr []) (VBool false).

(** The effect that loads on mount. An exception of the first
    [JSON.parse] leaves the second key unread. *)
Definition load (stg : Storage) : result Loaded :=
  ts <- (match complexTodos stg with
         | Some (c :: s) => JSON_parse (c :: s)
         | _ => Ok (loaded_todos nothing_loaded)
         end) ;;
  dm <- (match darkMode_item stg with
         | Some (c :: s) => JSON_parse (c :: s)
         | _ => Ok (loaded_darkMode nothing_loaded)
         end) ;;
  Ok (mkLoaded ts dm).

(** ** Progress *)

(** [floor(log2 x)] for a positive rational. *)
Definition ilog2 (x : Q) : Z :=
  let a := (Z.log2 (Qnum x) - Z.log2 (Zpos (Qden x)))%Z in
  if Qle_bool (2 ^ a)%Q x then a else (a - 1)%Z.

(** The integer nearest to [x], the even one of the two at a tie. *)
Definition round_half_even (x : Q) : Z :=
  let f := Qfloor x in
  match (x - inject_Z f ?= 1 # 2)%Q with
  | Lt => f
  | Gt => (f + 1)%Z
  | Eq => if Z.even f then f else (f + 1)%Z
  end.

(** The binary64 number nearest to a positive [x], ties to even: 53
    significant bits. Overflow and subnormal numbers are left out; the
    quotients and products below lie between [2^-32] and 100. *)
Definition nearest_binary64 (x : Q) : Q :=
  let e := (ilog2 x - 52)%Z in
  (inject_Z (round_half_even (x / 2 ^ e)) * 2 ^ e)%Q.

(** Rounding to binary64, round to nearest, ties to even. *)
Definition binary64 (x : Q) : Q :=
  match (x ?= 0)%Q with
  | Eq => 0%Q
  | Gt => nearest_binary64 x
  | Lt => (- nearest_binary64 (- x))%Q
  end.

(** [a / b] and [a * b] on JavaScript numbers: the exact result, rounded. *)
Definition number_div (a b : Q) : Q := binary64 (a / b)%Q.

Definition number_mul (a b : Q) : Q := binary64 (a * b)%Q.

(** [Math.round]: the nearest integer, the upper one of the two at a
    tie. *)
Definition Math_round (x : Q) : Z := Qfloor (x + (1 # 2))%Q.

(** A count as a JavaScript number; a count is far below [2^53] and so is
    exact. *)
Definition count (n : nat) : Q := inject_Z (Z.of_nat n).

(** [progressPercent]:
    [stats.total > 0 ? Math.round((stats.completed / stats.total) * 100) : 0]. *)
Definition progressPercent (st : Stats.t) : Z :=
  if (0 <? Stats.total st)%nat then
    Math_round (number_mul (number_div (count (Stats.completed st))
                                       (count (Stats.total st)))
                           100%Q)
  else 0%Z.

(** The same computation with the binary64 operations of the Standard
    Library's [SpecFloat], to check [binary64] against. *)
Definition SF_of_count (n : nat) : spec_float :=
  binary_normalize 53 1024 (Z.of_nat n) 0 false.

Definition SF_value (x : spec_float) : Q :=
  match x with
  | S754_finite s m e =>
      ((if s then - inject_Z (Zpos m) else inject_Z (Zpos m)) * 2 ^ e)%Q
  | _ => 0%Q
  end.

Definition progressPercent_SF (completed total : nat) : Z :=
  if (0 <? total)%nat then
    Math_round (SF_value (SFmul 53 1024
                            (SFdiv 53 1024 (SF_of_count completed)
                                   (SF_of_count total))
                            (SF_of_count 100)))
  else 0%Z.

(** ** Notions used in the statements about JSON *)

(** What may follow a value inside a JSON text: the end of the text, a
    comma, or a closing bracket or brace. *)
Definition delimited (rest : jsstring) : bool :=
  match rest with
  | [] => true
  | c :: _ => ((c =? 44) || (c =? 93) || (c =? 125))%N
  end.

(** No name occurs twice. *)
Fixpoint distinct (names : list jsstring) : bool :=
  match names with
  | [] => true
  | k :: more => negb (existsb (jsstring_eqb k) more) && distinct more
  end.

(** The values whose JSON text reads back: their numbers are safe
    integers, below [2^53] in magnitude, which binary64 holds exactly and
    [Number::toString] writes as plain digits, and their objects, as
    every object, have no name twice. (The text of a [VFrac] reads back
    as well; the store writes none and the proof leaves them out.) *)
Fixpoint storable (v : value) : bool :=
  match v with
  | VNum z => Z.abs z <? 2 ^ 53
  | VFrac _ _ => false
  | VArr l => forallb storable l
  | VObj l =>
      distinct (List.map fst l) && forallb (fun kv => storable (snd kv)) l
  | _ => true
  end.

(** A bound on the fuel that reading the text of a value takes. *)
Fixpoint weight (v : value) : nat :=
  match v with
  | VArr l => S (list_sum (List.map (fun x => S (weight x)) l))
  | VObj l => S (list_sum (List.map (fun kv => S (weight (snd kv))) l))
  | _ => 1
  end.

(** One member of an object as [JSON.stringify] writes it. *)
Definition member_text (kv : jsstring * value) : jsstring :=
  QuoteJSONString (fst kv) ++ 58%N :: JSON_stringify (snd kv).

(** A task as it comes back from the persisted text: the same properties
    in the same order, with [createdAt] as the ISO string of the date. *)
Definition stored_todo (t : Todo) : value :=
  VObj [ (lit "id", VNum (id t));
         (lit "text", VStr (text t));
         (lit "completed", VBool (completed t));
         (lit "priority", VStr (Priority_string (priority t)));
         (lit "category", VStr (Category_string (category t)));
         (lit "dueDate", match dueDate t with
                         | Some d => VStr d
                         | None => VNull
                         end);
         (lit "createdAt", VStr (toISOString (createdAt t)));
         (lit "notes", VStr (notes t)) ].

(** A step of the reader ended, with no more than [n] characters left to
    read: it returned or threw, and did not stop for lack of fuel. *)
Definition within {A : Type} (n : nat) (r : result (A * jsstring)) : Prop :=
  match r with
  | Ok (_, rest) => (List.length rest <= n)%nat
  | SyntaxError => True
  | OutOfFuel => False
  end.

(** ** Sample data *)

(** A task that differs from its siblings in id and due date only. *)
Definition sample_task (i : Z) (due : option jsstring) : Todo :=
  {| id := i;
     text := lit "task";
     completed := false;
     priority := medium;
     category := personal;
     dueDate := due;
     createdAt := i;
     notes := [] |}.

Definition no_due : Todo := sample_task 1 None.
Definition due_january : Todo := sample_task 2 (Some (lit "2024-01-01")).
Definition due_june : Todo := sample_task 3 (Some (lit "2024-06-01")).

(** Noon of 1 June 2024 in a zone five hours behind UTC: 17:00 UTC. *)
Definition noon_june_first_utc_minus_5 : Z := 1717261200000.

(** ** The other handlers of the task store *)

Definition with_todos (ts : list Todo) (st : App) : App :=
  {| todos := ts;
     form := form st;
     filter := filter st;
     categoryFilter := categoryFilter st;
     sortBy := sortBy st;
     searchQuery := searchQuery st;
     darkMode := darkMode st;
     showAddForm := showAddForm st;
     editingId := editingId st;
     editText := editText st;
     showStats := showStats st;
     deletingId := deletingId st;
     addedId := addedId st |}.

Definition with_deletingId (d : option Z) (st : App) : App :=
  {| todos := todos st;
     form := form st;
     filter := filter st;
     categoryFilter := categoryFilter st;
     sortBy := sortBy st;
     searchQuery := searchQuery st;
     darkMode := darkMode st;
     showAddForm := showAddForm st;
     editingId := editingId st;
     editText := editText st;
     showStats := showStats st;
     deletingId := d;
     addedId := addedId st |}.

Definition with_editing (i : option Z) (s : jsstring) (st : App) : App :=
  {| todos := todos st;
     form := form st;
     filter := filter st;
     categoryFilter := categoryFilter st;
     sortBy := sortBy st;
     searchQuery := searchQuery st;
     darkMode := darkMode st;
     showAddForm := showAddForm st;
     editingId := i;
     editText := s;
     showStats := showStats st;
     deletingId := deletingId st;
     addedId := addedId st |}.

(** [todos.filter((todo) => todo.id !== id)]. *)
Definition remove_id (i : Z) (ts : list Todo) : list Todo :=
  List.filter (fun todo => negb (id todo =? i)) ts.

(** [deleteTodo] of the copy of the component that has no charts: the
    task goes at once. *)
Definition deleteTodo_at_once (i : Z) (st : App) : App :=
  with_todos (remove_id i (todos st)) st.

(** What the callback that [deleteTodo] hands to [setTimeout] closes over:
    the [todos] of the render in which the button was pressed, and the
    id. *)
Record DeleteTimer := mkDeleteTimer {
  closed_todos : list Todo;
  closed_id : Z
}.

(** [deleteTodo] of [page.tsx]: it marks the task as being deleted and
    starts a timer of 300 ms. *)
Definition deleteTodo (i : Z) (st : App) : App * DeleteTimer :=
  (with_deletingId (Some i) st, mkDeleteTimer (todos st) i).

(** The timer of [deleteTodo] fires, in whatever state the component is
    by then: [setTodos(todos.filter(...))] with the [todos] it closed
    over, and [setDeletingId(null)]. *)
Definition deleteTodo_timeout (tm : DeleteTimer) (st : App) : App :=
  with_deletingId None
    (with_todos (remove_id (closed_id tm) (closed_todos tm)) st).

(** [startEditing]. *)
Definition startEditing (todo : Todo) (st : App) : App :=
  with_editing (Some (id todo)) (text todo) st.

Definition with_text (s : jsstring) (todo : Todo) : Todo :=
  {| id := id todo;
     text := s;
     completed := completed todo;
     priority := priority todo;
     category := category todo;
     dueDate := dueDate todo;
     createdAt := createdAt todo;
     notes := notes todo |}.

Definition with_priority (p : Priority) (todo : Todo) : Todo :=
  {| id := id todo;
     text := text todo;
     completed := completed todo;
     priority := p;
     category := category todo;
     dueDate := dueDate todo;
     createdAt := createdAt todo;
     notes := notes todo |}.

(** [saveEdit]. *)
Definition saveEdit (i : Z) (st : App) : App :=
  if jsstring_eqb (trim (editText st)) [] then st
  else
    with_editing None []
      (with_todos
         (List.map (fun todo =>
                      if id todo =? i then with_text (editText st) todo
                      else todo)
                   (todos st))
         st).

(** [updatePriority]. *)
Definition updatePriority (i : Z) (newPriority : Priority) (st : App) : App :=
  with_todos
    (List.map (fun todo =>
                 if id todo =? i then with_priority newPriority todo else todo)
              (todos st))
    st.

(** [clearCompleted]. *)
Definition clearCompleted (st : App) : App :=
  with_todos (List.filter (fun todo => negb (completed todo)) (todos st)) st.

(** [handleKeyPress]: [e.key] is the name of the key. *)
Definition handleKeyPress (key : jsstring) (newId created : Z) (st : App)
  : App :=
  if jsstring_eqb key (lit "Enter") then addTodo newId created st else st.

(** ** The filters of the view *)

Definition Category_eqb (c d : Category) : bool :=
  match c, d with
  | personal, personal | work, work | shopping, shopping
  | health, health | other, other => true
  | _, _ => false
  end.

(** The first filter: the status. *)
Definition status_passes (f : FilterType) (todo : Todo) : bool :=
  match f with
  | active => negb (completed todo)
  | completed_only => completed todo
  | all => true
  end.

(** The second filter: the category, [None] for ['all']. *)
Definition category_passes (c : option Category) (todo : Todo) : bool :=
  match c with
  | Some c => Category_eqb (category todo) c
  | None => true
  end.

(** [s.startsWith(prefix)]. *)
Fixpoint startsWith (s prefix : jsstring) {struct prefix} : bool :=
  match prefix, s with
  | [], _ => true
  | p :: prefix', c :: s' => (c =? p)%N && startsWith s' prefix'
  | _ :: _, [] => false
  end.

(** [s.includes(part)]: [part] occurs in [s] at some position. *)
Fixpoint includes (s part : jsstring) : bool :=
  startsWith s part
  || match s with
     | [] => false
     | _ :: s' => includes s' part
     end.

(** The third filter: the search. [toLowerCase] follows the case mapping
    of Unicode and is a parameter. *)
Definition search_passes (toLowerCase : jsstring -> jsstring)
    (query : jsstring) (todo : Todo) : bool :=
  includes (toLowerCase (text todo)) (toLowerCase query).

(** [filteredTodos]. *)
Definition filteredTodos (toLowerCase : jsstring -> jsstring)
    (localeCompare : jsstring -> jsstring -> Z) (st : App) : list Todo :=
  sort (comparator localeCompare (sortBy st))
    (List.filter (search_passes toLowerCase (searchQuery st))
       (List.filter (category_passes (categoryFilter st))
          (List.filter (status_passes (filter st)) (todos st)))).

(** The time value of the due date of a task that has a valid one. *)
Definition due_time (t : Todo) : Z :=
  match dueDate t with
  | Some d => match Date_parse d with
              | Some time => time
              | None => 0
              end
  | None => 0
  end.

(** ** The data of the charts *)

(** One bar of [PriorityBarChart]. *)
Record PriorityBar := mkPriorityBar {
  bar_priority : Priority;
  bar_active : nat;
  bar_completed : nat
}.

(** [data] of [PriorityBarChart]. *)
Definition priorityBars (ts : list Todo) : list PriorityBar :=
  List.map
    (fun p =>
       {| bar_priority := p;
          bar_active :=
            List.length
              (List.filter
                 (fun t => Priority_eqb (priority t) p && negb (completed t)) ts);
          bar_completed :=
            List.length
              (List.filter
                 (fun t => Priority_eqb (priority t) p && completed t) ts) |})
    [high; medium; low].

(** [d3.max]: the greatest value, undefined for no value. *)
Definition d3_max (values : list nat) : option nat :=
  match values with
  | [] => None
  | x :: more => Some (fold_left Nat.max more x)
  end.

(** [m || 1]: 0 and undefined are falsy. *)
Definition or_one (m : option nat) : nat :=
  match m with
  | Some (S n) => S n
  | _ => 1%nat
  end.

(** [maxVal] of [PriorityBarChart]:
    [Math.max(1, d3.max(data, d => d.active + d.completed) || 1)]. *)
Definition barsMaxVal (bars : list PriorityBar) : nat :=
  Nat.max 1
    (or_one (d3_max (List.map (fun d => (bar_active d + bar_completed d)%nat)
                              bars))).

(** [acc[todo.category] = (acc[todo.category] || 0) + 1] on an object
    whose properties are kept in creation order. *)
Fixpoint count_category (c : Category) (acc : list (Category * nat))
  : list (Category * nat) :=
  match acc with
  | [] => [(c, 1%nat)]
  | (c', n) :: acc' =>
      if Category_eqb c' c then (c', S n) :: acc'
      else (c', n) :: count_category c acc'
  end.

(** [categoryCount] of [CategoryPieChart], as [Object.entries] lists
    it. *)
Definition categoryCount (ts : list Todo) : list (Category * nat) :=
  fold_left (fun acc todo => count_category (category todo) acc) ts [].

(** The data that [CategoryPieChart] draws; with no task its effect
    returns before it draws. *)
Definition pieData (ts : list Todo) : option (list (Category * nat)) :=
  match ts with
  | [] => None
  | _ => Some (categoryCount ts)
  end.





(** ** The theme in the persisted state *)

(** The effect that saves the theme:
    [localStorage.setItem('darkMode', JSON.stringify(darkMode))]. *)
Definition saveDarkMode (b : bool) (stg : Storage) : Storage :=
  {| complexTodos := complexTodos stg;
     darkMode_item := Some (JSON_stringify (VBool b)) |}.

(** The effect that saves the tasks, in a session whose task list is a
    value that was loaded. *)
Definition saveLoaded (v : value) (stg : Storage) : Storage :=
  {| complexTodos := Some (JSON_stringify v);
     darkMode_item := darkMode_item stg |}.

(** ** The calendar inside an era *)

(** The year of the era, the month and the day of the month of a day of
    the era, as [civil_from_days] computes them. *)
Definition civil_of_doe (doe : Z) : Z * Z * Z :=
  let yoe := (doe - doe / 1460 + doe / 36524 - doe / 146096) / 365 in
  let doy := doe - (365 * yoe + yoe / 4 - yoe / 100) in
  let mp := (5 * doy + 2) / 153 in
  let d := doy - (153 * mp + 2) / 5 + 1 in
  let m := if mp <? 10 then mp + 3 else mp - 9 in
  (yoe, m, d).

(** The day of the era of a year of the era, a month and a day, as
    [days_from_civil] computes it. *)
Definition doe_of_civil (yoe m d : Z) : Z :=
  let doy := (153 * (if 2 <? m then m - 3 else m + 9) + 2) / 5 + d - 1 in
  yoe * 365 + yoe / 4 - yoe / 100 + doy.

(** The two computations agree on a day of the era. *)
Definition era_day_ok (doe : Z) : bool :=
  let '(yoe, m, d) := civil_of_doe doe in
  (0 <=? yoe) && (yoe <=? 399) && (1 <=? m) && (m <=? 12)
  && (1 <=? d) && (d <=? 31) && (doe_of_civil yoe m d =? doe).

(** [p] holds of every integer from 0 up to [n], [n] left out. *)
Definition all_below (n : N) (p : Z -> bool) : bool :=
  snd (N.iter n (fun s => (fst s + 1, snd s && p (fst s))) (0, true)).

(** ** Sample data for the handlers and the view *)

(** Three tasks, newest first, as three adds leave them. *)
Definition sample_store : list Todo := [due_june; due_january; no_due].

Definition sample_app : App := with_todos sample_store initialApp.

(** The initial state with a given store and sort order. *)
Definition sample_view (ts : list Todo) (s : SortType) : App :=
  mkApp ts Form.blank all None s [] false false None [] true None None.

Definition buy_milk : Form.t := Form.mk (lit "Buy milk") high shopping [] [].

(** * Properties *)

(** ** Strings *)

Lemma jsstring_eqb_spec (a b : jsstring) : jsstring_eqb a b = true <-> a = b.
Proof.
  revert b; induction a as [|x a IH]; intros [|y b]; simpl;
    try (split; [discriminate | discriminate]); try tauto.
  rewrite andb_true_iff, N.eqb_eq, IH.
  split; [intros [-> ->]; reflexivity | intros E; inversion E; auto].
Qed.

Lemma jsstring_eqb_refl (a : jsstring) : jsstring_eqb a a = true.
Proof. apply jsstring_eqb_spec; reflexivity. Qed.

Lemma jsstring_eqb_neq (a b : jsstring) : a <> b -> jsstring_eqb a b = false.
Proof.
  intros H; destruct (jsstring_eqb a b) eqn:E; [|reflexivity].
  apply jsstring_eqb_spec in E; contradiction.
Qed.

Lemma trimStart_all_white (s : jsstring) :
  trimStart s = [] <-> forallb is_white_space s = true.
Proof.
  induction s as [|c s IH]; simpl; [tauto|].
  destruct (is_white_space c); simpl; [exact IH | split; discriminate].
Qed.

Lemma trimStart_head (s : jsstring) :
  match trimStart s with
  | [] => True
  | c :: _ => is_white_space c = false
  end.
Proof.
  induction s as [|c s IH]; simpl; [exact I|].
  destruct (is_white_space c) eqn:W; [exact IH | exact W].
Qed.

(** A string trims to the empty string exactly when it is empty or made of
    white space only. *)
Lemma trim_empty_iff (s : jsstring) :
  trim s = [] <-> forallb is_white_space s = true.
Proof.
  unfold trim, trimEnd. rewrite <- trimStart_all_white. split.
  - intros H. apply (f_equal (@rev N)) in H. rewrite rev_involutive in H.
    simpl in H. apply trimStart_all_white in H.
    pose proof (trimStart_head s) as Hh.
    destruct (trimStart s) as [|c r]; [reflexivity|].
    rewrite forallb_forall in H.
    rewrite (H c) in Hh; [discriminate|].
    apply -> in_rev. left; reflexivity.
  - intros ->. reflexivity.
Qed.

(** ** The task store *)

(** C7. An add whose text is empty, or is white space only and so trims to
    the empty string, changes nothing: the state that comes back is the
    state that went in, with the same task collection. *)
Theorem addTodo_blank_noop (newId created : Z) (st : App) :
  trim (Form.inputValue (form st)) = [] ->
  addTodo newId created st = st /\ todos (addTodo newId created st) = todos st.
Proof.
  intros H. unfold addTodo. rewrite H. simpl. split; reflexivity.
Qed.

Lemma addTodo_blank_noop_witness :
  let st := fillForm (Form.mk (lit "  ") high work [] []) initialApp in
  trim (Form.inputValue (form st)) = [] /\
  addTodo 1717261200000 1717261200000 st = st /\
  todos (addTodo 1717261200000 1717261200000 st) = todos st.
Proof.
  split; [reflexivity|].
  apply (addTodo_blank_noop 1717261200000 1717261200000
           (fillForm (Form.mk (lit "  ") high work [] []) initialApp)).
  reflexivity.
Defined.

Lemma addTodo_todos (newId created : Z) (st : App) :
  trim (Form.inputValue (form st)) <> [] ->
  todos (addTodo newId created st) =
  {| id := newId;
     text := Form.inputValue (form st);
     completed := false;
     priority := Form.priority (form st);
     category := Form.category (form st);
     dueDate := or_null (Form.dueDate (form st));
     createdAt := created;
     notes := Form.notes (form st) |} :: todos st.
Proof.
  intros H. unfold addTodo. rewrite (jsstring_eqb_neq _ _ H). reflexivity.
Qed.

(** C6, as the code has it. An add whose text does not trim to the empty
    string puts one new task in front of the collection and leaves the
    tasks that were there as they were, in their order. The new task has
    the text as typed, the priority, category and notes of the form, the
    due date of the form or null when that is the empty string,
    [completed = false], and as its id the reading of [Date.now()]; the id
    is new to the store whenever that reading is not an id already in
    it. *)
Theorem addTodo_prepends (newId created : Z) (st : App) :
  trim (Form.inputValue (form st)) <> [] ->
  exists t,
    todos (addTodo newId created st) = t :: todos st
    /\ id t = newId
    /\ text t = Form.inputValue (form st)
    /\ completed t = false
    /\ priority t = Form.priority (form st)
    /\ category t = Form.category (form st)
    /\ dueDate t = or_null (Form.dueDate (form st))
    /\ notes t = Form.notes (form st)
    /\ (~ In newId (List.map id (todos st)) ->
        ~ In (id t) (List.map id (todos st))).
Proof.
  intros H. eexists. split; [apply (addTodo_todos _ _ _ H)|].
  simpl. repeat split; auto.
Qed.

Lemma addTodo_prepends_witness :
  let st := fillForm (Form.mk (lit "Buy milk") high shopping [] []) initialApp in
  trim (Form.inputValue (form st)) <> [] /\
  exists t,
    todos (addTodo 1717261200000 1717261200001 st) = t :: todos st
    /\ id t = 1717261200000
    /\ text t = lit "Buy milk"
    /\ completed t = false
    /\ priority t = high
    /\ category t = shopping
    /\ dueDate t = None
    /\ notes t = []
    /\ (~ In 1717261200000 (List.map id (todos st)) ->
        ~ In (id t) (List.map id (todos st))).
Proof.
  split; [vm_compute; discriminate|].
  apply (addTodo_prepends 1717261200000 1717261200001
           (fillForm (Form.mk (lit "Buy milk") high shopping [] []) initialApp)).
  vm_compute; discriminate.
Defined.

(** C6, as the specification words it: the id of the added task would be
    one that no task of the store has. A store that holds a task made at
    clock reading 1000 gets a second task with the same id when the next
    add reads 1000 again. *)
Lemma addTodo_id_not_unique :
  ~ (forall (newId created : Z) (st : App),
        trim (Form.inputValue (form st)) <> [] ->
        exists t,
          todos (addTodo newId created st) = t :: todos st
          /\ ~ In (id t) (List.map id (todos st))).
Proof.
  intros H.
  pose (f := Form.mk (lit "Buy milk") high shopping [] []).
  pose (st := fillForm f (addTodo 1000 1000 (fillForm f initialApp))).
  destruct (H 1000 1000 st) as [t [E N]]; [vm_compute; discriminate|].
  vm_compute in E. inversion E; subst t. apply N. vm_compute. left; reflexivity.
Qed.

Lemma add_todos (e : AddEvent) (st : App) :
  todos (add e st) = todos st
  \/ exists t, todos (add e st) = t :: todos st /\ id t = add_now e.
Proof.
  unfold add, addTodo.
  destruct (jsstring_eqb _ _); [left; reflexivity|].
  right. eexists; split; reflexivity.
Qed.

(** C4, as the code has it. The id of a task is the reading of
    [Date.now()] at its add. When the readings of a sequence of adds are
    pairwise distinct and none of them is an id already in the store,
    whose ids are distinct, then after the adds no two tasks share an
    id. *)
Theorem adds_unique_ids (es : list AddEvent) (st : App) :
  NoDup (List.map add_now es ++ List.map id (todos st)) ->
  NoDup (List.map id (todos (adds es st))).
Proof.
  revert st. induction es as [|e es IH]; intros st H; simpl in *.
  - exact H.
  - apply IH.
    destruct (add_todos e st) as [-> | [t [-> E]]].
    + inversion H; assumption.
    + simpl. rewrite E.
      exact (Permutation_NoDup (Permutation_middle _ _ _) H).
Qed.

Lemma adds_unique_ids_witness :
  let f := Form.mk (lit "Buy milk") high shopping [] [] in
  let es := [mkAdd f 1000 1000; mkAdd f 1001 1001] in
  NoDup (List.map add_now es ++ List.map id (todos initialApp))
  /\ NoDup (List.map id (todos (adds es initialApp))).
Proof.
  assert (H : NoDup ([1000; 1001] ++ @nil Z)).
  { simpl. repeat constructor; simpl; intuition discriminate. }
  split; [exact H|].
  apply (adds_unique_ids
           [mkAdd (Form.mk (lit "Buy milk") high shopping [] []) 1000 1000;
            mkAdd (Form.mk (lit "Buy milk") high shopping [] []) 1001 1001]
           initialApp).
  exact H.
Defined.

(** C4, as the specification words it: unique ids however close in time
    the adds are. Two adds in the same millisecond read the same
    [Date.now()] and the two tasks share their id. *)
Lemma adds_same_millisecond :
  ~ (forall es : list AddEvent,
        NoDup (List.map id (todos (adds es initialApp)))).
Proof.
  intros H.
  pose (f := Form.mk (lit "Buy milk") high shopping [] []).
  specialize (H [mkAdd f 1000 1000; mkAdd f 1000 1000]).
  vm_compute in H. inversion H as [|? ? Hn _]. apply Hn. left; reflexivity.
Qed.

Lemma toggle_toggle (t : Todo) : toggle (toggle t) = t.
Proof. destruct t; unfold toggle; simpl. rewrite negb_involutive. reflexivity. Qed.

(** C8. Toggling the same id twice gives back the collection as it was, so
    the [completed] flag of every task with that id is back at its first
    value; toggling an id that no task has leaves the collection as it
    is. *)
Theorem toggleTodo_involution (i : Z) (ts : list Todo) :
  toggleTodo i (toggleTodo i ts) = ts
  /\ List.map completed (toggleTodo i (toggleTodo i ts)) = List.map completed ts
  /\ (~ In i (List.map id ts) -> toggleTodo i ts = ts).
Proof.
  assert (E : toggleTodo i (toggleTodo i ts) = ts).
  { unfold toggleTodo. rewrite map_map.
    rewrite <- (map_id ts) at 2. apply map_ext. intros t.
    destruct (id t =? i) eqn:Ei; simpl; rewrite Ei; [apply toggle_toggle | reflexivity]. }
  split; [exact E|]. split; [rewrite E; reflexivity|].
  intros H. unfold toggleTodo. rewrite <- (map_id ts) at 2.
  apply map_ext_in. intros t Ht.
  destruct (id t =? i) eqn:Ei; [|reflexivity].
  apply Z.eqb_eq in Ei. exfalso. apply H. rewrite <- Ei. apply in_map. exact Ht.
Qed.

Lemma toggleTodo_involution_witness :
  let ts := [mkTodo 7 (lit "a") false low work None 7 [];
             mkTodo 8 (lit "b") true high other None 8 []] in
  completed (hd (mkTodo 0 [] true low work None 0 []) (toggleTodo 7 ts)) = true
  /\ ~ In 9 (List.map id ts)
  /\ toggleTodo 7 (toggleTodo 7 ts) = ts
  /\ List.map completed (toggleTodo 7 (toggleTodo 7 ts)) = List.map completed ts
  /\ toggleTodo 9 ts = ts.
Proof.
  pose (ts := [mkTodo 7 (lit "a") false low work None 7 [];
               mkTodo 8 (lit "b") true high other None 8 []]).
  assert (N : ~ In 9 (List.map id ts)) by (simpl; intuition discriminate).
  split; [reflexivity|]. split; [exact N|].
  destruct (toggleTodo_involution 7 ts) as [A [B _]].
  destruct (toggleTodo_involution 9 ts) as [_ [_ C]].
  split; [exact A|]. split; [exact B|]. exact (C N).
Defined.

(** ** Aggregate statistics *)

(** C10. The counters split the collection: active and completed add up to
    the total, and the high-priority counter, which counts active tasks
    only, is at most the active counter. [stats] reads the whole
    collection and none of the filters, so this holds for the collection
    left by any operation. *)
Theorem stats_partition (ts : list Todo) :
  (Stats.active (stats ts) + Stats.completed (stats ts) = Stats.total (stats ts))%nat
  /\ (Stats.highPriority (stats ts) <= Stats.active (stats ts))%nat.
Proof.
  unfold stats; simpl. induction ts as [|t ts [IH1 IH2]]; simpl; [split; lia|].
  destruct (completed t), (Priority_eqb (priority t) high); simpl; split; lia.
Qed.
(** ** Sorting by due date *)

Lemma Date_parse_truthy (d : jsstring) (t : Z) :
  Date_parse d = Some t -> truthy (Some d) = true.
Proof. destruct d; [discriminate | reflexivity]. Qed.

(** C2, as the code has it. For two tasks with valid due dates the
    comparator returns the difference of the two time values: negative,
    zero or positive as the first date is earlier than, the same as, or
    later than the second, so ascending, and 0 for two tasks due the same
    day. A task with no due date compared with a task that has one is put
    after it, from either side. Sorting the three sample tasks gives
    January, June, no date. *)
Theorem compare_dueDate_ascending :
  (forall (a b : Todo) (da db : jsstring) (ta tb : Z),
      dueDate a = Some da -> dueDate b = Some db ->
      Date_parse da = Some ta -> Date_parse db = Some tb ->
      compare_dueDate a b = Some (ta - tb))
  /\ (forall (a b : Todo) (db : jsstring) (tb : Z),
         dueDate a = None -> dueDate b = Some db -> Date_parse db = Some tb ->
         compare_dueDate a b = Some 1 /\ compare_dueDate b a = Some (-1)
         /\ comes_after (compare_dueDate a b) = true
         /\ comes_after (compare_dueDate b a) = false)
  /\ sort compare_dueDate [no_due; due_january; due_june]
     = [due_january; due_june; no_due].
Proof.
  split; [|split].
  - intros a b da db ta tb Ha Hb Pa Pb. unfold compare_dueDate.
    rewrite Ha, Hb, (Date_parse_truthy _ _ Pa), (Date_parse_truthy _ _ Pb).
    simpl. rewrite Pa, Pb. reflexivity.
  - intros a b db tb Ha Hb Pb. unfold compare_dueDate.
    rewrite Ha, Hb, (Date_parse_truthy _ _ Pb). simpl. repeat split.
  - reflexivity.
Qed.

Lemma compare_dueDate_ascending_witness :
  compare_dueDate due_january due_june = Some (1704067200000 - 1717200000000)
  /\ compare_dueDate no_due due_june = Some 1
  /\ compare_dueDate due_june no_due = Some (-1).
Proof.
  destruct compare_dueDate_ascending as [A [B _]].
  split.
  - apply (A due_january due_june (lit "2024-01-01") (lit "2024-06-01"));
      reflexivity.
  - destruct (B no_due due_june (lit "2024-06-01") 1717200000000) as [X [Y _]];
      try reflexivity.
    split; [exact X | exact Y].
Defined.

(** C2, as the specification words it: 0 exactly when both due dates are
    null. Two tasks due the same day compare as 0 with neither date
    null. *)
Lemma compare_dueDate_zero_not_only_null :
  ~ (forall a b : Todo,
        compare_dueDate a b = Some 0 <->
        dueDate a = None /\ dueDate b = None).
Proof.
  intros H.
  destruct (H due_january (sample_task 4 (Some (lit "2024-01-01")))) as [H1 _].
  destruct (H1 eq_refl) as [E _]. discriminate E.
Qed.

(** What the comparator answers for two tasks with no due date. *)
Example compare_dueDate_both_null :
  compare_dueDate no_due (sample_task 5 None) = Some 1.
Proof. reflexivity. Qed.

(** ** Overdue tasks *)

(** C5 at an input where the code leaves it. It is noon of 1 June 2024 in
    a zone five hours behind UTC, and the task is due on 1 June 2024: the
    due date is read as midnight UTC, which is the evening of 31 May
    there, and the task counts as overdue on the day it is due. In UTC
    the same task at the same instant is not overdue. *)
Theorem isOverdue_on_due_day_behind_utc :
  toDateString (-300) (Some noon_june_first_utc_minus_5) = lit "Sat Jun 01 2024"
  /\ toDateString (-300) (Date_parse (lit "2024-06-01")) = lit "Fri May 31 2024"
  /\ isOverdue (-300) noon_june_first_utc_minus_5 (Some (lit "2024-06-01")) = true
  /\ isOverdue 0 noon_june_first_utc_minus_5 (Some (lit "2024-06-01")) = false.
Proof. repeat split; reflexivity. Qed.

(** ** The JSON text of a string reads back as the string *)

Ltac lia_div := zify; Z.to_euclidean_division_equations; lia.

Ltac case_N :=
  repeat match goal with
    | |- context [(?a <=? ?b)%N] => destruct (N.leb_spec a b)
    | |- context [(?a <? ?b)%N] => destruct (N.ltb_spec a b)
    | |- context [(?a =? ?b)%N] => destruct (N.eqb_spec a b)
    end.

Lemma hex_value_hex_unit (d : N) :
  (d < 16)%N -> hex_value (hex_unit d) = Some d.
Proof.
  intros H. unfold hex_value, hex_unit.
  case_N; cbn [andb]; try (exfalso; lia); f_equal; lia.
Qed.

Lemma hex4_escape (c : N) :
  (c < 65536)%N ->
  hex4 (hex_unit (c / 4096 mod 16)) (hex_unit (c / 256 mod 16))
       (hex_unit (c / 16 mod 16)) (hex_unit (c mod 16)) = Some c.
Proof.
  intros H. unfold hex4.
  rewrite !hex_value_hex_unit by (apply N.mod_lt; discriminate).
  f_equal. lia_div.
Qed.

Lemma parse_unicode_escape (c : N) (rest : jsstring) :
  (c < 65536)%N ->
  parse_string_body (unicode_escape c ++ rest)
  = cons_unit c (parse_string_body rest).
Proof.
  intros H. unfold unicode_escape.
  cbn [app parse_string_body N.eqb Pos.eqb].
  rewrite (hex4_escape c H). reflexivity.
Qed.

Lemma surrogate_is_unit (c : N) :
  is_high_surrogate c = true \/ is_low_surrogate c = true -> (c < 65536)%N.
Proof.
  unfold is_high_surrogate, is_low_surrogate.
  intros [H | H]; apply andb_true_iff in H; destruct H as [_ H];
    apply N.leb_le in H; lia.
Qed.

Lemma parse_quote_unit (c : N) (rest : jsstring) :
  parse_string_body (quote_unit c ++ rest)
  = cons_unit c (parse_string_body rest).
Proof.
  unfold quote_unit.
  destruct (N.eqb_spec c 8); [subst; reflexivity|].
  destruct (N.eqb_spec c 9); [subst; reflexivity|].
  destruct (N.eqb_spec c 10); [subst; reflexivity|].
  destruct (N.eqb_spec c 12); [subst; reflexivity|].
  destruct (N.eqb_spec c 13); [subst; reflexivity|].
  destruct (N.eqb_spec c 34); [subst; reflexivity|].
  destruct (N.eqb_spec c 92); [subst; reflexivity|].
  destruct (N.ltb_spec c 32) as [L | L].
  - apply parse_unicode_escape. lia.
  - cbn [app parse_string_body].
    destruct (N.eqb_spec c 34); [contradiction|].
    destruct (N.eqb_spec c 92); [contradiction|].
    destruct (N.ltb_spec c 32); [lia|]. reflexivity.
Qed.

Lemma parse_surrogate_literal (c : N) (rest : jsstring) :
  is_high_surrogate c = true \/ is_low_surrogate c = true ->
  parse_string_body (c :: rest) = cons_unit c (parse_string_body rest).
Proof.
  intros H. cbn [parse_string_body].
  assert (R : (55296 <= c)%N).
  { unfold is_high_surrogate, is_low_surrogate in H.
    destruct H as [H | H]; apply andb_true_iff in H; destruct H as [H _];
      apply N.leb_le in H; lia. }
  destruct (N.eqb_spec c 34); [lia|].
  destruct (N.eqb_spec c 92); [lia|].
  destruct (N.ltb_spec c 32); [lia|]. reflexivity.
Qed.

Lemma parse_quote_units_step (s : jsstring) (rest : jsstring) :
  (parse_string_body (quote_units s ++ 34%N :: rest) = Ok (s, rest))
  /\ (forall c : N,
         parse_string_body (quote_units (c :: s) ++ 34%N :: rest)
         = Ok (c :: s, rest)).
Proof.
  induction s as [|d s [IH1 IH2]].
  - split; [reflexivity|]. intros c. cbn [quote_units].
    destruct (is_high_surrogate c) eqn:Hc.
    + rewrite parse_unicode_escape by (apply surrogate_is_unit; auto).
      reflexivity.
    + destruct (is_low_surrogate c) eqn:Lc.
      * rewrite <- app_assoc, parse_unicode_escape
          by (apply surrogate_is_unit; auto).
        reflexivity.
      * rewrite <- app_assoc, parse_quote_unit. reflexivity.
  - split; [apply IH2|]. intros c.
    change (quote_units (c :: d :: s)) with
      (if is_high_surrogate c then
         if is_low_surrogate d then c :: d :: quote_units s
         else unicode_escape c ++ quote_units (d :: s)
       else if is_low_surrogate c then unicode_escape c ++ quote_units (d :: s)
       else quote_unit c ++ quote_units (d :: s)).
    destruct (is_high_surrogate c) eqn:Hc.
    + destruct (is_low_surrogate d) eqn:Ld.
      * cbn [app]. rewrite parse_surrogate_literal by auto.
        rewrite parse_surrogate_literal by auto.
        rewrite IH1. reflexivity.
      * rewrite <- app_assoc, parse_unicode_escape
          by (apply surrogate_is_unit; auto).
        rewrite IH2. reflexivity.
    + destruct (is_low_surrogate c) eqn:Lc.
      * rewrite <- app_assoc, parse_unicode_escape
          by (apply surrogate_is_unit; auto).
        rewrite IH2. reflexivity.
      * rewrite <- app_assoc, parse_quote_unit, IH2. reflexivity.
Qed.

(** A string written by [QuoteJSONString] reads back as itself, whatever
    follows its closing quote. *)
Lemma parse_QuoteJSONString (s rest : jsstring) :
  parse_string_body (tl (QuoteJSONString s ++ rest)) = Ok (s, rest).
Proof.
  unfold QuoteJSONString. cbn [app tl]. rewrite <- app_assoc.
  apply (parse_quote_units_step s rest).
Qed.

(** ** The JSON text of an integer reads back as the integer *)

Lemma digit_value_digit_unit (d : Z) :
  0 <= d <= 9 -> digit_value (digit_unit d) = Some d.
Proof.
  intros H. unfold digit_value, digit_unit.
  case_N; cbn [andb]; try (exfalso; lia). f_equal. lia.
Qed.

Lemma span_digits_fuel (f : nat) :
  forall (n : Z) (count : nat) (rest : jsstring),
    0 <= n < 2 ^ Z.of_nat f ->
    span_digits 0 count (digits_fuel f n ++ rest)
    = span_digits n (count + List.length (digits_fuel f n)) rest.
Proof.
  induction f as [|f IH]; intros n count rest H.
  - simpl in *. replace n with 0 by lia. f_equal. lia.
  - cbn [digits_fuel]. destruct (Z.ltb_spec n 10) as [L | L].
    + cbn [app span_digits List.length].
      rewrite digit_value_digit_unit by lia.
      f_equal; lia.
    + rewrite <- app_assoc, IH.
      * cbn [app span_digits]. rewrite digit_value_digit_unit
          by (pose proof (Z.mod_pos_bound n 10); lia).
        rewrite length_app. cbn [List.length]. f_equal; [|lia].
        pose proof (Z.div_mod n 10). lia.
      * split; [apply Z.div_pos; lia|].
        apply Z.div_lt_upper_bound; [lia|].
        rewrite Nat2Z.inj_succ, Z.pow_succ_r in H by lia. lia.
Qed.

Lemma digits_fuel_head (f : nat) :
  forall n : Z,
    0 < n < 2 ^ Z.of_nat f ->
    exists (c : N) (r : jsstring),
      digits_fuel f n = c :: r /\ (49 <= c <= 57)%N.
Proof.
  induction f as [|f IH]; intros n H.
  - simpl in H. lia.
  - cbn [digits_fuel]. destruct (Z.ltb_spec n 10) as [L | L].
    + exists (digit_unit n), []. split; [reflexivity|]. unfold digit_unit. lia.
    + destruct (IH (n / 10)) as [c [r [E R]]].
      * split; [apply Z.div_str_pos; lia|].
        apply Z.div_lt_upper_bound; [lia|].
        rewrite Nat2Z.inj_succ, Z.pow_succ_r in H by lia. lia.
      * rewrite E. exists c, (r ++ [digit_unit (n mod 10)]).
        split; [reflexivity | exact R].
Qed.

Lemma digits_fuel_enough (n : Z) :
  0 <= n -> 0 <= n < 2 ^ Z.of_nat (S (Z.to_nat (Z.log2 n))).
Proof.
  intros H. split; [exact H|].
  rewrite Nat2Z.inj_succ, Z2Nat.id by apply Z.log2_nonneg.
  destruct (Z.eq_dec n 0) as [-> | N]; [reflexivity|].
  apply Z.log2_spec. lia.
Qed.

Lemma span_digits_stop (acc : Z) (count : nat) (rest : jsstring) :
  delimited rest = true -> span_digits acc count rest = (acc, count, rest).
Proof.
  destruct rest as [|c r]; [reflexivity|].
  cbn [delimited span_digits]. intros H. unfold digit_value.
  destruct (N.eqb_spec c 44); [subst; reflexivity|].
  destruct (N.eqb_spec c 93); [subst; reflexivity|].
  destruct (N.eqb_spec c 125); [subst; reflexivity|]. discriminate.
Qed.

Lemma delimited_starts (rest : jsstring) (c : N) :
  delimited rest = true -> c <> 44%N -> c <> 93%N -> c <> 125%N ->
  starts_with c rest = false.
Proof.
  destruct rest as [|d r]; [reflexivity|].
  cbn [delimited starts_with]. intros H A B C.
  destruct (N.eqb_spec d c); [subst d|reflexivity].
  destruct (N.eqb_spec c 44); [contradiction|].
  destruct (N.eqb_spec c 93); [contradiction|].
  destruct (N.eqb_spec c 125); [contradiction|]. discriminate.
Qed.

Lemma parse_natural (a : Z) (rest : jsstring) :
  0 <= a -> delimited rest = true ->
  parse_int_part (digits a ++ rest) = Ok (a, rest)
  /\ starts_with 45 (digits a ++ rest) = false.
Proof.
  intros H D. unfold parse_int_part, digits.
  pose proof (digits_fuel_enough a H) as F.
  destruct (Z.eq_dec a 0) as [-> | N].
  - split; reflexivity.
  - destruct (digits_fuel_head (S (Z.to_nat (Z.log2 a))) a) as [c [r [E R]]];
      [lia|].
    assert (S0 : starts_with 48 (digits_fuel (S (Z.to_nat (Z.log2 a))) a ++ rest)
                 = false).
    { rewrite E. cbn [app starts_with]. apply N.eqb_neq. lia. }
    rewrite S0, span_digits_fuel, span_digits_stop by assumption.
    split.
    + rewrite E. reflexivity.
    + rewrite E. cbn [app starts_with]. apply N.eqb_neq. lia.
Qed.

Lemma parse_number_tail (neg : bool) (a : Z) (rest : jsstring) :
  delimited rest = true ->
  (' (m, n, s3) <- parse_frac_part a rest ;;
   ' (x, s4) <- parse_exp_part s3 ;;
   let e := x - Z.of_nat n in
   Ok (decimal_value (Z.to_nat (- e)) (if neg then - m else m) e, s4))
  = Ok (VNum (if neg then - a else a), rest).
Proof.
  intros D. unfold parse_frac_part, parse_exp_part.
  rewrite (delimited_starts rest 46) by (assumption || discriminate).
  cbn [bind].
  rewrite (delimited_starts rest 101), (delimited_starts rest 69)
    by (assumption || discriminate).
  cbn. rewrite Z.mul_1_r. reflexivity.
Qed.

(** A safe integer is below the bound from which [Number::toString]
    turns to exponent notation. *)
Lemma safe_integer_plain (z : Z) : Z.abs z < 2 ^ 53 -> Z.abs z < 10 ^ 21.
Proof.
  intros H. apply Z.lt_trans with (2 ^ 53); [exact H | reflexivity].
Qed.

(** The decimal text of an integer below [10^21] in magnitude reads back
    as the integer. *)
Lemma parse_integer_string (z : Z) (rest : jsstring) :
  Z.abs z < 10 ^ 21 -> delimited rest = true ->
  parse_number (integer_string z ++ rest) = Ok (VNum z, rest).
Proof.
  intros B D. unfold parse_number, integer_string, natural_string.
  destruct (Z.ltb_spec z 0) as [L | L].
  - destruct (Z.ltb_spec (- z) (10 ^ 21)) as [_ | X]; [|lia].
    cbn [app starts_with N.eqb Pos.eqb tl].
    destruct (parse_natural (- z) rest ltac:(lia) D) as [P _]. rewrite P.
    cbn [bind]. etransitivity; [exact (parse_number_tail true (- z) rest D)|].
    cbn iota. rewrite Z.opp_involutive. reflexivity.
  - destruct (Z.ltb_spec z (10 ^ 21)) as [_ | X]; [|lia].
    destruct (parse_natural z rest L D) as [P M]. rewrite M, P.
    cbn [bind]. exact (parse_number_tail false z rest D).
Qed.

(** ** The JSON text of a value reads back as the value *)

(** Induction on values that reaches the elements of arrays and the
    members of objects. *)
Lemma value_nested_ind (P : value -> Prop) :
  P VNull ->
  (forall b, P (VBool b)) ->
  (forall z, P (VNum z)) ->
  (forall m e, P (VFrac m e)) ->
  (forall s, P (VStr s)) ->
  (forall t, P (VDate t)) ->
  (forall l, Forall P l -> P (VArr l)) ->
  (forall l, Forall (fun kv => P (snd kv)) l -> P (VObj l)) ->
  forall v, P v.
Proof.
  intros HNull HBool HNum HFrac HStr HDate HArr HObj.
  fix IH 1. intros [ | b | z | m e | s | t | l | l ].
  - exact HNull.
  - apply HBool.
  - apply HNum.
  - apply HFrac.
  - apply HStr.
  - apply HDate.
  - apply HArr. induction l as [|x l IHl]; constructor; [apply IH | exact IHl].
  - apply HObj. induction l as [|[k x] l IHl]; constructor;
      [apply IH | exact IHl].
Qed.

Lemma parse_value_step (f : nat) (s : jsstring) :
  parse_value (S f) s =
  let s := skip_ws s in
  if starts_with 123 s then
    if starts_with 125 (skip_ws (tl s))
    then Ok (VObj [], tl (skip_ws (tl s)))
    else parse_members f [] (tl s)
  else if starts_with 91 s then
    if starts_with 93 (skip_ws (tl s))
    then Ok (VArr [], tl (skip_ws (tl s)))
    else ' (l, rest) <- parse_elements f (tl s) ;; Ok (VArr l, rest)
  else if starts_with 34 s then
    ' (str, rest) <- parse_string_body (tl s) ;; Ok (VStr str, rest)
  else if starts_with 116 s then parse_literal "true" (VBool true) s
  else if starts_with 102 s then parse_literal "false" (VBool false) s
  else if starts_with 110 s then parse_literal "null" VNull s
  else parse_number s.
Proof. reflexivity. Qed.

Lemma parse_elements_step (f : nat) (s : jsstring) :
  parse_elements (S f) s =
  ' (v, rest) <- parse_value f s ;;
  let rest := skip_ws rest in
  if starts_with 44 rest then
    ' (l, rest') <- parse_elements f (tl rest) ;; Ok (v :: l, rest')
  else if starts_with 93 rest then Ok ([v], tl rest)
  else SyntaxError.
Proof. reflexivity. Qed.

Lemma parse_members_step (f : nat) (acc : list (jsstring * value))
    (s : jsstring) :
  parse_members (S f) acc s =
  let s := skip_ws s in
  if starts_with 34 s then
    ' (k, rest1) <- parse_string_body (tl s) ;;
    let rest1 := skip_ws rest1 in
    if starts_with 58 rest1 then
      ' (v, rest2) <- parse_value f (tl rest1) ;;
      let acc' := set_property k v acc in
      let rest2 := skip_ws rest2 in
      if starts_with 44 rest2 then parse_members f acc' (tl rest2)
      else if starts_with 125 rest2 then Ok (VObj acc', tl rest2)
      else SyntaxError
    else SyntaxError
  else SyntaxError.
Proof. reflexivity. Qed.

Lemma digits_head (a : Z) :
  0 <= a ->
  exists (c : N) (r : jsstring), digits a = c :: r /\ (48 <= c <= 57)%N.
Proof.
  intros H. destruct (Z.eq_dec a 0) as [-> | N].
  - exists 48%N, []. split; [reflexivity | lia].
  - unfold digits.
    destruct (digits_fuel_head (S (Z.to_nat (Z.log2 a))) a) as [c [r [E R]]].
    + pose proof (digits_fuel_enough a H). lia.
    + exists c, r. split; [exact E | lia].
Qed.

Lemma integer_string_head (z : Z) :
  Z.abs z < 10 ^ 21 ->
  exists (c : N) (r : jsstring),
    integer_string z = c :: r /\ (c = 45 \/ 48 <= c <= 57)%N.
Proof.
  intros B. unfold integer_string, natural_string.
  destruct (Z.ltb_spec z 0) as [L | L].
  - eexists _, _. split; [reflexivity | left; reflexivity].
  - destruct (Z.ltb_spec z (10 ^ 21)) as [_ | X]; [|lia].
    destruct (digits_head z L) as [c [r [E R]]].
    exists c, r. split; [exact E | right; exact R].
Qed.

(** The text of a value starts with a character that is neither white
    space nor a closing bracket. *)
Lemma stringify_head (v : value) :
  storable v = true ->
  exists (c : N) (r : jsstring),
    JSON_stringify v = c :: r /\ is_json_ws c = false /\ c <> 93%N.
Proof.
  destruct v as [ | [|] | z | m e | s | t | l | l ]; cbn [storable]; intros H;
    try discriminate;
    try (eexists _, _; split; [reflexivity | split; [reflexivity | discriminate]]).
  apply Z.ltb_lt in H. apply safe_integer_plain in H.
  destruct (integer_string_head z H) as [c [r [E R]]].
  exists c, r. split; [exact E|].
  unfold is_json_ws. split; [case_N; cbn; try reflexivity; lia | lia].
Qed.

Lemma skip_ws_head (c : N) (r : jsstring) :
  is_json_ws c = false -> skip_ws (c :: r) = c :: r.
Proof. intros H. cbn [skip_ws]. rewrite H. reflexivity. Qed.

Lemma commas_cons (p q : jsstring) (more : list jsstring) :
  commas (p :: q :: more) = p ++ 44%N :: commas (q :: more).
Proof. reflexivity. Qed.

Lemma delimited_cons (c : N) (r : jsstring) :
  (c = 44 \/ c = 93 \/ c = 125)%N -> delimited (c :: r) = true.
Proof. intros [-> | [-> | ->]]; reflexivity. Qed.

Lemma parse_elements_stringified (l : list value) :
  Forall (fun v =>
            storable v = true ->
            forall (fuel : nat) (rest : jsstring),
              (weight v <= fuel)%nat -> delimited rest = true ->
              parse_value fuel (JSON_stringify v ++ rest) = Ok (jsonify v, rest))
         l ->
  forallb storable l = true -> l <> [] ->
  forall (fuel : nat) (rest : jsstring),
    (list_sum (List.map (fun x => S (weight x)) l) <= fuel)%nat ->
    parse_elements fuel (commas (List.map JSON_stringify l) ++ 93%N :: rest)
    = Ok (List.map jsonify l, rest).
Proof.
  induction l as [|v l IHl]; intros HP HS HN fuel rest HF; [contradiction|].
  inversion HP as [|? ? Pv Pl]; subst.
  cbn [forallb] in HS. apply andb_true_iff in HS. destruct HS as [Sv Sl].
  cbn [List.map list_sum fold_right] in HF.
  destruct fuel as [|f]; [lia|].
  rewrite parse_elements_step.
  destruct l as [|v' l'].
  - cbn [List.map commas].
    rewrite (Pv Sv f (93%N :: rest)) by (reflexivity || lia).
    reflexivity.
  - cbn [List.map]. rewrite commas_cons, <- app_assoc. cbn [app].
    rewrite (Pv Sv f) by (reflexivity || lia).
    cbn [bind skip_ws is_json_ws N.eqb Pos.eqb orb starts_with tl].
    change (JSON_stringify v' :: List.map JSON_stringify l')
      with (List.map JSON_stringify (v' :: l')).
    rewrite (IHl Pl Sl ltac:(discriminate) f rest)
      by (cbn [List.map list_sum fold_right] in *; lia).
    reflexivity.
Qed.

Lemma parse_members_stringified (l : list (jsstring * value)) :
  Forall (fun kv =>
            storable (snd kv) = true ->
            forall (fuel : nat) (rest : jsstring),
              (weight (snd kv) <= fuel)%nat -> delimited rest = true ->
              parse_value fuel (JSON_stringify (snd kv) ++ rest)
              = Ok (jsonify (snd kv), rest))
         l ->
  forallb (fun kv => storable (snd kv)) l = true -> l <> [] ->
  forall (fuel : nat) (acc : list (jsstring * value)) (rest : jsstring),
    (list_sum (List.map (fun kv => S (weight (snd kv))) l) <= fuel)%nat ->
    parse_members fuel acc (commas (List.map member_text l) ++ 125%N :: rest)
    = Ok (VObj (fold_left
                  (fun a kv => set_property (fst kv) (jsonify (snd kv)) a)
                  l acc),
          rest).
Proof.
  induction l as [|[k v] l IHl]; intros HP HS HN fuel acc rest HF;
    [contradiction|].
  inversion HP as [|? ? Pv Pl]; subst. cbn [snd] in Pv.
  cbn [forallb snd] in HS. apply andb_true_iff in HS. destruct HS as [Sv Sl].
  cbn [List.map list_sum fold_right snd] in HF.
  destruct fuel as [|f]; [lia|].
  rewrite parse_members_step.
  assert (Q : forall tail : jsstring,
             parse_string_body
               (tl (skip_ws ((QuoteJSONString k ++ 58%N :: JSON_stringify v) ++ tail)))
             = Ok (k, 58%N :: JSON_stringify v ++ tail)).
  { intros tail. rewrite <- app_assoc. cbn [app].
    unfold QuoteJSONString at 1. cbn [app skip_ws is_json_ws N.eqb Pos.eqb orb].
    exact (parse_QuoteJSONString k (58%N :: JSON_stringify v ++ tail)). }
  assert (H34 : forall tail : jsstring,
             starts_with 34
               (skip_ws ((QuoteJSONString k ++ 58%N :: JSON_stringify v) ++ tail))
             = true) by reflexivity.
  destruct l as [|kv' l'].
  - cbn [List.map commas member_text fst snd fold_left].
    cbv zeta. rewrite H34, Q. cbn [bind skip_ws is_json_ws N.eqb Pos.eqb orb
                                       starts_with tl].
    rewrite (Pv Sv f (125%N :: rest)) by (reflexivity || lia).
    reflexivity.
  - cbn [List.map]. rewrite commas_cons. cbn [member_text fst snd fold_left].
    cbv zeta. rewrite <- app_assoc, H34, Q.
    cbn [bind skip_ws is_json_ws N.eqb Pos.eqb orb starts_with tl app].
    rewrite (Pv Sv f) by (reflexivity || lia).
    cbn [bind skip_ws is_json_ws N.eqb Pos.eqb orb starts_with tl].
    change (QuoteJSONString (fst kv') ++ 58%N :: JSON_stringify (snd kv'))
      with (member_text kv').
    change (member_text kv' :: List.map member_text l')
      with (List.map member_text (kv' :: l')).
    rewrite (IHl Pl Sl ltac:(discriminate) f)
      by (cbn [List.map list_sum fold_right] in *; lia).
    reflexivity.
Qed.

Lemma existsb_eqb_In (k : jsstring) (names : list jsstring) :
  existsb (jsstring_eqb k) names = true <-> In k names.
Proof.
  rewrite existsb_exists. split.
  - intros [x [I E]]. apply jsstring_eqb_spec in E. subst. exact I.
  - intros I. exists k. split; [exact I | apply jsstring_eqb_refl].
Qed.

Lemma distinct_NoDup (names : list jsstring) :
  distinct names = true -> NoDup names.
Proof.
  induction names as [|k names IH]; cbn [distinct]; intros H; constructor.
  - apply andb_true_iff in H. destruct H as [H _].
    apply negb_true_iff in H. intros I. apply existsb_eqb_In in I. congruence.
  - apply IH. apply andb_true_iff in H. tauto.
Qed.

Lemma set_property_fresh (k : jsstring) (v : value)
    (l : list (jsstring * value)) :
  ~ In k (List.map fst l) -> set_property k v l = l ++ [(k, v)].
Proof.
  induction l as [|[k' v'] l IH]; cbn [set_property List.map fst In app];
    intros H; [reflexivity|].
  rewrite jsstring_eqb_neq by tauto. rewrite IH by tauto. reflexivity.
Qed.

Lemma set_properties_fresh (f : value -> value) (l acc : list (jsstring * value)) :
  NoDup (List.map fst acc ++ List.map fst l) ->
  fold_left (fun a kv => set_property (fst kv) (f (snd kv)) a) l acc
  = acc ++ List.map (fun kv => (fst kv, f (snd kv))) l.
Proof.
  revert acc. induction l as [|[k v] l IH]; intros acc H;
    cbn [fold_left List.map fst snd].
  - rewrite app_nil_r. reflexivity.
  - rewrite set_property_fresh.
    + rewrite IH.
      * rewrite <- app_assoc. reflexivity.
      * rewrite map_app, <- app_assoc. exact H.
    + cbn [List.map fst] in H. apply NoDup_remove_2 in H.
      intros I. apply H. apply in_or_app. left; exact I.
Qed.

Lemma parse_value_string (f : nat) (s rest : jsstring) :
  parse_value (S f) (QuoteJSONString s ++ rest) = Ok (VStr s, rest).
Proof.
  rewrite parse_value_step.
  pose proof (parse_QuoteJSONString s rest) as Q.
  unfold QuoteJSONString in *. cbn [app tl] in Q.
  cbn [app skip_ws is_json_ws N.eqb Pos.eqb orb starts_with tl]. cbv zeta.
  cbn [tl starts_with N.eqb Pos.eqb]. rewrite Q. reflexivity.
Qed.

(** Reading the text that [JSON.stringify] wrote for a storable value
    gives the value back, with each [Date] as its ISO string, and leaves
    what follows the text. *)
Lemma parse_value_stringify (v : value) :
  storable v = true ->
  forall (fuel : nat) (rest : jsstring),
    (weight v <= fuel)%nat -> delimited rest = true ->
    parse_value fuel (JSON_stringify v ++ rest) = Ok (jsonify v, rest).
Proof.
  induction v as [ | b | z | m e | s | t | l IH | l IH ] using value_nested_ind;
    intros HS fuel rest HF HD; (destruct fuel as [|f]; [cbn in HF; lia|]);
    rewrite parse_value_step.
  - reflexivity.
  - destruct b; reflexivity.
  - cbn [storable] in HS. apply Z.ltb_lt in HS.
    apply safe_integer_plain in HS.
    destruct (integer_string_head z HS) as [c [r [E R]]].
    cbn [JSON_stringify jsonify]. cbv zeta.
    rewrite <- (parse_integer_string z rest HS HD).
    rewrite E. cbn [app].
    assert (W : is_json_ws c = false)
      by (unfold is_json_ws; case_N; cbn; try reflexivity; lia).
    rewrite (skip_ws_head c _ W). cbn [starts_with].
    repeat match goal with
           | |- context [(c =? ?k)%N] =>
               destruct (N.eqb_spec c k); [exfalso; lia|]
           end.
    reflexivity.
  - discriminate.
  - rewrite <- parse_value_step. apply parse_value_string.
  - rewrite <- parse_value_step. apply parse_value_string.
  - cbn [storable] in HS. cbn [weight] in HF.
    cbn [JSON_stringify jsonify]. cbv zeta.
    cbn [app skip_ws is_json_ws N.eqb Pos.eqb orb starts_with tl].
    destruct l as [|v l]; [reflexivity|].
    rewrite <- app_assoc. cbn [app].
    assert (H93 : starts_with 93
                    (skip_ws (commas (List.map JSON_stringify (v :: l))
                              ++ 93%N :: rest)) = false).
    { cbn [forallb] in HS. apply andb_true_iff in HS. destruct HS as [Sv _].
      destruct (stringify_head v Sv) as [c [r [E [W N93]]]].
      destruct l as [|v' l'].
      - cbn [commas List.map]. rewrite E. cbn [app]. rewrite (skip_ws_head c _ W).
        apply N.eqb_neq. exact N93.
      - cbn [List.map]. rewrite commas_cons, E. cbn [app].
        rewrite (skip_ws_head c _ W).
        apply N.eqb_neq. exact N93. }
    rewrite H93.
    rewrite (parse_elements_stringified (v :: l) IH HS ltac:(discriminate))
      by lia.
    reflexivity.
  - cbn [storable] in HS. apply andb_true_iff in HS. destruct HS as [HK HS].
    cbn [weight] in HF.
    cbn [JSON_stringify jsonify]. cbv zeta.
    cbn [app skip_ws is_json_ws N.eqb Pos.eqb orb starts_with tl].
    destruct l as [|kv l]; [reflexivity|].
    rewrite <- app_assoc. cbn [app].
    change (List.map (fun kv0 => QuoteJSONString (fst kv0)
                                 ++ 58%N :: JSON_stringify (snd kv0)) (kv :: l))
      with (List.map member_text (kv :: l)).
    assert (H125 : starts_with 125
                     (skip_ws (commas (List.map member_text (kv :: l))
                               ++ 125%N :: rest)) = false).
    { destruct l as [|kv' l']; cbn [List.map];
        [cbn [commas] | rewrite commas_cons]; reflexivity. }
    rewrite H125.
    rewrite (parse_members_stringified (kv :: l) IH HS ltac:(discriminate))
      by lia.
    rewrite set_properties_fresh by (apply distinct_NoDup; exact HK).
    reflexivity.
Qed.

Lemma weight_commas {A : Type} (w : A -> nat) (p : A -> jsstring)
    (l : list A) :
  Forall (fun x => (w x <= List.length (p x))%nat) l ->
  (list_sum (List.map (fun x => S (w x)) l)
   <= S (List.length (commas (List.map p l))))%nat.
Proof.
  induction l as [|x l IH]; intros H; [cbn; lia|].
  inversion H as [|? ? Hx Hl]; subst. specialize (IH Hl).
  cbn [List.map list_sum fold_right]. fold (list_sum (List.map (fun x => S (w x)) l)).
  destruct l as [|y l'].
  - cbn. lia.
  - cbn [List.map]. rewrite commas_cons, length_app. cbn [List.length].
    cbn [List.map] in IH. lia.
Qed.

Lemma weight_le_text (v : value) :
  storable v = true -> (weight v <= List.length (JSON_stringify v))%nat.
Proof.
  induction v as [ | b | z | m e | s | t | l IH | l IH ] using value_nested_ind;
    intros HS.
  - cbn. lia.
  - destruct b; cbn; lia.
  - cbn [storable] in HS. apply Z.ltb_lt in HS.
    apply safe_integer_plain in HS.
    destruct (integer_string_head z HS) as [c [r [E _]]].
    cbn [JSON_stringify weight]. rewrite E. cbn [List.length]. lia.
  - discriminate.
  - cbn [JSON_stringify weight QuoteJSONString List.length]. lia.
  - cbn [JSON_stringify weight QuoteJSONString List.length]. lia.
  - cbn [storable] in HS. cbn [JSON_stringify weight List.length].
    rewrite length_app. cbn [List.length].
    pose proof (weight_commas weight JSON_stringify l) as B.
    assert (F : Forall (fun x => (weight x <= List.length (JSON_stringify x))%nat) l).
    { rewrite forallb_forall in HS. rewrite Forall_forall in *.
      intros x I. apply IH; auto. }
    specialize (B F). lia.
  - cbn [storable] in HS. apply andb_true_iff in HS. destruct HS as [_ HS].
    cbn [JSON_stringify weight List.length].
    rewrite length_app. cbn [List.length].
    pose proof (weight_commas (fun kv => weight (snd kv)) member_text l) as B.
    assert (F : Forall (fun kv => (weight (snd kv)
                                   <= List.length (member_text kv))%nat) l).
    { rewrite forallb_forall in HS. rewrite Forall_forall in *.
      intros kv I. specialize (IH kv I (HS kv I)).
      unfold member_text. rewrite length_app. cbn [List.length]. lia. }
    specialize (B F). rewrite Nat.add_1_r. apply le_n_S. exact B.
Qed.

(** [JSON.parse(JSON.stringify(v))] is [v] with each [Date] replaced by
    its ISO string. *)
Lemma JSON_parse_stringify (v : value) :
  storable v = true -> JSON_parse (JSON_stringify v) = Ok (jsonify v).
Proof.
  intros HS. unfold JSON_parse.
  pose proof (weight_le_text v HS) as W.
  pose proof (parse_value_stringify v HS
                (S (2 * List.length (JSON_stringify v))) [] ltac:(lia) eq_refl)
    as P.
  rewrite app_nil_r in P. rewrite P. reflexivity.
Qed.

(** ** Saving and loading the tasks *)

Lemma jsonify_todo_value (t : Todo) : jsonify (todo_value t) = stored_todo t.
Proof. destruct t as [i tx c p cat [d|] cr n]; reflexivity. Qed.

Lemma storable_todo_value (t : Todo) :
  Z.abs (id t) < 2 ^ 53 -> storable (todo_value t) = true.
Proof.
  intros H. apply Z.ltb_lt in H.
  destruct t as [i tx c p cat [d|] cr n]; cbn [id] in H;
    unfold todo_value; cbn [storable forallb snd id text completed priority
      category dueDate createdAt notes]; rewrite H; reflexivity.
Qed.

(** C3, as the code has it. Saving a task collection and loading it again
    gives the tasks in the same order, each with the same id, text,
    completed flag, priority, category, due date and notes; [createdAt]
    comes back as the ISO string of the creation date, not as a [Date].
    The ids are safe integers, below [2^53] in magnitude, as every reading
    of [Date.now()] is. The text that the save writes reads back as these
    tasks, and so does the load that follows the save, whatever is stored
    under the theme key: with no theme stored, or the empty string, the
    theme is the light one; with a theme text that is JSON the theme is
    what the text reads as; with a theme text that is not JSON the load
    throws; and a load that ends with a value ends with these tasks. *)
Theorem save_then_load (ts : list Todo) (stg : Storage) :
  Forall (fun t => Z.abs (id t) < 2 ^ 53) ts ->
  JSON_parse (JSON_stringify (todos_value ts))
  = Ok (VArr (List.map stored_todo ts))
  /\ (darkMode_item stg = None \/ darkMode_item stg = Some [] ->
      load (saveTodos ts stg)
      = Ok (mkLoaded (VArr (List.map stored_todo ts)) (VBool false)))
  /\ (forall (d : N) (r : jsstring) (b : value),
         darkMode_item stg = Some (d :: r) -> JSON_parse (d :: r) = Ok b ->
         load (saveTodos ts stg)
         = Ok (mkLoaded (VArr (List.map stored_todo ts)) b))
  /\ (forall (d : N) (r : jsstring),
         darkMode_item stg = Some (d :: r) ->
         JSON_parse (d :: r) = SyntaxError ->
         load (saveTodos ts stg) = SyntaxError)
  /\ (forall l : Loaded,
         load (saveTodos ts stg) = Ok l ->
         loaded_todos l = VArr (List.map stored_todo ts)).
Proof.
  intros HI.
  assert (S : storable (todos_value ts) = true).
  { cbn [todos_value storable]. apply forallb_forall. intros v I.
    apply in_map_iff in I. destruct I as [t [<- I]].
    apply storable_todo_value. rewrite Forall_forall in HI. auto. }
  pose proof (JSON_parse_stringify _ S) as P.
  assert (J : jsonify (todos_value ts) = VArr (List.map stored_todo ts)).
  { cbn [todos_value jsonify]. rewrite map_map. f_equal. apply map_ext.
    exact jsonify_todo_value. }
  rewrite J in P. split; [exact P|].
  unfold load, saveTodos. cbn [complexTodos darkMode_item].
  change (JSON_stringify (todos_value ts))
    with (91%N :: commas (List.map JSON_stringify (List.map todo_value ts))
              ++ [93%N]) in *.
  cbn [app] in *. rewrite P. cbn [bind].
  split; [intros [-> | ->]; reflexivity|].
  split; [intros d r b -> ->; reflexivity|].
  split; [intros d r -> ->; reflexivity|].
  intros l. destruct (darkMode_item stg) as [[|d r]|];
    try (intros E; inversion E; reflexivity).
  destruct (JSON_parse (d :: r)); cbn [bind]; intros E; inversion E.
  reflexivity.
Qed.

Lemma save_then_load_witness :
  Forall (fun t => Z.abs (id t) < 2 ^ 53) [due_january; no_due]
  /\ load (saveTodos [due_january; no_due] (mkStorage None None))
     = Ok (mkLoaded (VArr [stored_todo due_january; stored_todo no_due])
                    (VBool false))
  /\ load (saveTodos [due_january; no_due]
             (mkStorage None (Some (lit "true"))))
     = Ok (mkLoaded (VArr [stored_todo due_january; stored_todo no_due])
                    (VBool true)).
Proof.
  assert (H : Forall (fun t => Z.abs (id t) < 2 ^ 53) [due_january; no_due])
    by (repeat constructor).
  split; [exact H|]. split.
  - apply (save_then_load [due_january; no_due] (mkStorage None None) H).
    left; reflexivity.
  - apply (save_then_load [due_january; no_due]
             (mkStorage None (Some (lit "true"))) H)
      with (d := 116%N) (r := [114%N; 117%N; 101%N]); reflexivity.
Defined.

(** C3, as the specification words it: the collection that comes back
    would be equal to the one saved, [createdAt] included. The task that
    was saved holds a [Date]; the task that is loaded holds a string. *)
Lemma save_then_load_createdAt_differs :
  ~ (forall ts : list Todo,
        load (saveTodos ts (mkStorage None None))
        = Ok (mkLoaded (todos_value ts) (VBool false))).
Proof.
  intros H. specialize (H [no_due]). vm_compute in H. discriminate H.
Qed.

(** ** [JSON.parse] returns or throws on every text *)

Lemma within_le {A : Type} (n m : nat) (r : result (A * jsstring)) :
  within n r -> (n <= m)%nat -> within m r.
Proof. destruct r as [[a rest]| |]; cbn; intros; lia || tauto. Qed.

Lemma within_bind {A B : Type} (n m : nat) (r : result (A * jsstring))
    (k : A * jsstring -> result (B * jsstring)) :
  within n r ->
  (forall a rest, (List.length rest <= n)%nat -> within m (k (a, rest))) ->
  within m (bind r k).
Proof. destruct r as [[a rest]| |]; cbn; intros H K; auto. Qed.

Lemma skip_ws_length (s : jsstring) :
  (List.length (skip_ws s) <= List.length s)%nat.
Proof.
  induction s as [|c s IH]; cbn [skip_ws]; [lia|].
  destruct (is_json_ws c); cbn [List.length]; lia.
Qed.

Lemma tl_length {A : Type} (s : list A) :
  (List.length (tl s) <= List.length s)%nat.
Proof. destruct s; cbn; lia. Qed.

Lemma starts_with_tl (c : N) (s : jsstring) :
  starts_with c s = true -> (S (List.length (tl s)) = List.length s)%nat.
Proof. destruct s; cbn; [discriminate | reflexivity]. Qed.

Lemma within_cons_unit (n : nat) (c : N) (r : result (jsstring * jsstring)) :
  within n r -> within n (cons_unit c r).
Proof. destruct r as [[a rest]| |]; cbn; auto. Qed.

Lemma within_parse_string_body (n : nat) :
  forall s : jsstring,
    (List.length s <= n)%nat -> within n (parse_string_body s).
Proof.
  induction n as [|n IH]; intros s H.
  - destruct s; [exact I | cbn in H; lia].
  - destruct s as [|c rest]; [exact I|]. cbn [List.length] in H.
    cbn [parse_string_body].
    destruct (c =? 34)%N; [cbn; lia|].
    destruct (c =? 92)%N.
    + destruct rest as [|e rest1]; [exact I|]. cbn [List.length] in H.
      assert (R1 : within (S n) (parse_string_body rest1))
        by (apply within_le with n; [apply IH|]; lia).
      repeat match goal with
             | |- within _ (if (e =? ?k)%N then _ else _) =>
                 destruct (e =? k)%N;
                 [try (apply within_cons_unit; exact R1)|]
             end; try exact I.
      destruct rest1 as [|h1 [|h2 [|h3 [|h4 rest2]]]]; try exact I.
      destruct (hex4 h1 h2 h3 h4); [|exact I].
      apply within_cons_unit. apply within_le with n; [apply IH|];
        cbn [List.length] in *; lia.
    + destruct (c <? 32)%N; [exact I|].
      apply within_cons_unit. apply within_le with n; [apply IH|]; lia.
Qed.

Lemma span_digits_length (s : jsstring) :
  forall (acc : Z) (count : nat),
    (List.length (snd (span_digits acc count s)) <= List.length s)%nat.
Proof.
  induction s as [|c s IH]; intros acc count; cbn [span_digits]; [cbn; lia|].
  destruct (digit_value c); [|cbn; lia].
  specialize (IH (10 * acc + z) (S count)). cbn [List.length]. lia.
Qed.

Lemma within_parse_exp_digits (s : jsstring) :
  within (List.length s) (parse_exp_digits s).
Proof.
  unfold parse_exp_digits. pose proof (span_digits_length s 0 0) as L.
  destruct (span_digits 0 0 s) as [[v n] rest]. cbn [snd] in L.
  destruct n; cbn; auto.
Qed.

Lemma within_parse_number (s : jsstring) :
  within (List.length s) (parse_number s).
Proof.
  unfold parse_number. cbv zeta.
  apply within_bind with (n := List.length s).
  - match goal with
    | |- context [parse_int_part ?x] => remember x as s1 eqn:E1
    end.
    unfold parse_int_part.
    assert (L1 : (List.length s1 <= List.length s)%nat)
      by (subst s1; destruct (starts_with 45 s); [apply tl_length | lia]).
    clear E1.
    destruct (starts_with 48 s1).
    + cbn [within]. pose proof (tl_length s1). lia.
    + pose proof (span_digits_length s1 0 0) as L.
      destruct (span_digits 0 0 s1) as [[v n] rest]. cbn [snd] in L.
      destruct n; cbn [within]; [auto | lia].
  - intros i s2 L2. apply within_bind with (n := List.length s).
    + unfold parse_frac_part. destruct (starts_with 46 s2).
      * pose proof (span_digits_length (tl s2) i 0) as L.
        pose proof (tl_length s2).
        destruct (span_digits i 0 (tl s2)) as [[v n] rest]. cbn [snd] in L.
        destruct n; cbn [within]; [auto | lia].
      * cbn [within]. lia.
    + intros [m n] s3 L3. apply within_bind with (n := List.length s).
      * unfold parse_exp_part.
        pose proof (tl_length s3). pose proof (tl_length (tl s3)).
        destruct (starts_with 101 s3 || starts_with 69 s3); [|cbn [within]; lia].
        destruct (starts_with 43 (tl s3)).
        { eapply within_le; [apply within_parse_exp_digits | lia]. }
        destruct (starts_with 45 (tl s3)).
        { apply within_bind with (n := List.length s).
          - eapply within_le; [apply within_parse_exp_digits | lia].
          - intros x r Lr. cbn [within]. exact Lr. }
        eapply within_le; [apply within_parse_exp_digits | lia].
      * intros x s4 L4. cbn [within]. exact L4.
Qed.

Lemma expect_length (word : jsstring) :
  forall s rest : jsstring,
    expect word s = Some rest -> (List.length rest <= List.length s)%nat.
Proof.
  induction word as [|w word IH]; intros s rest; cbn [expect].
  - intros E; inversion E; lia.
  - destruct s as [|c s]; [discriminate|].
    destruct (w =? c)%N; [|discriminate].
    intros E. specialize (IH _ _ E). cbn [List.length]. lia.
Qed.

Lemma within_parse_literal (word : string) (v : value) (s : jsstring) :
  within (List.length s) (parse_literal word v s).
Proof.
  unfold parse_literal. destruct (expect (lit word) s) eqn:E; [|exact I].
  cbn. exact (expect_length _ _ _ E).
Qed.

Lemma within_parse (f : nat) :
  (forall s : jsstring,
      (2 * List.length s + 1 <= f)%nat ->
      within (List.length s) (parse_value f s))
  /\ (forall s : jsstring,
         (2 * List.length s + 2 <= f)%nat ->
         within (List.length s) (parse_elements f s))
  /\ (forall (acc : list (jsstring * value)) (s : jsstring),
         (2 * List.length s + 2 <= f)%nat ->
         within (List.length s) (parse_members f acc s)).
Proof.
  induction f as [|f [IHv [IHe IHm]]].
  - repeat split; intros; lia.
  - split; [|split].
    + intros s H. rewrite parse_value_step. cbv zeta.
      pose proof (skip_ws_length s) as L.
      pose proof (tl_length (skip_ws s)) as T.
      pose proof (skip_ws_length (tl (skip_ws s))) as L'.
      pose proof (tl_length (skip_ws (tl (skip_ws s)))) as T'.
      destruct (starts_with 123 (skip_ws s)) eqn:E1.
      { apply starts_with_tl in E1.
        destruct (starts_with 125 (skip_ws (tl (skip_ws s)))).
        - cbn [within]. lia.
        - eapply within_le; [apply IHm|]; lia. }
      destruct (starts_with 91 (skip_ws s)) eqn:E2.
      { apply starts_with_tl in E2.
        destruct (starts_with 93 (skip_ws (tl (skip_ws s)))).
        - cbn [within]. lia.
        - apply within_bind with (n := List.length s).
          + eapply within_le; [apply IHe|]; lia.
          + intros l rest Lr. exact Lr. }
      destruct (starts_with 34 (skip_ws s)).
      { apply within_bind with (n := List.length s).
        - eapply within_le; [apply within_parse_string_body; reflexivity|]. lia.
        - intros k rest Lr. exact Lr. }
      destruct (starts_with 116 (skip_ws s));
        [eapply within_le; [apply within_parse_literal | lia]|].
      destruct (starts_with 102 (skip_ws s));
        [eapply within_le; [apply within_parse_literal | lia]|].
      destruct (starts_with 110 (skip_ws s));
        [eapply within_le; [apply within_parse_literal | lia]|].
      eapply within_le; [apply within_parse_number | lia].
    + intros s H. rewrite parse_elements_step.
      apply within_bind with (n := List.length s); [apply IHv; lia|].
      intros v rest Lr. cbv zeta.
      pose proof (skip_ws_length rest) as L.
      pose proof (tl_length (skip_ws rest)) as T.
      destruct (starts_with 44 (skip_ws rest)) eqn:E1.
      { apply starts_with_tl in E1.
        apply within_bind with (n := List.length s).
        - eapply within_le; [apply IHe|]; lia.
        - intros l rest' Lr'. exact Lr'. }
      destruct (starts_with 93 (skip_ws rest)); [|exact I].
      cbn [within]. lia.
    + intros acc s H. rewrite parse_members_step. cbv zeta.
      pose proof (skip_ws_length s) as L.
      pose proof (tl_length (skip_ws s)) as T.
      destruct (starts_with 34 (skip_ws s)) eqn:E1; [|exact I].
      apply starts_with_tl in E1.
      apply within_bind with (n := List.length (tl (skip_ws s)));
        [apply within_parse_string_body; reflexivity|].
      intros k rest1 L1.
      pose proof (skip_ws_length rest1) as L1'.
      pose proof (tl_length (skip_ws rest1)) as T1.
      destruct (starts_with 58 (skip_ws rest1)) eqn:E2; [|exact I].
      apply starts_with_tl in E2.
      apply within_bind with (n := List.length (tl (skip_ws rest1)));
        [apply IHv; lia|].
      intros v rest2 L2.
      pose proof (skip_ws_length rest2) as L2'.
      pose proof (tl_length (skip_ws rest2)) as T2.
      destruct (starts_with 44 (skip_ws rest2)) eqn:E3.
      { apply starts_with_tl in E3.
        eapply within_le; [apply IHm|]; lia. }
      destruct (starts_with 125 (skip_ws rest2)); [|exact I].
      cbn [within]. lia.
Qed.

(** [JSON.parse] returns a value or throws [SyntaxError], on every
    text. *)
Lemma JSON_parse_total (text : jsstring) :
  JSON_parse text = SyntaxError \/ exists v : value, JSON_parse text = Ok v.
Proof.
  unfold JSON_parse.
  destruct (within_parse (S (2 * List.length text))) as [H _].
  specialize (H text ltac:(lia)).
  destruct (parse_value (S (2 * List.length text)) text) as [[v rest]| |];
    cbn [bind within] in *.
  - destruct (skip_ws rest); [right; exists v; reflexivity | left; reflexivity].
  - left; reflexivity.
  - contradiction.
Qed.

(** ** Loading the persisted state *)

(** C1, as the code has it, for every stored state. With no value, or
    the empty string, under the tasks key the application starts with the
    empty list; with no value, or the empty string, under the theme key it
    starts with the light theme. Any other text under either key goes to
    [JSON.parse] unguarded, and one of two things happens: the tasks text
    or the theme text is not JSON and the effect ends in the [SyntaxError]
    that [JSON.parse] throws, or the task list becomes what [JSON.parse]
    returns for the tasks text, as it is, and the theme what it returns
    for the theme text. *)
Theorem load_tasks_key (stg : Storage) :
  (complexTodos stg = None \/ complexTodos stg = Some [] ->
   (darkMode_item stg = None \/ darkMode_item stg = Some [] ->
    load stg = Ok nothing_loaded)
   /\ (forall (d : N) (r : jsstring),
          darkMode_item stg = Some (d :: r) ->
          (JSON_parse (d :: r) = SyntaxError /\ load stg = SyntaxError)
          \/ (exists b : value,
                 JSON_parse (d :: r) = Ok b
                 /\ load stg = Ok (mkLoaded (VArr []) b))))
  /\ (forall (c : N) (s : jsstring),
         complexTodos stg = Some (c :: s) ->
         (JSON_parse (c :: s) = SyntaxError /\ load stg = SyntaxError)
         \/ (exists v : value,
                JSON_parse (c :: s) = Ok v
                /\ (darkMode_item stg = None \/ darkMode_item stg = Some [] ->
                    load stg = Ok (mkLoaded v (VBool false)))
                /\ (forall (d : N) (r : jsstring),
                       darkMode_item stg = Some (d :: r) ->
                       (JSON_parse (d :: r) = SyntaxError
                        /\ load stg = SyntaxError)
                       \/ (exists b : value,
                              JSON_parse (d :: r) = Ok b
                              /\ load stg = Ok (mkLoaded v b))))).
Proof.
  destruct stg as [saved theme]. unfold load.
  cbn [complexTodos darkMode_item]. split.
  - intros T. split.
    + intros [-> | ->]; destruct T as [-> | ->]; reflexivity.
    + intros d r ->.
      destruct (JSON_parse_total (d :: r)) as [E | [b E]]; rewrite E;
        [left | right; exists b]; destruct T as [-> | ->];
        split; reflexivity.
  - intros c s ->.
    destruct (JSON_parse_total (c :: s)) as [E | [v E]]; rewrite E.
    + left. split; reflexivity.
    + right. exists v. split; [reflexivity|]. cbn [bind]. split.
      * intros [-> | ->]; reflexivity.
      * intros d r ->.
        destruct (JSON_parse_total (d :: r)) as [F | [b F]]; rewrite F;
          [left | right; exists b]; split; reflexivity.
Qed.

Lemma load_tasks_key_witness :
  load (mkStorage None None) = Ok nothing_loaded
  /\ (exists b : value,
         JSON_parse (lit "true") = Ok b
         /\ load (mkStorage None (Some (lit "true")))
            = Ok (mkLoaded (VArr []) b))
  /\ (exists v : value,
         JSON_parse (lit "[]") = Ok v
         /\ load (mkStorage (Some (lit "[]")) None)
            = Ok (mkLoaded v (VBool false))).
Proof.
  split; [|split].
  - apply (load_tasks_key (mkStorage None None)); left; reflexivity.
  - destruct (load_tasks_key (mkStorage None (Some (lit "true"))))
      as [H _].
    destruct (H (or_introl eq_refl)) as [_ K].
    destruct (K 116%N [114%N; 117%N; 101%N] eq_refl)
      as [[E _] | [b [E L]]].
    + vm_compute in E. discriminate E.
    + exists b. split; [exact E | exact L].
  - destruct (load_tasks_key (mkStorage (Some (lit "[]")) None))
      as [_ H].
    destruct (H 91%N [93%N] eq_refl) as [[E _] | [v [E [L _]]]].
    + vm_compute in E. discriminate E.
    + exists v. split; [exact E | apply L; left; reflexivity].
Defined.

(** C1, as the specification words it: a malformed value would give the
    empty list and no error. The text of a single opening brace is not
    JSON, and the load ends in [SyntaxError]; the text [5] is JSON and not
    a list of tasks, and the task list becomes the number 5. *)
Lemma load_malformed_throws :
  JSON_parse (lit "{") = SyntaxError
  /\ load (mkStorage (Some (lit "{")) None) = SyntaxError
  /\ load (mkStorage (Some (lit "{")) None) <> Ok nothing_loaded
  /\ load (mkStorage (Some (lit "5")) None) = Ok (mkLoaded (VNum 5) (VBool false)).
Proof. repeat split; try reflexivity. discriminate. Qed.

(** ** Progress *)

Local Open Scope Q_scope.

Lemma Qpower2_pos (z : Z) : 0 < 2 ^ z.
Proof. apply Qpower_0_lt. reflexivity. Qed.

Lemma Qpower2_succ (z : Z) : 2 ^ (z + 1) == 2 * 2 ^ z.
Proof. rewrite Qpower_plus by discriminate. change (2 ^ 1) with 2. ring. Qed.

Lemma inject_Z_pow2 (n : Z) : (0 <= n)%Z -> inject_Z (2 ^ n) == 2 ^ n.
Proof. intros H. rewrite Zpower_Qpower by exact H. reflexivity. Qed.

Lemma log2_bounds (p : Z) :
  (0 < p)%Z -> 2 ^ Z.log2 p <= inject_Z p /\ inject_Z p < 2 * 2 ^ Z.log2 p.
Proof.
  intros H. destruct (Z.log2_spec p H) as [A B].
  pose proof (Z.log2_nonneg p) as N.
  rewrite <- Qpower2_succ, <- !inject_Z_pow2 by lia.
  rewrite <- Zle_Qle, <- Zlt_Qlt. unfold Z.succ in B. split; assumption.
Qed.

Lemma ilog2_spec (x : Q) :
  0 < x -> 2 ^ ilog2 x <= x /\ x < 2 * 2 ^ ilog2 x.
Proof.
  intros H. unfold ilog2.
  set (lp := Z.log2 (Qnum x)). set (ld := Z.log2 (Zpos (Qden x))).
  assert (Hp : (0 < Qnum x)%Z).
  { destruct x as [p d]. unfold Qlt in H. cbn in *. lia. }
  destruct (log2_bounds (Qnum x) Hp) as [P1 P2].
  destruct (log2_bounds (Zpos (Qden x)) eq_refl) as [D1 D2].
  fold lp in P1, P2. fold ld in D1, D2.
  assert (X : x * inject_Z (Zpos (Qden x)) == inject_Z (Qnum x)).
  { destruct x as [p d]. cbn [Qnum Qden]. unfold Qeq, Qmult, inject_Z. cbn. lia. }
  pose proof (Qpower2_pos lp) as A0. pose proof (Qpower2_pos ld) as B0.
  assert (E : 2 ^ (lp - ld) * 2 ^ ld == 2 ^ lp).
  { rewrite <- Qpower_plus by discriminate. replace (lp - ld + ld)%Z with lp by lia. reflexivity. }
  assert (E' : 2 * 2 ^ (lp - ld - 1) == 2 ^ (lp - ld)).
  { rewrite <- Qpower2_succ. replace (lp - ld - 1 + 1)%Z with (lp - ld)%Z by lia. reflexivity. }
  pose proof (Qpower2_pos (lp - ld)) as C0.
  pose proof (Qpower2_pos (lp - ld - 1)) as C1.
  destruct (Qle_bool (2 ^ (lp - ld)) x) eqn:T.
  - apply Qle_bool_iff in T. split; [exact T|].
    nra.
  - assert (T' : x < 2 ^ (lp - ld)).
    { apply Qnot_le_lt. intros C. apply Qle_bool_iff in C. congruence. }
    split; [|rewrite E'; exact T'].
    nra.
Qed.

Lemma round_half_even_spec (x : Q) :
  x - (1 # 2) <= inject_Z (round_half_even x)
  /\ inject_Z (round_half_even x) <= x + (1 # 2).
Proof.
  unfold round_half_even.
  pose proof (Qfloor_le x) as L. pose proof (Qlt_floor x) as U.
  rewrite inject_Z_plus in U. change (inject_Z 1) with 1 in U.
  destruct (x - inject_Z (Qfloor x) ?= 1 # 2) eqn:C.
  - apply Qeq_alt in C.
    destruct (Z.even (Qfloor x)); rewrite ?inject_Z_plus;
      change (inject_Z 1) with 1; lra.
  - apply Qlt_alt in C. lra.
  - apply Qgt_alt in C. rewrite inject_Z_plus. change (inject_Z 1) with 1. lra.
Qed.

(** The relative error of rounding to binary64 is at most [2^-53]. *)
Lemma nearest_binary64_error (x : Q) :
  0 < x ->
  x * (1 - (1 # 2 ^ 53)) <= nearest_binary64 x
  /\ nearest_binary64 x <= x * (1 + (1 # 2 ^ 53)).
Proof.
  intros H. unfold nearest_binary64.
  destruct (ilog2_spec x H) as [L U].
  set (e := (ilog2 x - 52)%Z) in *.
  pose proof (Qpower2_pos e) as E0.
  assert (EL : 2 ^ ilog2 x == inject_Z (2 ^ 52) * 2 ^ e).
  { rewrite inject_Z_pow2 by lia. rewrite <- Qpower_plus by discriminate.
    subst e. replace (52 + (ilog2 x - 52))%Z with (ilog2 x) by lia. reflexivity. }
  destruct (round_half_even_spec (x / 2 ^ e)) as [R1 R2].
  set (m := inject_Z (round_half_even (x / 2 ^ e))) in *.
  assert (S : x / 2 ^ e * 2 ^ e == x) by (field; lra).
  set (s := x / 2 ^ e) in *.
  rewrite EL in L, U. 
  change (inject_Z (2 ^ 52)) with (4503599627370496 # 1) in *.
  change (1 # 2 ^ 53) with (1 # 9007199254740992).
  split; nra.
Qed.

Lemma binary64_zero (x : Q) : x == 0 -> binary64 x == 0.
Proof.
  intros H. unfold binary64. apply Qeq_alt in H. rewrite H. reflexivity.
Qed.

Lemma binary64_error (x : Q) :
  0 < x ->
  x * (1 - (1 # 2 ^ 53)) <= binary64 x /\ binary64 x <= x * (1 + (1 # 2 ^ 53)).
Proof.
  intros H. unfold binary64. apply Qgt_alt in H as C. rewrite C.
  apply nearest_binary64_error. exact H.
Qed.

(** [(c / t) * 100] in binary64 arithmetic is within [2^-44] of the exact
    value, for [0 < c <= t]. *)
Lemma percent_error (c t : Q) :
  0 < c -> c <= t ->
  let p := number_mul (number_div c t) 100 in
  100 * c / t - (1 # 2 ^ 44) <= p /\ p <= 100 * c / t + (1 # 2 ^ 44).
Proof.
  intros Hc Ht p.
  assert (T0 : 0 < t) by lra.
  assert (X0 : 0 < c / t) by (apply Qlt_shift_div_l; lra).
  assert (X1 : c / t <= 1) by (apply Qle_shift_div_r; lra).
  destruct (binary64_error (c / t) X0) as [Q1 Q2].
  fold (number_div c t) in Q1, Q2.
  set (q := number_div c t) in *.
  change (1 # 2 ^ 53) with (1 # 9007199254740992) in *.
  assert (Q0 : 0 < q * 100) by nra.
  destruct (binary64_error (q * 100) Q0) as [P1 P2].
  fold (number_mul q 100) in P1, P2. fold p in P1, P2.
  change (1 # 2 ^ 53) with (1 # 9007199254740992) in *.
  change (1 # 2 ^ 44) with (1 # 17592186044416).
  assert (E : 100 * c / t == 100 * (c / t)) by (field; lra).
  rewrite E. set (x := c / t) in *.
  split; nra.
Qed.

Lemma Math_round_bounds (p : Q) :
  inject_Z (Math_round p) <= p + (1 # 2)
  /\ p - (1 # 2) < inject_Z (Math_round p).
Proof.
  unfold Math_round.
  pose proof (Qfloor_le (p + (1 # 2))) as L.
  pose proof (Qlt_floor (p + (1 # 2))) as U.
  rewrite inject_Z_plus in U. change (inject_Z 1) with 1 in U.
  split; lra.
Qed.

Lemma progressPercent_none_completed (t : Q) :
  Math_round (number_mul (number_div 0 t) 100) = 0%Z.
Proof.
  unfold number_mul, number_div, Math_round.
  assert (E : binary64 (binary64 (0 / t) * 100) == 0).
  { apply binary64_zero. rewrite (binary64_zero (0 / t)); [ring|].
    unfold Qdiv. ring. }
  rewrite E. reflexivity.
Qed.

Lemma Math_round_percent (c t : Z) :
  (0 < c <= t)%Z -> (t < 2 ^ 32)%Z ->
  let r := Math_round (number_mul (number_div (inject_Z c) (inject_Z t)) 100) in
  (Z.abs (2 * t * r - 200 * c) <= t)%Z.
Proof.
  intros Hc Ht r.
  assert (C0 : 0 < inject_Z c) by (change 0 with (inject_Z 0); rewrite <- Zlt_Qlt; lia).
  assert (CT : inject_Z c <= inject_Z t) by (rewrite <- Zle_Qle; lia).
  destruct (percent_error (inject_Z c) (inject_Z t) C0 CT) as [P1 P2].
  destruct (Math_round_bounds
              (number_mul (number_div (inject_Z c) (inject_Z t)) 100)) as [R1 R2].
  fold r in R1, R2.
  set (p := number_mul (number_div (inject_Z c) (inject_Z t)) 100) in *.
  change (1 # 2 ^ 44) with (1 # 17592186044416) in *.
  assert (T0 : 0 < inject_Z t) by lra.
  assert (T1 : inject_Z t < 4294967296).
  { change 4294967296 with (inject_Z (2 ^ 32)). rewrite <- Zlt_Qlt. exact Ht. }
  assert (X : 100 * inject_Z c / inject_Z t * inject_Z t == 100 * inject_Z c)
    by (field; lra).
  set (x := 100 * inject_Z c / inject_Z t) in *.
  assert (U : inject_Z (2 * t * r) < inject_Z (200 * c + t + 1)).
  { rewrite !inject_Z_plus, !inject_Z_mult.
    change (inject_Z 2) with 2. change (inject_Z 200) with 200.
    change (inject_Z 1) with 1. nra. }
  assert (L : inject_Z (200 * c - t - 1) < inject_Z (2 * t * r)).
  { unfold Z.sub. rewrite !inject_Z_plus, !inject_Z_opp, !inject_Z_mult.
    change (inject_Z 2) with 2. change (inject_Z 200) with 200.
    change (inject_Z 1) with 1. nra. }
  rewrite <- Zlt_Qlt in U, L. lia.
Qed.

Local Close Scope Q_scope.

(** The completed tasks are some of the tasks. *)
Lemma completed_le_total (ts : list Todo) :
  (Stats.completed (stats ts) <= Stats.total (stats ts))%nat.
Proof. unfold stats; cbn [Stats.completed Stats.total]. apply filter_length_le. Qed.

(** C9. With no task [progressPercent] is 0, by the guard on the total.
    With [t > 0] tasks of which [c] are completed it is an integer [r]
    nearest to [100 * c / t]: [|r - 100 * c / t| <= 1/2], written here
    without the division as [|2 * t * r - 200 * c| <= t]. It is 0 for the
    empty collection and 50 for one completed task out of two. The
    collection is a JavaScript array, of fewer than [2^32] elements. *)
Theorem progressPercent_nearest (ts : list Todo) :
  Z.of_nat (List.length ts) < 2 ^ 32 ->
  let st := stats ts in
  let c := Z.of_nat (Stats.completed st) in
  let t := Z.of_nat (Stats.total st) in
  (Stats.total st = 0%nat -> progressPercent st = 0)
  /\ Z.abs (2 * t * progressPercent st - 200 * c) <= t
  /\ progressPercent (stats []) = 0
  /\ (Stats.completed st = 1%nat -> Stats.total st = 2%nat ->
      progressPercent st = 50).
Proof.
  intros HL st c t.
  assert (B : Z.abs (2 * t * progressPercent st - 200 * c) <= t).
  { pose proof (completed_le_total ts) as HP. fold st in HP.
    unfold progressPercent. subst c t.
    change (Stats.total st) with (List.length ts) in *.
    destruct (Nat.ltb_spec 0 (List.length ts)) as [T | T].
    - destruct (Nat.eq_dec (Stats.completed st) 0) as [C | C].
      + rewrite C. change (count 0) with 0%Q.
        rewrite progressPercent_none_completed. lia.
      + apply Math_round_percent; lia.
    - lia. }
  split; [|split; [exact B | split; [reflexivity|]]].
  - intros T. unfold progressPercent. rewrite T. reflexivity.
  - intros C T. subst c t. rewrite C, T in B. lia.
Qed.

Lemma progressPercent_nearest_witness :
  let ts := [mkTodo 7 (lit "a") true low work None 7 [];
             mkTodo 8 (lit "b") false high other None 8 []] in
  Z.of_nat (List.length ts) < 2 ^ 32
  /\ Z.abs (2 * 2 * progressPercent (stats ts) - 200 * 1) <= 2
  /\ progressPercent (stats ts) = 50.
Proof.
  pose (ts := [mkTodo 7 (lit "a") true low work None 7 [];
               mkTodo 8 (lit "b") false high other None 8 []]).
  assert (H : Z.of_nat (List.length ts) < 2 ^ 32) by reflexivity.
  split; [exact H|].
  destruct (progressPercent_nearest ts H) as [_ [B [_ E]]].
  split; [exact B | exact (E eq_refl eq_refl)].
Defined.

(** The rounding is that of binary64 arithmetic: 23 completed tasks out of
    40 give 57, where [23 / 40 * 100] computed exactly is the tie 57.5. *)
Example progressPercent_23_of_40 :
  progressPercent (Stats.mk 40 17 23 0) = 57
  /\ progressPercent_SF 23 40 = 57.
Proof. split; vm_compute; reflexivity. Qed.

(** On every collection of up to 100 tasks the computation gives what the
    binary64 operations of the Standard Library give. *)
Example progressPercent_as_SpecFloat :
  forallb (fun t =>
             forallb (fun c =>
                        progressPercent (Stats.mk t (t - c) c 0)
                        =? progressPercent_SF c t)
                     (seq 0 (S t)))
          (seq 0 101)
  = true.
Proof. vm_compute. reflexivity. Qed.

(** * The rest of the component

    The handlers, the view and the charts that the statements above do
    not reach. *)

Local Open Scope Z_scope.

Lemma sample_store_ids : NoDup (List.map id sample_store).
Proof.
  change (NoDup [3; 2; 1]).
  repeat constructor; cbn [In]; intuition discriminate.
Qed.

Lemma sample_store_texts :
  Forall (fun t => trim (text t) <> []) (todos sample_app).
Proof. repeat constructor; vm_compute; discriminate. Qed.

Lemma sample_store_safe :
  Forall (fun t => Z.abs (id t) < 2 ^ 53) sample_store.
Proof. repeat constructor. Qed.

(** ** The calendar *)

Lemma all_below_spec (p : Z -> bool) (n : N) :
  all_below n p = true -> forall i, 0 <= i < Z.of_N n -> p i = true.
Proof.
  unfold all_below. induction n as [|k IH] using N.peano_ind.
  - intros _ i Hi. lia.
  - rewrite N.iter_succ.
    set (s := N.iter k (fun s => (fst s + 1, snd s && p (fst s))) (0, true)) in *.
    assert (F : fst s = Z.of_N k).
    { subst s. clear IH. induction k as [|j IHj] using N.peano_ind;
        [reflexivity|].
      rewrite N.iter_succ. cbn [fst]. lia. }
    cbn [snd]. rewrite F. intros H i Hi.
    apply andb_true_iff in H. destruct H as [H1 H2].
    destruct (Z.eq_dec i (Z.of_N k)) as [-> | N]; [exact H2|].
    apply IH; [exact H1 | lia].
Qed.

Lemma era_days_ok : all_below 146097 era_day_ok = true.
Proof. vm_compute. reflexivity. Qed.

Lemma era_day_ok_spec (doe : Z) :
  0 <= doe < 146097 -> era_day_ok doe = true.
Proof. apply (all_below_spec era_day_ok 146097 era_days_ok). Qed.

Lemma civil_from_days_era (z : Z) :
  civil_from_days z =
  let era := (z + 719468) / 146097 in
  let '(yoe, m, d) := civil_of_doe ((z + 719468) mod 146097) in
  (if m <=? 2 then yoe + era * 400 + 1 else yoe + era * 400, m, d).
Proof.
  unfold civil_from_days, civil_of_doe. cbv zeta.
  rewrite Z.mod_eq by lia.
  replace (z + 719468 - 146097 * ((z + 719468) / 146097))
    with (z + 719468 - (z + 719468) / 146097 * 146097) by lia.
  reflexivity.
Qed.

(** The day number of the date of a day number is that day number. *)
Lemma days_from_civil_from_days (z : Z) :
  let '(y, m, d) := civil_from_days z in
  days_from_civil y m d = z /\ 1 <= m <= 12 /\ 1 <= d <= 31.
Proof.
  rewrite civil_from_days_era. cbv zeta.
  pose proof (Z.mod_pos_bound (z + 719468) 146097 ltac:(lia)) as B.
  pose proof (era_day_ok_spec _ B) as K. unfold era_day_ok in K.
  pose proof (Z.div_mod (z + 719468) 146097 ltac:(lia)) as DM.
  set (doe := (z + 719468) mod 146097) in *.
  set (era := (z + 719468) / 146097) in *.
  destruct (civil_of_doe doe) as [[yoe m] d].
  repeat (apply andb_true_iff in K; destruct K as [K ?]).
  repeat match goal with
         | H : (_ <=? _) = true |- _ => apply Z.leb_le in H
         | H : (_ =? _) = true |- _ => apply Z.eqb_eq in H
         end.
  split; [|lia].
  unfold days_from_civil. unfold doe_of_civil in *. cbv zeta in *.
  assert (Y : (if m <=? 2
               then (if m <=? 2 then yoe + era * 400 + 1 else yoe + era * 400) - 1
               else (if m <=? 2 then yoe + era * 400 + 1 else yoe + era * 400))
              = yoe + era * 400).
  { destruct (m <=? 2); lia. }
  rewrite Y.
  assert (E : (yoe + era * 400) / 400 = era).
  { rewrite Z.div_add by lia. rewrite Z.div_small by lia. lia. }
  rewrite E.
  replace (yoe + era * 400 - era * 400) with yoe by lia.
  lia.
Qed.

Lemma civil_from_days_inj (a b : Z) :
  civil_from_days a = civil_from_days b -> a = b.
Proof.
  intros E.
  pose proof (days_from_civil_from_days a) as A.
  pose proof (days_from_civil_from_days b) as B.
  rewrite E in A. destruct (civil_from_days b) as [[y m] d].
  destruct A as [A _]. destruct B as [B _]. congruence.
Qed.

(** ** Date strings *)

Lemma span_digits_zeros (k : nat) (count : nat) (s : jsstring) :
  span_digits 0 count (repeat 48%N k ++ s) = span_digits 0 (count + k) s.
Proof.
  revert count. induction k as [|k IH]; intros count; cbn [repeat app].
  - f_equal. lia.
  - cbn [span_digits digit_value]. cbn. rewrite IH. f_equal. lia.
Qed.

Lemma pad_value (w : nat) (n : Z) :
  0 <= n -> fst (fst (span_digits 0 0 (pad w n ++ []))) = n.
Proof.
  intros H. unfold pad. cbv zeta. rewrite <- app_assoc, span_digits_zeros.
  unfold digits. rewrite span_digits_fuel by (apply digits_fuel_enough; exact H).
  reflexivity.
Qed.

Lemma pad_inj (w : nat) (a b : Z) :
  0 <= a -> 0 <= b -> pad w a = pad w b -> a = b.
Proof.
  intros Ha Hb E. rewrite <- (pad_value w a Ha), <- (pad_value w b Hb), E.
  reflexivity.
Qed.

Lemma digits_length_2 (d : Z) :
  0 <= d < 100 ->
  List.length (digits d) = if d <? 10 then 1%nat else 2%nat.
Proof.
  intros H. unfold digits.
  destruct (Z.ltb_spec d 10) as [L | L].
  - cbn [digits_fuel]. destruct (Z.ltb_spec d 10); [reflexivity | lia].
  - assert (G : 3 <= Z.log2 d).
    { change 3 with (Z.log2 8). apply Z.log2_le_mono. lia. }
    destruct (Z.to_nat (Z.log2 d)) as [|f] eqn:F; [lia|].
    cbn [digits_fuel]. destruct (Z.ltb_spec d 10); [lia|].
    assert (Q : d / 10 < 10) by (apply Z.div_lt_upper_bound; lia).
    destruct (Z.ltb_spec (d / 10) 10); [reflexivity | lia].
Qed.

Lemma pad_2_length (d : Z) : 0 <= d < 100 -> List.length (pad 2 d) = 2%nat.
Proof.
  intros H. unfold pad. cbv zeta. rewrite length_app, repeat_length.
  rewrite (digits_length_2 d H). destruct (d <? 10); reflexivity.
Qed.

Lemma pad_head (w : nat) (n : Z) :
  0 <= n ->
  exists (c : N) (r : jsstring), pad w n = c :: r /\ (48 <= c <= 57)%N.
Proof.
  intros H. unfold pad. cbv zeta.
  destruct (digits_head n H) as [c [r [E R]]]. rewrite E.
  destruct (w - List.length (c :: r))%nat as [|k].
  - exists c, r. split; [reflexivity | exact R].
  - exists 48%N, (repeat 48%N k ++ c :: r). split; [reflexivity | lia].
Qed.

Lemma year_string_inj (a b : Z) : year_string a = year_string b -> a = b.
Proof.
  unfold year_string.
  destruct (Z.ltb_spec a 0) as [A | A], (Z.ltb_spec b 0) as [B | B]; intros E.
  - inversion E as [E']. apply pad_inj in E'; lia.
  - destruct (pad_head 4 b B) as [c [r [P R]]]. rewrite P in E.
    inversion E. lia.
  - destruct (pad_head 4 a A) as [c [r [P R]]]. rewrite P in E.
    inversion E. lia.
  - apply pad_inj in E; lia.
Qed.

Lemma day_name_length (w : Z) : List.length (day_name w) = 3%nat.
Proof.
  unfold day_name.
  destruct w as [|p|p]; try reflexivity.
  destruct p as [[p|p|]|[p|p|]|]; try reflexivity; destruct p; reflexivity.
Qed.

Lemma month_name_length (m : Z) : List.length (month_name m) = 3%nat.
Proof.
  unfold month_name.
  destruct m as [|p|p]; try reflexivity.
  repeat (destruct p as [p|p|]; try reflexivity).
Qed.

Lemma month_name_inj (a b : Z) :
  1 <= a <= 12 -> 1 <= b <= 12 -> month_name a = month_name b -> a = b.
Proof.
  intros Ha Hb.
  assert (A : a = 1 \/ a = 2 \/ a = 3 \/ a = 4 \/ a = 5 \/ a = 6 \/ a = 7
              \/ a = 8 \/ a = 9 \/ a = 10 \/ a = 11 \/ a = 12) by lia.
  assert (B : b = 1 \/ b = 2 \/ b = 3 \/ b = 4 \/ b = 5 \/ b = 6 \/ b = 7
              \/ b = 8 \/ b = 9 \/ b = 10 \/ b = 11 \/ b = 12) by lia.
  clear Ha Hb.
  repeat (destruct A as [-> | A]);
    try subst a;
    repeat (destruct B as [-> | B]); try subst b;
    intros E; try reflexivity; vm_compute in E; discriminate E.
Qed.

Lemma app_inj_length {A : Type} (a1 a2 r1 r2 : list A) :
  List.length a1 = List.length a2 -> a1 ++ r1 = a2 ++ r2 ->
  a1 = a2 /\ r1 = r2.
Proof.
  revert a2. induction a1 as [|x a1 IH]; intros [|y a2] L E;
    try discriminate L.
  - split; [reflexivity | exact E].
  - cbn in E. inversion E; subst. cbn in L.
    destruct (IH a2 ltac:(lia) H1) as [-> ->]. split; reflexivity.
Qed.

(** Two instants have the same [toDateString] exactly when they fall on
    the same local day. *)
Lemma toDateString_same_day (tz a b : Z) :
  toDateString tz (Some a) = toDateString tz (Some b)
  <-> Day (LocalTime tz a) = Day (LocalTime tz b).
Proof.
  unfold toDateString. cbv zeta. unfold WeekDay. split.
  - intros E.
    pose proof (days_from_civil_from_days (Day (LocalTime tz a))) as Pa.
    pose proof (days_from_civil_from_days (Day (LocalTime tz b))) as Pb.
    destruct (civil_from_days (Day (LocalTime tz a))) as [[ya ma] da].
    destruct (civil_from_days (Day (LocalTime tz b))) as [[yb mb] db].
    destruct Pa as [Ia [Ma Da]]. destruct Pb as [Ib [Mb Db]].
    apply app_inj_length in E;
      [|rewrite !day_name_length; reflexivity].
    destruct E as [_ E]. inversion E as [E1]. clear E.
    apply app_inj_length in E1;
      [|rewrite !month_name_length; reflexivity].
    destruct E1 as [Em E]. inversion E as [E2]. clear E.
    apply app_inj_length in E2;
      [|rewrite !pad_2_length by lia; reflexivity].
    destruct E2 as [Ed E]. inversion E as [Ey]. clear E.
    apply month_name_inj in Em; [|lia|lia].
    apply pad_inj in Ed; [|lia|lia].
    apply year_string_inj in Ey. subst. congruence.
  - intros ->. reflexivity.
Qed.

(** ** Due dates and local days *)

Lemma Date_parse_midnight (d : jsstring) (t : Z) :
  Date_parse d = Some t -> t mod msPerDay = 0 /\ d <> [].
Proof.
  intros H. split; [|intros ->; discriminate H].
  unfold Date_parse in H.
  repeat match type of H with
         | context [match ?x with _ => _ end] =>
             destruct x eqn:?; try discriminate H
         end.
  inversion H. apply Z.mod_mul. discriminate.
Qed.

Lemma jsstring_eqb_eq_dec (a b : jsstring) (P : Prop) (c : bool) :
  (a = b <-> P) -> (P <-> c = true) -> jsstring_eqb a b = c.
Proof.
  intros H1 H2. destruct (jsstring_eqb a b) eqn:E.
  - apply jsstring_eqb_spec in E. symmetry. apply H2, H1, E.
  - destruct c; [|reflexivity].
    assert (a = b) by (apply H1, H2; reflexivity).
    apply jsstring_eqb_spec in H. congruence.
Qed.

Lemma same_date_string (tz a b : Z) :
  jsstring_eqb (toDateString tz (Some a)) (toDateString tz (Some b))
  = (Day (LocalTime tz a) =? Day (LocalTime tz b)).
Proof.
  apply jsstring_eqb_eq_dec with (P := Day (LocalTime tz a) = Day (LocalTime tz b)).
  - apply toDateString_same_day.
  - symmetry. apply Z.eqb_eq.
Qed.

Lemma isDueToday_local_day (tz now : Z) (d : jsstring) (t : Z) :
  Date_parse d = Some t ->
  isDueToday tz now (Some d) = (Day (LocalTime tz t) =? Day (LocalTime tz now)).
Proof.
  intros H. destruct d as [|c s]; [discriminate H|].
  unfold isDueToday. rewrite H. apply same_date_string.
Qed.

Lemma isOverdue_local_day (tz now : Z) (d : jsstring) (t : Z) :
  Date_parse d = Some t ->
  isOverdue tz now (Some d) = (Day (LocalTime tz t) <? Day (LocalTime tz now)).
Proof.
  intros H. destruct d as [|c s]; [discriminate H|].
  unfold isOverdue. rewrite H. cbn [number_ltb]. rewrite same_date_string.
  unfold Day, LocalTime, msPerDay.
  destruct (Z.ltb_spec t now) as [L | L];
    destruct (Z.eqb_spec ((t + tz * 60000) / 86400000)
                         ((now + tz * 60000) / 86400000)) as [E | E];
    destruct (Z.ltb_spec ((t + tz * 60000) / 86400000)
                         ((now + tz * 60000) / 86400000)) as [K | K];
    cbn; try reflexivity; exfalso.
  - lia.
  - assert ((t + tz * 60000) / 86400000 <= (now + tz * 60000) / 86400000)
      by (apply Z.div_le_mono; lia).
    lia.
  - lia.
  - assert ((now + tz * 60000) / 86400000 <= (t + tz * 60000) / 86400000)
      by (apply Z.div_le_mono; lia).
    lia.
Qed.

Lemma local_day_of_midnight (tz t : Z) :
  t mod msPerDay = 0 ->
  (0 <= tz < 1440 -> Day (LocalTime tz t) = Day t)
  /\ (-1440 < tz < 0 -> Day (LocalTime tz t) = Day t - 1).
Proof.
  unfold Day, LocalTime, msPerDay. intros M.
  pose proof (Z.div_mod t 86400000 ltac:(lia)) as DM. rewrite M in DM.
  split; intros Z.
  - symmetry. apply (Z.div_unique _ _ _ (tz * 60000)); lia.
  - symmetry. apply (Z.div_unique _ _ _ (86400000 + tz * 60000)); lia.
Qed.

(** X19. A task with a due date in the form the date input gives
    ([YYYY-MM-DD], read as midnight UTC) is shown as overdue exactly when
    the local day of that instant is before the local day of the clock.
    In a zone at or ahead of UTC that is when the day written in the due
    date is before today; in a zone behind UTC the midnight falls on the
    evening before, and the task is overdue already on the day written in
    its due date. *)
Theorem isOverdue_by_zone (tz now : Z) (d : jsstring) (t : Z) :
  Date_parse d = Some t ->
  isOverdue tz now (Some d) = (Day (LocalTime tz t) <? Day (LocalTime tz now))
  /\ (0 <= tz < 1440 ->
      isOverdue tz now (Some d) = (Day t <? Day (LocalTime tz now)))
  /\ (-1440 < tz < 0 ->
      isOverdue tz now (Some d) = (Day t <=? Day (LocalTime tz now))).
Proof.
  intros H. destruct (Date_parse_midnight d t H) as [M _].
  destruct (local_day_of_midnight tz t M) as [A B].
  rewrite (isOverdue_local_day tz now d t H).
  split; [reflexivity|]. split; intros Z.
  - rewrite (A Z). reflexivity.
  - rewrite (B Z).
    destruct (Z.ltb_spec (Day t - 1) (Day (LocalTime tz now))),
      (Z.leb_spec (Day t) (Day (LocalTime tz now))); try reflexivity; lia.
Qed.

Lemma isOverdue_by_zone_witness :
  Date_parse (lit "2024-06-01") = Some 1717200000000
  /\ (isOverdue (-300) noon_june_first_utc_minus_5 (Some (lit "2024-06-01"))
       = (Day (LocalTime (-300) 1717200000000)
          <? Day (LocalTime (-300) noon_june_first_utc_minus_5))
      /\ (0 <= -300 < 1440 ->
          isOverdue (-300) noon_june_first_utc_minus_5 (Some (lit "2024-06-01"))
          = (Day 1717200000000
             <? Day (LocalTime (-300) noon_june_first_utc_minus_5)))
      /\ (-1440 < -300 < 0 ->
          isOverdue (-300) noon_june_first_utc_minus_5 (Some (lit "2024-06-01"))
          = (Day 1717200000000
             <=? Day (LocalTime (-300) noon_june_first_utc_minus_5)))).
Proof.
  split; [reflexivity|].
  apply (isOverdue_by_zone (-300) noon_june_first_utc_minus_5
           (lit "2024-06-01") 1717200000000).
  reflexivity.
Defined.

(** X20. A task with a due date in the form the date input gives is shown
    as due today exactly when the local day of its midnight UTC is the
    local day of the clock: in a zone at or ahead of UTC on the day
    written in the due date, in a zone behind UTC on the day before
    it. *)
Theorem isDueToday_by_zone (tz now : Z) (d : jsstring) (t : Z) :
  Date_parse d = Some t ->
  isDueToday tz now (Some d) = (Day (LocalTime tz t) =? Day (LocalTime tz now))
  /\ (0 <= tz < 1440 ->
      isDueToday tz now (Some d) = (Day t =? Day (LocalTime tz now)))
  /\ (-1440 < tz < 0 ->
      isDueToday tz now (Some d) = (Day t =? Day (LocalTime tz now) + 1)).
Proof.
  intros H. destruct (Date_parse_midnight d t H) as [M _].
  destruct (local_day_of_midnight tz t M) as [A B].
  rewrite (isDueToday_local_day tz now d t H).
  split; [reflexivity|]. split; intros Z.
  - rewrite (A Z). reflexivity.
  - rewrite (B Z).
    destruct (Z.eqb_spec (Day t - 1) (Day (LocalTime tz now))),
      (Z.eqb_spec (Day t) (Day (LocalTime tz now) + 1)); try reflexivity; lia.
Qed.

Lemma isDueToday_by_zone_witness :
  Date_parse (lit "2024-06-01") = Some 1717200000000
  /\ (isDueToday (-300) noon_june_first_utc_minus_5 (Some (lit "2024-06-01"))
       = (Day (LocalTime (-300) 1717200000000)
          =? Day (LocalTime (-300) noon_june_first_utc_minus_5))
      /\ (0 <= -300 < 1440 ->
          isDueToday (-300) noon_june_first_utc_minus_5 (Some (lit "2024-06-01"))
          = (Day 1717200000000
             =? Day (LocalTime (-300) noon_june_first_utc_minus_5)))
      /\ (-1440 < -300 < 0 ->
          isDueToday (-300) noon_june_first_utc_minus_5 (Some (lit "2024-06-01"))
          = (Day 1717200000000
             =? Day (LocalTime (-300) noon_june_first_utc_minus_5) + 1))).
Proof.
  split; [reflexivity|].
  apply (isDueToday_by_zone (-300) noon_june_first_utc_minus_5
           (lit "2024-06-01") 1717200000000).
  reflexivity.
Defined.


(** ** Deleting *)

Lemma remove_id_not_in (i : Z) (ts : list Todo) :
  ~ In i (List.map id (remove_id i ts)).
Proof.
  unfold remove_id. intros H. apply in_map_iff in H.
  destruct H as [t [E I]]. apply filter_In in I. destruct I as [_ I].
  apply negb_true_iff, Z.eqb_neq in I. contradiction.
Qed.

Lemma remove_id_absent (i : Z) (ts : list Todo) :
  ~ In i (List.map id ts) -> remove_id i ts = ts.
Proof.
  intros H. unfold remove_id. apply forallb_filter_id.
  apply forallb_forall. intros t I. apply negb_true_iff, Z.eqb_neq.
  intros E. apply H. rewrite <- E. apply in_map. exact I.
Qed.

Lemma remove_id_others (i j : Z) (ts : list Todo) :
  j <> i ->
  List.filter (fun t => id t =? j) (remove_id i ts)
  = List.filter (fun t => id t =? j) ts.
Proof.
  intros N. unfold remove_id. induction ts as [|t ts IH]; [reflexivity|].
  cbn [List.filter].
  destruct (Z.eqb_spec (id t) i) as [E | E]; cbn [negb].
  - destruct (Z.eqb_spec (id t) j); [lia | exact IH].
  - cbn [List.filter]. destruct (id t =? j); [f_equal|]; exact IH.
Qed.

(** X1. A delete marks the task as being deleted and, when its timer
    fires with nothing else done in between, leaves the list that the
    immediate delete of the older copy of the component leaves: the task
    with that id is gone, every other task is kept, a list that does not
    hold the id is unchanged, and the mark is cleared. *)
Theorem deleteTodo_removes (i : Z) (st : App) :
  let st1 := fst (deleteTodo i st) in
  let st2 := deleteTodo_timeout (snd (deleteTodo i st)) st1 in
  todos st2 = todos (deleteTodo_at_once i st)
  /\ ~ In i (List.map id (todos st2))
  /\ (forall t, In t (todos st2) <-> In t (todos st) /\ id t <> i)
  /\ (~ In i (List.map id (todos st)) -> todos st2 = todos st)
  /\ deletingId st1 = Some i /\ deletingId st2 = None.
Proof.
  cbn. split; [reflexivity|]. split; [apply remove_id_not_in|].
  split; [|split; [apply remove_id_absent | split; reflexivity]].
  intros t. unfold remove_id. rewrite filter_In, negb_true_iff, Z.eqb_neq.
  tauto.
Qed.

(** X2. The timer of a delete writes back the list that the delete
    closed over. A task added during the 300 ms between the delete and its
    timer is in the list after the add and no longer in the list once the
    timer has fired: the add is lost. *)
Theorem deleteTodo_loses_add (i : Z) (e : AddEvent) (st : App) :
  trim (Form.inputValue (add_form e)) <> [] ->
  ~ In (add_now e) (List.map id (todos st)) ->
  let st1 := fst (deleteTodo i st) in
  In (add_now e) (List.map id (todos (add e st1)))
  /\ ~ In (add_now e)
          (List.map id
             (todos (deleteTodo_timeout (snd (deleteTodo i st)) (add e st1)))).
Proof.
  intros B F. cbv zeta. cbn [deleteTodo fst snd]. split.
  - unfold add, addTodo. cbn [fillForm form Form.inputValue].
    rewrite (jsstring_eqb_neq _ _ B). cbn. left. reflexivity.
  - cbn. unfold remove_id. intros H. apply in_map_iff in H.
    destruct H as [t [E I]]. apply filter_In in I. destruct I as [I _].
    apply F. rewrite <- E. apply in_map. exact I.
Qed.

Lemma deleteTodo_loses_add_witness :
  let e := mkAdd buy_milk 1000 1000 in
  let st1 := fst (deleteTodo 2 sample_app) in
  trim (Form.inputValue (add_form e)) <> []
  /\ ~ In (add_now e) (List.map id (todos sample_app))
  /\ In (add_now e) (List.map id (todos (add e st1)))
  /\ ~ In (add_now e)
          (List.map id
             (todos (deleteTodo_timeout (snd (deleteTodo 2 sample_app))
                       (add e st1)))).
Proof.
  assert (B : trim (Form.inputValue (add_form (mkAdd buy_milk 1000 1000))) <> [])
    by (vm_compute; discriminate).
  assert (F : ~ In (add_now (mkAdd buy_milk 1000 1000))
                   (List.map id (todos sample_app)))
    by (vm_compute; intuition discriminate).
  split; [exact B|]. split; [exact F|].
  exact (deleteTodo_loses_add 2 (mkAdd buy_milk 1000 1000) sample_app B F).
Defined.

(** ** Editing *)

Lemma saveEdit_todos (i : Z) (st : App) :
  trim (editText st) <> [] ->
  todos (saveEdit i st)
  = List.map (fun todo => if id todo =? i then with_text (editText st) todo
                          else todo) (todos st).
Proof.
  intros H. unfold saveEdit. rewrite (jsstring_eqb_neq _ _ H). reflexivity.
Qed.

Lemma map_if_id {A : Type} (g : Todo -> A) (f : Todo -> Todo) (i : Z)
    (ts : list Todo) :
  (forall t, g (f t) = g t) ->
  List.map g (List.map (fun todo => if id todo =? i then f todo else todo) ts)
  = List.map g ts.
Proof.
  intros H. rewrite map_map. apply map_ext. intros t.
  destruct (id t =? i); [apply H | reflexivity].
Qed.

Lemma stats_ext (ts us : list Todo) :
  List.map completed ts = List.map completed us ->
  List.map priority ts = List.map priority us ->
  stats ts = stats us.
Proof.
  revert us. induction ts as [|t ts IH]; intros [|u us] C P;
    try discriminate C; [reflexivity|].
  cbn [List.map] in C, P. inversion C as [[C1 C2]]. inversion P as [[P1 P2]].
  specialize (IH us C2 P2). unfold stats in *. cbn [List.filter List.length].
  rewrite C1, P1. inversion IH as [[I1 I2 I3 I4]].
  destruct (completed u), (Priority_eqb (priority u) high);
    cbn [negb andb List.length]; congruence.
Qed.

(** X3. Saving an edit whose text is blank changes nothing. Saving any
    other text keeps the ids, their order and the four counts, gives the
    edited text to every task with the edited id, leaves every other task
    as it was, and closes the editor. *)
Theorem saveEdit_blank_or_text (i : Z) (st : App) :
  (trim (editText st) = [] -> saveEdit i st = st)
  /\ (trim (editText st) <> [] ->
      List.map id (todos (saveEdit i st)) = List.map id (todos st)
      /\ stats (todos (saveEdit i st)) = stats (todos st)
      /\ (forall t, In t (todos (saveEdit i st)) ->
                    (id t = i -> text t = editText st)
                    /\ (id t <> i -> In t (todos st)))
      /\ editingId (saveEdit i st) = None
      /\ editText (saveEdit i st) = []).
Proof.
  split.
  - intros H. unfold saveEdit. rewrite H. reflexivity.
  - intros H. rewrite (saveEdit_todos i st H).
    split; [apply map_if_id; reflexivity|].
    split; [apply stats_ext; apply map_if_id; reflexivity|].
    split.
    + intros t I. apply in_map_iff in I. destruct I as [u [E I]].
      destruct (Z.eqb_spec (id u) i) as [Q | Q]; subst t.
      * split; [reflexivity | cbn; intros; contradiction].
      * split; [intros; contradiction | intros _; exact I].
    + unfold saveEdit. rewrite (jsstring_eqb_neq _ _ H). split; reflexivity.
Qed.

Lemma map_only_id (f : Todo -> Todo) (t : Todo) (ts : list Todo) :
  NoDup (List.map id ts) -> In t ts -> f t = t ->
  List.map (fun todo => if id todo =? id t then f todo else todo) ts = ts.
Proof.
  intros N I F. rewrite <- (map_id ts) at 2. apply map_ext_in. intros u Iu.
  destruct (Z.eqb_spec (id u) (id t)) as [E | E]; [|reflexivity].
  assert (u = t); [|subst; exact F].
  clear F. induction ts as [|x ts IH]; [contradiction|].
  cbn [List.map] in N. inversion N as [|? ? Nx Nt]; subst.
  destruct I as [-> | I], Iu as [-> | Iu]; try reflexivity.
  - exfalso. apply Nx. rewrite <- E. apply in_map. exact Iu.
  - exfalso. apply Nx. rewrite E. apply in_map. exact I.
  - apply IH; assumption.
Qed.

(** X4. Opening the editor on a task of a list with distinct ids and
    saving at once, with nothing typed, leaves the list as it was. *)
Theorem startEditing_saveEdit (t : Todo) (st : App) :
  NoDup (List.map id (todos st)) -> In t (todos st) ->
  todos (saveEdit (id t) (startEditing t st)) = todos st.
Proof.
  intros N I. unfold saveEdit. cbn [startEditing with_editing editText todos].
  destruct (jsstring_eqb (trim (text t)) []); [reflexivity|].
  cbn [with_editing with_todos todos].
  apply map_only_id; [exact N | exact I |]. destruct t; reflexivity.
Qed.

Lemma startEditing_saveEdit_witness :
  NoDup (List.map id (todos sample_app))
  /\ In due_january (todos sample_app)
  /\ todos (saveEdit (id due_january) (startEditing due_january sample_app))
     = todos sample_app.
Proof.
  assert (I : In due_january (todos sample_app)) by (right; left; reflexivity).
  split; [exact sample_store_ids|]. split; [exact I|].
  exact (startEditing_saveEdit due_january sample_app sample_store_ids I).
Defined.

(** ** Priority *)

(** X5. Changing the priority of a task keeps the ids, the completion
    flags and the texts of all tasks in their order, and with them the
    total, the active and the completed count; every task with that id
    has the new priority afterwards; and of two changes in a row to the
    same id the second one wins. *)
Theorem updatePriority_keeps (i : Z) (p q : Priority) (st : App) :
  List.map id (todos (updatePriority i p st)) = List.map id (todos st)
  /\ List.map completed (todos (updatePriority i p st))
     = List.map completed (todos st)
  /\ List.map text (todos (updatePriority i p st)) = List.map text (todos st)
  /\ Stats.total (stats (todos (updatePriority i p st)))
     = Stats.total (stats (todos st))
  /\ Stats.active (stats (todos (updatePriority i p st)))
     = Stats.active (stats (todos st))
  /\ Stats.completed (stats (todos (updatePriority i p st)))
     = Stats.completed (stats (todos st))
  /\ (forall t, In t (todos (updatePriority i p st)) -> id t = i ->
                priority t = p)
  /\ updatePriority i q (updatePriority i p st) = updatePriority i q st.
Proof.
  cbn [updatePriority with_todos todos].
  split; [apply map_if_id; reflexivity|].
  split; [apply map_if_id; reflexivity|].
  split; [apply map_if_id; reflexivity|].
  split; [cbn; apply length_map|].
  assert (F : forall (g : bool -> bool),
             List.filter (fun t => g (completed t))
               (List.map (fun todo => if id todo =? i then with_priority p todo
                                      else todo) (todos st))
             = List.map (fun todo => if id todo =? i then with_priority p todo
                                     else todo)
                 (List.filter (fun t => g (completed t)) (todos st))).
  { intros g. induction (todos st) as [|t ts IH]; [reflexivity|].
    cbn [List.map List.filter].
    assert (E : completed (if id t =? i then with_priority p t else t)
                = completed t) by (destruct (id t =? i); reflexivity).
    rewrite E. destruct (g (completed t)); cbn [List.map]; [f_equal|];
      exact IH. }
  split; [cbn; rewrite (F negb); apply length_map|].
  split; [cbn; rewrite (F (fun b => b)); apply length_map|].
  split.
  - intros t I E. apply in_map_iff in I. destruct I as [u [Q I]].
    destruct (Z.eqb_spec (id u) i) as [K | K]; subst t; [reflexivity|].
    contradiction.
  - unfold updatePriority. cbn [with_todos todos]. unfold with_todos.
    cbn. f_equal. rewrite map_map. apply map_ext. intros t.
    destruct (Z.eqb_spec (id t) i) as [K | K].
    + cbn [with_priority id]. rewrite K, Z.eqb_refl. reflexivity.
    + destruct (Z.eqb_spec (id t) i); [contradiction | reflexivity].
Qed.

(** ** Clearing *)

Lemma filter_active_twice (ts : list Todo) :
  List.filter (fun t => negb (completed t))
    (List.filter (fun t => negb (completed t)) ts)
  = List.filter (fun t => negb (completed t)) ts.
Proof.
  induction ts as [|t ts IH]; [reflexivity|]. cbn [List.filter].
  destruct (completed t) eqn:C; cbn [negb]; [exact IH|].
  cbn [List.filter]. rewrite C. cbn [negb]. f_equal. exact IH.
Qed.

Lemma filter_none_completed (ts : list Todo) :
  List.filter (fun t => completed t)
    (List.filter (fun t => negb (completed t)) ts) = [].
Proof.
  induction ts as [|t ts IH]; [reflexivity|]. cbn [List.filter].
  destruct (completed t) eqn:C; cbn [negb]; [exact IH|].
  cbn [List.filter]. rewrite C. exact IH.
Qed.

Lemma filter_high_active (ts : list Todo) :
  List.filter (fun t => Priority_eqb (priority t) high && negb (completed t))
    (List.filter (fun t => negb (completed t)) ts)
  = List.filter (fun t => Priority_eqb (priority t) high && negb (completed t))
      ts.
Proof.
  induction ts as [|t ts IH]; [reflexivity|]. cbn [List.filter].
  destruct (completed t) eqn:C; cbn [negb].
  - rewrite andb_false_r. exact IH.
  - cbn [List.filter]. rewrite C. cbn [negb].
    destruct (Priority_eqb (priority t) high); cbn [andb]; [f_equal|]; exact IH.
Qed.

(** X6. Clearing the completed tasks leaves exactly the active tasks, in
    their order: no completed task is left, the active count and the
    count of active high-priority tasks are unchanged, the total becomes
    the former active count, and clearing a second time changes
    nothing. *)
Theorem clearCompleted_keeps_active (st : App) :
  todos (clearCompleted st)
  = List.filter (fun t => negb (completed t)) (todos st)
  /\ (forall t, In t (todos (clearCompleted st))
                <-> In t (todos st) /\ completed t = false)
  /\ Stats.completed (stats (todos (clearCompleted st))) = 0%nat
  /\ Stats.active (stats (todos (clearCompleted st)))
     = Stats.active (stats (todos st))
  /\ Stats.total (stats (todos (clearCompleted st)))
     = Stats.active (stats (todos st))
  /\ Stats.highPriority (stats (todos (clearCompleted st)))
     = Stats.highPriority (stats (todos st))
  /\ clearCompleted (clearCompleted st) = clearCompleted st.
Proof.
  cbn [clearCompleted with_todos todos].
  split; [reflexivity|].
  split; [intros t; rewrite filter_In, negb_true_iff; tauto|].
  cbn [stats Stats.completed Stats.active Stats.total Stats.highPriority].
  rewrite filter_none_completed, filter_active_twice, filter_high_active.
  repeat split.
  unfold clearCompleted, with_todos. cbn. rewrite filter_active_twice.
  reflexivity.
Qed.

(** ** What the handlers keep *)

Lemma Forall_map_if (P : Todo -> Prop) (f : Todo -> Todo) (i : Z)
    (ts : list Todo) :
  (forall t, P t -> P (f t)) ->
  Forall P ts ->
  Forall P (List.map (fun todo => if id todo =? i then f todo else todo) ts).
Proof.
  intros H F. rewrite Forall_forall in *. intros t I.
  apply in_map_iff in I. destruct I as [u [<- I]].
  destruct (id u =? i); auto.
Qed.

Lemma Forall_filter_keep {A : Type} (P : A -> Prop) (p : A -> bool) (l : list A) :
  Forall P l -> Forall P (List.filter p l).
Proof.
  rewrite !Forall_forall. intros H x I. apply filter_In in I. apply H, I.
Qed.

(** X7. If no task of the list has a blank text, none has after any
    handler: an add, a saved edit, a change of priority, a toggle, a
    clearing of the completed tasks, or a delete whose timer fired. *)
Theorem text_never_blank (st : App) :
  Forall (fun t => trim (text t) <> []) (todos st) ->
  (forall newId created,
      Forall (fun t => trim (text t) <> []) (todos (addTodo newId created st)))
  /\ (forall i,
         Forall (fun t => trim (text t) <> []) (todos (saveEdit i st)))
  /\ (forall i p,
         Forall (fun t => trim (text t) <> []) (todos (updatePriority i p st)))
  /\ (forall i,
         Forall (fun t => trim (text t) <> []) (toggleTodo i (todos st)))
  /\ Forall (fun t => trim (text t) <> []) (todos (clearCompleted st))
  /\ (forall i later,
         Forall (fun t => trim (text t) <> [])
                (todos (deleteTodo_timeout (snd (deleteTodo i st)) later))).
Proof.
  intros H. repeat split.
  - intros newId created. unfold addTodo.
    destruct (jsstring_eqb (trim (Form.inputValue (form st))) []) eqn:E;
      [exact H|].
    cbn [todos]. constructor; [|exact H]. cbn [text]. intros B.
    rewrite B in E. discriminate E.
  - intros i. unfold saveEdit.
    destruct (jsstring_eqb (trim (editText st)) []) eqn:E; [exact H|].
    cbn [with_editing with_todos todos].
    rewrite Forall_forall in *. intros t I.
    apply in_map_iff in I. destruct I as [u [<- I]].
    destruct (id u =? i); [|auto]. cbn [with_text text]. intros B.
    rewrite B in E. discriminate E.
  - intros i p. cbn [updatePriority with_todos todos].
    apply Forall_map_if; [|exact H]. intros t P; exact P.
  - intros i. unfold toggleTodo.
    apply Forall_map_if; [|exact H]. intros t P; exact P.
  - cbn [clearCompleted with_todos todos]. apply Forall_filter_keep, H.
  - intros i later. cbn. apply Forall_filter_keep, H.
Qed.

Lemma text_never_blank_witness :
  Forall (fun t => trim (text t) <> []) (todos sample_app)
  /\ (forall newId created,
         Forall (fun t => trim (text t) <> [])
                (todos (addTodo newId created sample_app)))
  /\ (forall i,
         Forall (fun t => trim (text t) <> []) (todos (saveEdit i sample_app)))
  /\ (forall i p,
         Forall (fun t => trim (text t) <> [])
                (todos (updatePriority i p sample_app)))
  /\ (forall i,
         Forall (fun t => trim (text t) <> [])
                (toggleTodo i (todos sample_app)))
  /\ Forall (fun t => trim (text t) <> []) (todos (clearCompleted sample_app))
  /\ (forall i later,
         Forall (fun t => trim (text t) <> [])
                (todos (deleteTodo_timeout (snd (deleteTodo i sample_app))
                          later))).
Proof.
  split; [exact sample_store_texts|].
  exact (text_never_blank sample_app sample_store_texts).
Defined.

Lemma NoDup_map_filter {A B : Type} (f : A -> B) (p : A -> bool) (l : list A) :
  NoDup (List.map f l) -> NoDup (List.map f (List.filter p l)).
Proof.
  induction l as [|x l IH]; intros N; [exact N|].
  cbn [List.map] in N. inversion N as [|? ? Nx Nl]; subst.
  cbn [List.filter]. destruct (p x); [|auto].
  cbn [List.map]. constructor; [|auto].
  intros I. apply Nx. apply in_map_iff in I. destruct I as [y [E I]].
  apply filter_In in I. rewrite <- E. apply in_map, I.
Qed.

(** X8. If the ids of the list are distinct, they are distinct after a
    toggle, a saved edit, a change of priority, a clearing of the
    completed tasks, and a delete whose timer fired: only an add can bring
    in a second task with an id already there. *)
Theorem ids_stay_distinct (st : App) :
  NoDup (List.map id (todos st)) ->
  (forall i, NoDup (List.map id (toggleTodo i (todos st))))
  /\ (forall i, NoDup (List.map id (todos (saveEdit i st))))
  /\ (forall i p, NoDup (List.map id (todos (updatePriority i p st))))
  /\ NoDup (List.map id (todos (clearCompleted st)))
  /\ (forall i later,
         NoDup (List.map id
                  (todos (deleteTodo_timeout (snd (deleteTodo i st)) later)))).
Proof.
  intros H.
  assert (M : forall (f : Todo -> Todo) i,
             (forall t, id (f t) = id t) ->
             List.map id (List.map (fun todo => if id todo =? i then f todo
                                                else todo) (todos st))
             = List.map id (todos st)).
  { intros f i F. rewrite map_map. apply map_ext. intros t.
    destruct (id t =? i); [apply F | reflexivity]. }
  repeat split.
  - intros i. unfold toggleTodo. rewrite M; [exact H | reflexivity].
  - intros i. unfold saveEdit.
    destruct (jsstring_eqb (trim (editText st)) []); [exact H|].
    cbn [with_editing with_todos todos]. rewrite M; [exact H | reflexivity].
  - intros i p. cbn [updatePriority with_todos todos].
    rewrite M; [exact H | reflexivity].
  - cbn [clearCompleted with_todos todos]. apply NoDup_map_filter, H.
  - intros i later. cbn. apply NoDup_map_filter, H.
Qed.

Lemma ids_stay_distinct_witness :
  NoDup (List.map id (todos sample_app))
  /\ (forall i, NoDup (List.map id (toggleTodo i (todos sample_app))))
  /\ (forall i, NoDup (List.map id (todos (saveEdit i sample_app))))
  /\ (forall i p, NoDup (List.map id (todos (updatePriority i p sample_app))))
  /\ NoDup (List.map id (todos (clearCompleted sample_app)))
  /\ (forall i later,
         NoDup (List.map id
                  (todos (deleteTodo_timeout (snd (deleteTodo i sample_app))
                            later)))).
Proof.
  split; [exact sample_store_ids|].
  exact (ids_stay_distinct sample_app sample_store_ids).
Defined.

(** X9. A key other than Enter in the input changes nothing; Enter does
    what the add button does; and Enter pressed twice with nothing typed
    in between adds at most one task, since the first add empties the
    input. *)
Theorem handleKeyPress_enter_twice (key : jsstring) (n1 c1 n2 c2 : Z)
    (st : App) :
  (key <> lit "Enter" -> handleKeyPress key n1 c1 st = st)
  /\ handleKeyPress (lit "Enter") n1 c1 st = addTodo n1 c1 st
  /\ handleKeyPress (lit "Enter") n2 c2 (handleKeyPress (lit "Enter") n1 c1 st)
     = handleKeyPress (lit "Enter") n1 c1 st.
Proof.
  split; [|split].
  - intros H. unfold handleKeyPress. rewrite (jsstring_eqb_neq _ _ H).
    reflexivity.
  - reflexivity.
  - change (handleKeyPress (lit "Enter") n2 c2 (addTodo n1 c1 st)
            = addTodo n1 c1 st).
    change (addTodo n2 c2 (addTodo n1 c1 st) = addTodo n1 c1 st).
    unfold addTodo at 2 3.
    destruct (jsstring_eqb (trim (Form.inputValue (form st))) []) eqn:E.
    + unfold addTodo. rewrite E. reflexivity.
    + reflexivity.
Qed.

(** X10. Toggling a task of a list with distinct ids keeps the total and
    moves one task between the active and the completed count: an active
    task makes the active count one less and the completed count one
    more, a completed task the other way round. *)
Theorem toggleTodo_counts (t : Todo) (ts : list Todo) :
  NoDup (List.map id ts) -> In t ts ->
  let before := stats ts in
  let after := stats (toggleTodo (id t) ts) in
  Stats.total after = Stats.total before
  /\ (completed t = false ->
      Stats.active before = S (Stats.active after)
      /\ Stats.completed after = S (Stats.completed before))
  /\ (completed t = true ->
      Stats.completed before = S (Stats.completed after)
      /\ Stats.active after = S (Stats.active before)).
Proof.
  intros N I. cbv zeta. unfold stats, toggleTodo.
  cbn [Stats.total Stats.active Stats.completed].
  split; [apply length_map|].
  induction ts as [|u ts IH]; [contradiction|].
  cbn [List.map] in N. inversion N as [|? ? Nu Nt]; subst.
  cbn [List.map List.filter].
  destruct I as [-> | I].
  - rewrite Z.eqb_refl.
    assert (R : List.map (fun todo => if id todo =? id t then toggle todo
                                      else todo) ts = ts).
    { rewrite <- (map_id ts) at 2. apply map_ext_in. intros x Ix.
      destruct (Z.eqb_spec (id x) (id t)) as [E | E]; [|reflexivity].
      exfalso. apply Nu. rewrite <- E. apply in_map, Ix. }
    rewrite R. cbn [toggle completed].
    split; intros C; rewrite C; cbn [negb List.length]; split; reflexivity.
  - destruct (Z.eqb_spec (id u) (id t)) as [E | E].
    + exfalso. apply Nu. rewrite E. apply in_map, I.
    + specialize (IH Nt I). destruct IH as [IH1 IH2].
      split; intros C; [destruct (IH1 C) as [A B] | destruct (IH2 C) as [A B]];
        destruct (completed u); cbn [negb List.length]; split; congruence.
Qed.

Lemma toggleTodo_counts_witness :
  NoDup (List.map id sample_store)
  /\ In due_january sample_store
  /\ Stats.total (stats (toggleTodo (id due_january) sample_store))
     = Stats.total (stats sample_store)
  /\ (completed due_january = false ->
      Stats.active (stats sample_store)
      = S (Stats.active (stats (toggleTodo (id due_january) sample_store)))
      /\ Stats.completed (stats (toggleTodo (id due_january) sample_store))
         = S (Stats.completed (stats sample_store)))
  /\ (completed due_january = true ->
      Stats.completed (stats sample_store)
      = S (Stats.completed (stats (toggleTodo (id due_january) sample_store)))
      /\ Stats.active (stats (toggleTodo (id due_january) sample_store))
         = S (Stats.active (stats sample_store))).
Proof.
  assert (I : In due_january sample_store) by (right; left; reflexivity).
  split; [exact sample_store_ids|]. split; [exact I|].
  exact (toggleTodo_counts due_january sample_store sample_store_ids I).
Defined.

(** ** Sorting *)

Lemma insert_sorted_perm {A : Type} (cmp : A -> A -> number) (x : A)
    (l : list A) :
  Permutation (insert_sorted cmp x l) (x :: l).
Proof.
  induction l as [|y l IH]; [reflexivity|]. cbn [insert_sorted].
  destruct (comes_after (cmp x y)); [|reflexivity].
  rewrite IH. apply perm_swap.
Qed.

Lemma sort_perm {A : Type} (cmp : A -> A -> number) (l : list A) :
  Permutation (sort cmp l) l.
Proof.
  induction l as [|x l IH]; [reflexivity|]. unfold sort in *.
  cbn [fold_right]. rewrite insert_sorted_perm. constructor. exact IH.
Qed.

Section KeyedOn.
Context {A : Type} (cmp : A -> A -> number) (key : A -> Z) (P : A -> Prop).
Hypothesis cmp_key_on :
  forall a b, P a -> P b -> comes_after (cmp a b) = (key b <? key a).

Lemma insert_sorted_sorted_on (x : A) (l : list A) :
  P x -> Forall P l ->
  StronglySorted (fun a b => key a <= key b) l ->
  StronglySorted (fun a b => key a <= key b) (insert_sorted cmp x l).
Proof.
  intros Px. induction l as [|y l IH]; intros F H; cbn [insert_sorted].
  - repeat constructor.
  - inversion H as [|? ? Hl Hy]; subst. inversion F as [|? ? Py Fl]; subst.
    rewrite (cmp_key_on x y Px Py).
    destruct (Z.ltb_spec (key y) (key x)) as [L | L].
    + constructor; [apply IH; assumption|].
      rewrite Forall_forall in *. intros z I.
      apply (Permutation_in _ (insert_sorted_perm cmp x l)) in I.
      destruct I as [<- | I]; [lia | apply Hy, I].
    + constructor; [exact H|]. constructor; [exact L|].
      rewrite Forall_forall in *. intros z I. specialize (Hy z I). lia.
Qed.

Lemma sort_sorted_on (l : list A) :
  Forall P l -> StronglySorted (fun a b => key a <= key b) (sort cmp l).
Proof.
  induction l as [|x l IH]; intros F; [constructor|]. unfold sort in *.
  inversion F; subst. cbn [fold_right].
  apply insert_sorted_sorted_on; [assumption| |apply IH; assumption].
  rewrite Forall_forall in *. intros z I.
  apply (Permutation_in _ (sort_perm cmp l)) in I. auto.
Qed.

Lemma insert_sorted_stable_on (k : Z) (x : A) (l : list A) :
  P x -> Forall P l ->
  List.filter (fun a => key a =? k) (insert_sorted cmp x l)
  = List.filter (fun a => key a =? k) (x :: l).
Proof.
  intros Px. induction l as [|y l IH]; intros F; [reflexivity|].
  inversion F as [|? ? Py Fl]; subst. cbn [insert_sorted].
  rewrite (cmp_key_on x y Px Py).
  destruct (Z.ltb_spec (key y) (key x)) as [L | L]; [|reflexivity].
  cbn [List.filter] in *. rewrite (IH Fl).
  destruct (Z.eqb_spec (key x) k), (Z.eqb_spec (key y) k);
    try reflexivity; lia.
Qed.

Lemma sort_stable_on (k : Z) (l : list A) :
  Forall P l ->
  List.filter (fun a => key a =? k) (sort cmp l)
  = List.filter (fun a => key a =? k) l.
Proof.
  induction l as [|x l IH]; intros F; [reflexivity|]. unfold sort in *.
  inversion F; subst. cbn [fold_right].
  rewrite insert_sorted_stable_on; [|assumption|].
  - cbn [List.filter]. rewrite IH by assumption. reflexivity.
  - rewrite Forall_forall in *. intros z I.
    apply (Permutation_in _ (sort_perm cmp l)) in I. auto.
Qed.
End KeyedOn.

Lemma sort_of_sorted {A : Type} (cmp : A -> A -> number) (key : A -> Z)
    (cmp_key : forall a b, comes_after (cmp a b) = (key b <? key a))
    (l : list A) :
  StronglySorted (fun a b => key a <= key b) l -> sort cmp l = l.
Proof.
  induction l as [|x l IH]; intros H; [reflexivity|].
  inversion H as [|? ? Hl Hx]; subst. unfold sort in *. cbn [fold_right].
  rewrite (IH Hl). destruct l as [|y l']; [reflexivity|].
  cbn [insert_sorted]. rewrite cmp_key.
  inversion Hx; subst.
  destruct (Z.ltb_spec (key y) (key x)); [lia | reflexivity].
Qed.

Lemma sort_sorted {A : Type} (cmp : A -> A -> number) (key : A -> Z)
    (cmp_key : forall a b, comes_after (cmp a b) = (key b <? key a))
    (l : list A) :
  StronglySorted (fun a b => key a <= key b) (sort cmp l).
Proof.
  apply (sort_sorted_on cmp key (fun _ => True) (fun a b _ _ => cmp_key a b)).
  apply Forall_forall. intros; exact I.
Qed.

Lemma sort_stable {A : Type} (cmp : A -> A -> number) (key : A -> Z)
    (cmp_key : forall a b, comes_after (cmp a b) = (key b <? key a))
    (k : Z) (l : list A) :
  List.filter (fun a => key a =? k) (sort cmp l)
  = List.filter (fun a => key a =? k) l.
Proof.
  apply (sort_stable_on cmp key (fun _ => True) (fun a b _ _ => cmp_key a b)).
  apply Forall_forall. intros; exact I.
Qed.

Lemma compare_priority_key (a b : Todo) :
  comes_after (compare_priority a b)
  = (priorityOrder (priority b) <? priorityOrder (priority a)).
Proof.
  unfold compare_priority, comes_after.
  destruct (Z.ltb_spec 0 (priorityOrder (priority a) - priorityOrder (priority b)));
    destruct (Z.ltb_spec (priorityOrder (priority b)) (priorityOrder (priority a)));
    try reflexivity; lia.
Qed.

Lemma compare_date_key (a b : Todo) :
  comes_after (compare_date a b) = (- createdAt b <? - createdAt a).
Proof.
  unfold compare_date, comes_after.
  destruct (Z.ltb_spec 0 (createdAt b - createdAt a));
    destruct (Z.ltb_spec (- createdAt b) (- createdAt a));
    try reflexivity; lia.
Qed.

(** ** Filtering *)

Lemma filter_filter_and {A : Type} (p q : A -> bool) (l : list A) :
  List.filter q (List.filter p l) = List.filter (fun x => p x && q x) l.
Proof.
  induction l as [|x l IH]; [reflexivity|]. cbn [List.filter].
  destruct (p x); cbn [andb List.filter]; [destruct (q x); [f_equal|]|];
    exact IH.
Qed.

Lemma startsWith_spec (s part : jsstring) :
  startsWith s part = true <-> exists b, s = part ++ b.
Proof.
  revert s. induction part as [|p part IH]; intros s; cbn [startsWith].
  - split; [intros _; exists s; reflexivity | reflexivity].
  - destruct s as [|c s].
    + split; [discriminate | intros [b E]; discriminate E].
    + rewrite andb_true_iff, N.eqb_eq, IH. split.
      * intros [-> [b ->]]. exists b. reflexivity.
      * intros [b E]. inversion E; subst. split; [reflexivity|]. exists b.
        reflexivity.
Qed.

Lemma includes_spec (s part : jsstring) :
  includes s part = true <-> exists a b, s = a ++ part ++ b.
Proof.
  induction s as [|c s IH]; cbn [includes]; rewrite orb_true_iff.
  - rewrite startsWith_spec. split.
    + intros [[b E] | F]; [|discriminate F]. exists [], b. exact E.
    + intros [a [b E]]. left. destruct a; [exists b; exact E|].
      discriminate E.
  - rewrite startsWith_spec, IH. split.
    + intros [[b E] | [a [b E]]].
      * exists [], b. exact E.
      * exists (c :: a), b. cbn. rewrite E. reflexivity.
    + intros [a [b E]]. destruct a as [|x a].
      * left. exists b. exact E.
      * right. inversion E; subst. exists a, b. reflexivity.
Qed.

Lemma includes_empty (s : jsstring) : includes s [] = true.
Proof. apply includes_spec. exists [], s. reflexivity. Qed.

(** X11. Whatever the sort order, the list shown holds exactly the tasks
    of the store that pass the status filter, the category filter and the
    search, each as often as the store holds it: a task passes the search
    when its text in lower case contains the query in lower case. The list
    shown is never longer than the store. *)
Theorem filteredTodos_passes (toLowerCase : jsstring -> jsstring)
    (localeCompare : jsstring -> jsstring -> Z) (st : App) :
  Permutation
    (filteredTodos toLowerCase localeCompare st)
    (List.filter
       (fun t => status_passes (filter st) t
                 && category_passes (categoryFilter st) t
                 && search_passes toLowerCase (searchQuery st) t)
       (todos st))
  /\ (forall t,
         In t (filteredTodos toLowerCase localeCompare st) <->
         In t (todos st)
         /\ status_passes (filter st) t = true
         /\ category_passes (categoryFilter st) t = true
         /\ exists a b,
              toLowerCase (text t) = a ++ toLowerCase (searchQuery st) ++ b)
  /\ (List.length (filteredTodos toLowerCase localeCompare st)
      <= List.length (todos st))%nat.
Proof.
  assert (P : Permutation
                (filteredTodos toLowerCase localeCompare st)
                (List.filter
                   (fun t => status_passes (filter st) t
                             && category_passes (categoryFilter st) t
                             && search_passes toLowerCase (searchQuery st) t)
                   (todos st))).
  { unfold filteredTodos. rewrite sort_perm.
    rewrite (filter_filter_and (status_passes (filter st))
               (category_passes (categoryFilter st))).
    rewrite filter_filter_and. reflexivity. }
  split; [exact P|]. split.
  - intros t. split.
    + intros I. apply (Permutation_in _ P) in I. apply filter_In in I.
      destruct I as [I H]. apply andb_true_iff in H. destruct H as [H S].
      apply andb_true_iff in H. destruct H as [H C].
      repeat split; try assumption. apply includes_spec. exact S.
    + intros [I [H [C S]]]. apply (Permutation_in _ (Permutation_sym P)).
      apply filter_In. split; [exact I|]. rewrite H, C. cbn.
      apply includes_spec. exact S.
  - rewrite (Permutation_length P). apply filter_length_le.
Qed.

(** ** The sorted view *)

Lemma compare_dueDate_key (a b : Todo) :
  (exists da ta, dueDate a = Some da /\ Date_parse da = Some ta) ->
  (exists db tb, dueDate b = Some db /\ Date_parse db = Some tb) ->
  comes_after (compare_dueDate a b) = (due_time b <? due_time a).
Proof.
  intros [da [ta [Ea Pa]]] [db [tb [Eb Pb]]].
  unfold compare_dueDate, due_time. rewrite Ea, Eb, Pa, Pb.
  assert (Ta : truthy (Some da) = true)
    by (destruct da; [discriminate Pa | reflexivity]).
  assert (Tb : truthy (Some db) = true)
    by (destruct db; [discriminate Pb | reflexivity]).
  rewrite Ta, Tb. cbn [negb number_sub comes_after].
  destruct (Z.ltb_spec 0 (ta - tb)), (Z.ltb_spec tb ta); try reflexivity; lia.
Qed.

(** X14. Sorted by due date, when every task has a valid due date, the
    list shown is in ascending order of due date, and the tasks due on the
    same day keep the order they have in the store. *)
Theorem filteredTodos_by_dueDate (toLowerCase : jsstring -> jsstring)
    (localeCompare : jsstring -> jsstring -> Z) (st : App) :
  sortBy st = by_dueDate ->
  Forall (fun t => exists d time, dueDate t = Some d /\ Date_parse d = Some time)
         (todos st) ->
  let view := filteredTodos toLowerCase localeCompare st in
  let passing :=
    List.filter (search_passes toLowerCase (searchQuery st))
      (List.filter (category_passes (categoryFilter st))
         (List.filter (status_passes (filter st)) (todos st))) in
  StronglySorted (fun a b => due_time a <= due_time b) view
  /\ (forall time,
         List.filter (fun t => due_time t =? time) view
         = List.filter (fun t => due_time t =? time) passing).
Proof.
  intros S F. cbv zeta. unfold filteredTodos. rewrite S.
  assert (G : Forall (fun t => exists d time,
                          dueDate t = Some d /\ Date_parse d = Some time)
                (List.filter (search_passes toLowerCase (searchQuery st))
                   (List.filter (category_passes (categoryFilter st))
                      (List.filter (status_passes (filter st)) (todos st))))).
  { rewrite Forall_forall in *. intros t I.
    apply filter_In in I. destruct I as [I _].
    apply filter_In in I. destruct I as [I _].
    apply filter_In in I. destruct I as [I _]. auto. }
  split.
  - apply (sort_sorted_on (comparator localeCompare by_dueDate) due_time _
             compare_dueDate_key _ G).
  - intros time.
    apply (sort_stable_on (comparator localeCompare by_dueDate) due_time _
             compare_dueDate_key time _ G).
Qed.

Lemma filteredTodos_by_dueDate_witness :
  let st := sample_view [due_june; due_january] by_dueDate in
  let view := filteredTodos (fun s => s) (fun _ _ => 0) st in
  let passing :=
    List.filter (search_passes (fun s => s) (searchQuery st))
      (List.filter (category_passes (categoryFilter st))
         (List.filter (status_passes (filter st)) (todos st))) in
  sortBy st = by_dueDate
  /\ Forall (fun t => exists d time,
                dueDate t = Some d /\ Date_parse d = Some time) (todos st)
  /\ StronglySorted (fun a b => due_time a <= due_time b) view
  /\ (forall time,
         List.filter (fun t => due_time t =? time) view
         = List.filter (fun t => due_time t =? time) passing).
Proof.
  assert (F : Forall (fun t => exists d time,
                        dueDate t = Some d /\ Date_parse d = Some time)
                     (todos (sample_view [due_june; due_january] by_dueDate))).
  { repeat constructor; do 2 eexists; split; reflexivity. }
  split; [reflexivity|]. split; [exact F|].
  exact (filteredTodos_by_dueDate (fun s => s) (fun _ _ => 0)
           (sample_view [due_june; due_january] by_dueDate) eq_refl F).
Defined.

Lemma Priority_eqb_order (p q : Priority) :
  (priorityOrder p =? priorityOrder q) = Priority_eqb p q.
Proof. destruct p, q; reflexivity. Qed.

(** X12. Sorted by priority, the list shown has the high tasks first,
    then the medium ones, then the low ones, and the tasks of one priority
    keep the order they have in the store. *)
Theorem filteredTodos_by_priority (toLowerCase : jsstring -> jsstring)
    (localeCompare : jsstring -> jsstring -> Z) (st : App) :
  sortBy st = by_priority ->
  let view := filteredTodos toLowerCase localeCompare st in
  let passing :=
    List.filter (search_passes toLowerCase (searchQuery st))
      (List.filter (category_passes (categoryFilter st))
         (List.filter (status_passes (filter st)) (todos st))) in
  StronglySorted
    (fun a b => priorityOrder (priority a) <= priorityOrder (priority b)) view
  /\ (forall p,
         List.filter (fun t => Priority_eqb (priority t) p) view
         = List.filter (fun t => Priority_eqb (priority t) p) passing).
Proof.
  intros S. cbv zeta. unfold filteredTodos. rewrite S. split.
  - apply (sort_sorted _ (fun t => priorityOrder (priority t))).
    exact compare_priority_key.
  - intros p.
    pose proof (sort_stable (comparator localeCompare by_priority)
                  (fun t => priorityOrder (priority t))
                  compare_priority_key (priorityOrder p)) as H.
    cbv beta in H.
    assert (E : forall t,
               Priority_eqb (priority t) p
               = (priorityOrder (priority t) =? priorityOrder p))
      by (intros t; symmetry; apply Priority_eqb_order).
    rewrite (filter_ext _ _ E), (filter_ext _ _ E). apply H.
Qed.

Lemma filteredTodos_by_priority_witness :
  let st := sample_view sample_store by_priority in
  let view := filteredTodos (fun s => s) (fun _ _ => 0) st in
  let passing :=
    List.filter (search_passes (fun s => s) (searchQuery st))
      (List.filter (category_passes (categoryFilter st))
         (List.filter (status_passes (filter st)) (todos st))) in
  sortBy st = by_priority
  /\ StronglySorted
       (fun a b => priorityOrder (priority a) <= priorityOrder (priority b))
       view
  /\ (forall p,
         List.filter (fun t => Priority_eqb (priority t) p) view
         = List.filter (fun t => Priority_eqb (priority t) p) passing).
Proof.
  split; [reflexivity|].
  exact (filteredTodos_by_priority (fun s => s) (fun _ _ => 0)
           (sample_view sample_store by_priority) eq_refl).
Defined.

Lemma StronglySorted_impl {A : Type} (R R' : A -> A -> Prop) (l : list A) :
  (forall a b, R a b -> R' a b) -> StronglySorted R l -> StronglySorted R' l.
Proof.
  intros H S. induction S as [|a l S IH F]; constructor; [exact IH|].
  rewrite Forall_forall in *. intros b I. apply H, F, I.
Qed.

(** X13. In the default order the list shown has the newest task first,
    by creation time, and the tasks created in the same millisecond keep
    the order they have in the store. *)
Theorem filteredTodos_by_date (toLowerCase : jsstring -> jsstring)
    (localeCompare : jsstring -> jsstring -> Z) (st : App) :
  sortBy st = date ->
  let view := filteredTodos toLowerCase localeCompare st in
  let passing :=
    List.filter (search_passes toLowerCase (searchQuery st))
      (List.filter (category_passes (categoryFilter st))
         (List.filter (status_passes (filter st)) (todos st))) in
  StronglySorted (fun a b => createdAt b <= createdAt a) view
  /\ (forall c,
         List.filter (fun t => createdAt t =? c) view
         = List.filter (fun t => createdAt t =? c) passing).
Proof.
  intros S. cbv zeta. unfold filteredTodos. rewrite S. split.
  - apply StronglySorted_impl
      with (R := fun a b : Todo => - createdAt a <= - createdAt b);
      [intros a b; lia|].
    apply (sort_sorted _ (fun t => - createdAt t) compare_date_key).
  - intros c.
    pose proof (sort_stable (comparator localeCompare date)
                  (fun t => - createdAt t) compare_date_key (- c)) as H.
    cbv beta in H.
    assert (E : forall t, (createdAt t =? c) = (- createdAt t =? - c)).
    { intros t. destruct (Z.eqb_spec (createdAt t) c),
        (Z.eqb_spec (- createdAt t) (- c)); try reflexivity; lia. }
    rewrite (filter_ext _ _ E), (filter_ext _ _ E). apply H.
Qed.

Lemma filteredTodos_by_date_witness :
  let st := sample_view sample_store date in
  let view := filteredTodos (fun s => s) (fun _ _ => 0) st in
  let passing :=
    List.filter (search_passes (fun s => s) (searchQuery st))
      (List.filter (category_passes (categoryFilter st))
         (List.filter (status_passes (filter st)) (todos st))) in
  sortBy st = date
  /\ StronglySorted (fun a b => createdAt b <= createdAt a) view
  /\ (forall c,
         List.filter (fun t => createdAt t =? c) view
         = List.filter (fun t => createdAt t =? c) passing).
Proof.
  split; [reflexivity|].
  exact (filteredTodos_by_date (fun s => s) (fun _ _ => 0)
           (sample_view sample_store date) eq_refl).
Defined.

Lemma StronglySorted_app_remove (l r : list Z) (x : Z) :
  StronglySorted Z.le (l ++ x :: r) -> StronglySorted Z.le (l ++ r).
Proof.
  induction l as [|y l IH]; cbn [app]; intros H;
    inversion H as [|? ? Hs Hf]; subst; [exact Hs|].
  constructor; [apply IH, Hs|].
  rewrite Forall_forall in *. intros z I. apply Hf.
  apply in_app_or in I. apply in_or_app. destruct I; [left | right; right];
    assumption.
Qed.

Lemma adds_created_sorted (es : list AddEvent) (st : App) :
  StronglySorted Z.le
    (List.map createdAt (rev (todos st)) ++ List.map add_created es) ->
  StronglySorted Z.le (List.map createdAt (rev (todos (adds es st)))).
Proof.
  revert st. induction es as [|e es IH]; intros st H.
  - cbn in *. rewrite app_nil_r in H. exact H.
  - cbn [adds fold_left]. apply IH. cbn [List.map] in H.
    unfold add, addTodo. cbn [fillForm form].
    destruct (jsstring_eqb (trim (Form.inputValue (add_form e))) []).
    + cbn [fillForm todos]. apply StronglySorted_app_remove in H. exact H.
    + cbn [todos rev]. rewrite map_app, <- app_assoc. exact H.
Qed.

Lemma adds_keep_view_settings (es : list AddEvent) (st : App) :
  filter (adds es st) = filter st
  /\ categoryFilter (adds es st) = categoryFilter st
  /\ sortBy (adds es st) = sortBy st
  /\ searchQuery (adds es st) = searchQuery st.
Proof.
  revert st. induction es as [|e es IH]; intros st; [repeat split|].
  cbn [adds fold_left]. destruct (IH (add e st)) as [A [B [C D]]].
  unfold adds in *. rewrite A, B, C, D. unfold add, addTodo.
  destruct (jsstring_eqb _ _); repeat split.
Qed.

Lemma StronglySorted_rev_le (l : list Todo) :
  StronglySorted Z.le (List.map createdAt (rev l)) ->
  StronglySorted (fun a b => - createdAt a <= - createdAt b) l.
Proof.
  induction l as [|x l IH]; intros H; [constructor|].
  cbn [rev] in H. rewrite map_app in H. cbn [List.map] in H.
  assert (S1 : StronglySorted Z.le (List.map createdAt (rev l))).
  { clear IH. revert H. generalize (List.map createdAt (rev l)).
    intros m. induction m as [|y m IHm]; cbn [app]; intros H; [constructor|].
    inversion H as [|? ? Hs Hf]; subst. constructor; [apply IHm, Hs|].
    rewrite Forall_forall in *. intros z I. apply Hf. apply in_or_app.
    left. exact I. }
  constructor; [apply IH, S1|].
  rewrite Forall_forall. intros z I.
  assert (In (createdAt z) (List.map createdAt (rev l)))
    by (apply in_map; apply -> in_rev; exact I).
  clear IH S1. revert H H0. generalize (List.map createdAt (rev l)).
  intros m. induction m as [|y m IHm]; cbn [app]; intros H K; [contradiction|].
  inversion H as [|? ? Hs Hf]; subst. destruct K as [-> | K].
  - rewrite Forall_forall in Hf.
    specialize (Hf (createdAt x) ltac:(apply in_or_app; right; left; reflexivity)).
    lia.
  - apply IHm; assumption.
Qed.

(** X15. Starting from the empty store with the filters, the search and
    the sort order left as they are at the start, and with a clock that
    never runs backwards, the list shown after any sequence of adds is the
    store itself, newest task first. The lower case of the empty string is
    taken to be the empty string. *)
Theorem default_view_is_store (toLowerCase : jsstring -> jsstring)
    (localeCompare : jsstring -> jsstring -> Z) (es : list AddEvent) :
  toLowerCase [] = [] ->
  StronglySorted Z.le (List.map add_created es) ->
  filteredTodos toLowerCase localeCompare (adds es initialApp)
  = todos (adds es initialApp).
Proof.
  intros L H.
  destruct (adds_keep_view_settings es initialApp) as [A [B [C D]]].
  unfold filteredTodos. rewrite A, B, C, D.
  cbn [initialApp filter categoryFilter sortBy searchQuery].
  assert (F : forall ts : list Todo,
             List.filter (search_passes toLowerCase [])
               (List.filter (category_passes None)
                  (List.filter (status_passes all) ts)) = ts).
  { intros ts. rewrite !forallb_filter_id; try reflexivity;
      apply forallb_forall; intros t _; try reflexivity.
    unfold search_passes. rewrite L. apply includes_empty. }
  rewrite F.
  apply (sort_of_sorted _ (fun t => - createdAt t) compare_date_key).
  apply StronglySorted_rev_le. apply adds_created_sorted. exact H.
Qed.

Lemma default_view_is_store_witness :
  let es := [mkAdd buy_milk 1000 1000; mkAdd buy_milk 1001 1001] in
  (fun s : jsstring => s) [] = []
  /\ StronglySorted Z.le (List.map add_created es)
  /\ filteredTodos (fun s => s) (fun _ _ => 0) (adds es initialApp)
     = todos (adds es initialApp).
Proof.
  assert (H : StronglySorted Z.le
                (List.map add_created
                   [mkAdd buy_milk 1000 1000; mkAdd buy_milk 1001 1001])).
  { repeat constructor. discriminate. }
  split; [reflexivity|]. split; [exact H|].
  exact (default_view_is_store (fun s => s) (fun _ _ => 0)
           [mkAdd buy_milk 1000 1000; mkAdd buy_milk 1001 1001] eq_refl H).
Defined.

(** ** The bars by priority *)

Lemma Priority_eqb_eq (p q : Priority) : Priority_eqb p q = true <-> p = q.
Proof. destruct p, q; cbn; split; congruence. Qed.

(** X16. The priority chart has one bar for each of high, medium and
    low, in that order. The active parts of the bars add up to the active
    count and the completed parts to the completed count; a bar stands for
    as many tasks as have its priority; the active part of the first bar
    is the high-priority count of the statistics; and the scale of the
    chart is at least 1, at least as tall as every bar, and at most the
    number of tasks (or 1 for an empty store). *)
Theorem priorityBars_split (ts : list Todo) :
  let bars := priorityBars ts in
  List.map bar_priority bars = [high; medium; low]
  /\ list_sum (List.map bar_active bars) = Stats.active (stats ts)
  /\ list_sum (List.map bar_completed bars) = Stats.completed (stats ts)
  /\ (forall b, In b bars ->
        (bar_active b + bar_completed b)%nat
        = List.length
            (List.filter (fun t => Priority_eqb (priority t) (bar_priority b)) ts))
  /\ bar_active (hd (mkPriorityBar low 0 0) bars) = Stats.highPriority (stats ts)
  /\ (1 <= barsMaxVal bars)%nat
  /\ (forall b, In b bars ->
        (bar_active b + bar_completed b <= barsMaxVal bars)%nat)
  /\ (barsMaxVal bars <= Nat.max 1 (List.length ts))%nat.
Proof.
  cbv zeta.
  assert (C : forall p,
             (List.length (List.filter (fun t => Priority_eqb (priority t) p
                                                 && negb (completed t)) ts)
              + List.length (List.filter (fun t => Priority_eqb (priority t) p
                                                   && completed t) ts)
              = List.length (List.filter (fun t => Priority_eqb (priority t) p)
                                         ts))%nat).
  { intros p. induction ts as [|t ts IH]; [reflexivity|]. cbn [List.filter].
    destruct (Priority_eqb (priority t) p), (completed t);
      cbn [andb negb List.length]; lia. }
  assert (A : (List.length (List.filter (fun t => Priority_eqb (priority t) high
                                                  && negb (completed t)) ts)
               + List.length (List.filter (fun t => Priority_eqb (priority t) medium
                                                    && negb (completed t)) ts)
               + List.length (List.filter (fun t => Priority_eqb (priority t) low
                                                    && negb (completed t)) ts)
               = List.length (List.filter (fun t => negb (completed t)) ts))%nat).
  { clear C. induction ts as [|t ts IH]; [reflexivity|]. cbn [List.filter].
    destruct (priority t), (completed t); cbn [Priority_eqb andb negb List.length];
      lia. }
  assert (D : (List.length (List.filter (fun t => Priority_eqb (priority t) high
                                                  && completed t) ts)
               + List.length (List.filter (fun t => Priority_eqb (priority t) medium
                                                    && completed t) ts)
               + List.length (List.filter (fun t => Priority_eqb (priority t) low
                                                    && completed t) ts)
               = List.length (List.filter (fun t => completed t) ts))%nat).
  { clear C A. induction ts as [|t ts IH]; [reflexivity|]. cbn [List.filter].
    destruct (priority t), (completed t); cbn [Priority_eqb andb negb List.length];
      lia. }
  assert (T : forall p,
             (List.length (List.filter (fun t => Priority_eqb (priority t) p) ts)
              <= List.length ts)%nat) by (intros p; apply filter_length_le).
  pose proof (C high) as Ch. pose proof (C medium) as Cm.
  pose proof (C low) as Cl.
  pose proof (T high) as Th. pose proof (T medium) as Tm. pose proof (T low) as Tl.
  unfold priorityBars, barsMaxVal, stats.
  cbn [List.map bar_priority bar_active bar_completed list_sum fold_right hd
       Stats.active Stats.completed Stats.highPriority d3_max fold_left].
  split; [reflexivity|]. split; [lia|]. split; [lia|].
  split.
  { intros b [<- | [<- | [<- | []]]]; cbn [bar_priority bar_active bar_completed];
      apply C. }
  split; [reflexivity|].
  set (h := (_ + _)%nat) in *. set (m := (_ + _)%nat) in *.
  set (l := (_ + _)%nat) in *.
  assert (O : forall n, (or_one (Some n) = Nat.max 1 n)%nat)
    by (intros [|n]; cbn; lia).
  rewrite O.
  split; [lia|]. split.
  { intros b [<- | [<- | [<- | []]]]; cbn [bar_priority bar_active bar_completed];
      fold h m l; lia. }
  subst h m l. lia.
Qed.

Local Open Scope nat_scope.

(** ** The counts by category *)

Lemma Category_eqb_eq (c d : Category) : Category_eqb c d = true <-> c = d.
Proof. destruct c, d; cbn; split; congruence. Qed.

Lemma list_sum_cons (x : nat) (l : list nat) :
  list_sum (x :: l) = x + list_sum l.
Proof. reflexivity. Qed.

(** What the entries for [d] add up to, before and after one more task of
    category [c] is counted. *)
Lemma count_category_sum (c d : Category) (acc : list (Category * nat)) :
  list_sum (List.map snd
              (List.filter (fun kv => Category_eqb (fst kv) d)
                           (count_category c acc)))
  = list_sum (List.map snd
                (List.filter (fun kv => Category_eqb (fst kv) d) acc))
    + (if Category_eqb c d then 1 else 0).
Proof.
  induction acc as [|[c' k] acc IH]; cbn [count_category].
  - cbn [List.filter fst]. destruct (Category_eqb c d); reflexivity.
  - destruct (Category_eqb c' c) eqn:Q.
    + apply Category_eqb_eq in Q. subst c'. cbn [List.filter fst].
      destruct (Category_eqb c d); cbn [List.map snd];
        rewrite ?list_sum_cons; lia.
    + cbn [List.filter fst]. destruct (Category_eqb c' d);
        cbn [List.map snd]; rewrite ?list_sum_cons, IH; lia.
Qed.

Lemma count_category_keys (c : Category) (acc : list (Category * nat)) :
  (forall d, In d (List.map fst (count_category c acc))
             <-> d = c \/ In d (List.map fst acc))
  /\ (NoDup (List.map fst acc) ->
      NoDup (List.map fst (count_category c acc)))
  /\ (Forall (fun kv => 1 <= snd kv) acc ->
      Forall (fun kv => 1 <= snd kv) (count_category c acc)).
Proof.
  induction acc as [|[c' k] acc [IH1 [IH2 IH3]]]; cbn [count_category].
  - split; [|split].
    + intros d. cbn. intuition.
    + intros _. cbn. constructor; [intros [] | constructor].
    + intros _. constructor; [cbn; lia | constructor].
  - destruct (Category_eqb c' c) eqn:Q.
    + apply Category_eqb_eq in Q. subst c'. split; [|split].
      * intros d. cbn. intuition.
      * intros N. exact N.
      * intros F. inversion F; subst. constructor; [cbn in *; lia | assumption].
    + assert (c' <> c) by (intros ->; destruct c; discriminate Q).
      split; [|split].
      * intros d. cbn [List.map fst In]. rewrite IH1. intuition.
      * intros N. cbn [List.map fst] in *. inversion N as [|? ? Nx Nl]; subst.
        constructor; [|apply IH2, Nl].
        rewrite IH1. intros [E | I]; [congruence | contradiction].
      * intros F. inversion F; subst. constructor; [assumption | apply IH3].
        assumption.
Qed.

Lemma sum_of_missing (d : Category) (acc : list (Category * nat)) :
  ~ In d (List.map fst acc) ->
  list_sum (List.map snd
              (List.filter (fun kv => Category_eqb (fst kv) d) acc)) = 0.
Proof.
  induction acc as [|[c k] acc IH]; intros N; [reflexivity|].
  cbn [List.filter fst]. cbn [List.map fst In] in N.
  destruct (Category_eqb c d) eqn:Q.
  - apply Category_eqb_eq in Q. tauto.
  - apply IH. tauto.
Qed.

Lemma sum_of_entry (d : Category) (n : nat) (acc : list (Category * nat)) :
  NoDup (List.map fst acc) -> In (d, n) acc ->
  list_sum (List.map snd
              (List.filter (fun kv => Category_eqb (fst kv) d) acc)) = n.
Proof.
  induction acc as [|[c k] acc IH]; intros N I; [contradiction|].
  cbn [List.map fst] in N. inversion N as [|? ? Nx Nl]; subst.
  cbn [List.filter fst]. destruct I as [E | I].
  - inversion E; subst.
    assert (R : Category_eqb d d = true) by (apply Category_eqb_eq; reflexivity).
    rewrite R. cbn [List.map snd]. rewrite list_sum_cons.
    rewrite (sum_of_missing d acc Nx). lia.
  - destruct (Category_eqb c d) eqn:Q.
    + apply Category_eqb_eq in Q. subst c. exfalso. apply Nx.
      change d with (fst (d, n)). apply in_map, I.
    + apply IH; assumption.
Qed.

Lemma entry_of_sum (d : Category) (acc : list (Category * nat)) :
  1 <= list_sum (List.map snd
                   (List.filter (fun kv => Category_eqb (fst kv) d) acc)) ->
  exists n, In (d, n) acc.
Proof.
  induction acc as [|[c k] acc IH]; cbn [List.filter fst]; intros H.
  - cbn in H. lia.
  - destruct (Category_eqb c d) eqn:Q.
    + apply Category_eqb_eq in Q. subst c. exists k. left; reflexivity.
    + destruct (IH H) as [n I]. exists n. right; exact I.
Qed.

Lemma categoryCount_fold (ts : list Todo) :
  forall acc : list (Category * nat),
    NoDup (List.map fst acc) ->
    Forall (fun kv => 1 <= snd kv) acc ->
    let r := fold_left (fun a todo => count_category (category todo) a) ts acc in
    NoDup (List.map fst r)
    /\ Forall (fun kv => 1 <= snd kv) r
    /\ (forall d,
           list_sum (List.map snd
                       (List.filter (fun kv => Category_eqb (fst kv) d) r))
           = list_sum (List.map snd
                         (List.filter (fun kv => Category_eqb (fst kv) d) acc))
             + List.length
                 (List.filter (fun t => Category_eqb (category t) d) ts))
    /\ list_sum (List.map snd r)
       = list_sum (List.map snd acc) + List.length ts.
Proof.
  induction ts as [|t ts IH]; intros acc N F; cbv zeta.
  - cbn. repeat split; auto.
  - cbn [fold_left].
    destruct (count_category_keys (category t) acc) as [_ [K2 K3]].
    destruct (IH (count_category (category t) acc) (K2 N) (K3 F))
      as [A [B [C D]]].
    split; [exact A|]. split; [exact B|]. split.
    + intros d. rewrite C, count_category_sum. cbn [List.filter].
      destruct (Category_eqb (category t) d); cbn [List.length]; lia.
    + rewrite D. cbn [List.length].
      assert (S1 : forall c a,
                 list_sum (List.map snd (count_category c a))
                 = S (list_sum (List.map snd a))).
      { intros c a. induction a as [|[c' k] a IHa]; [reflexivity|].
        cbn [count_category]. destruct (Category_eqb c' c);
          cbn [List.map snd]; rewrite ?list_sum_cons, ?IHa; lia. }
      rewrite S1. lia.
Qed.

(** X17. The category chart has one entry for each category that has at
    least one task, and none for a category without tasks; the count of an
    entry is the number of tasks of that category; the counts add up to
    the number of tasks; and the chart shows its empty state exactly when
    there is no task. *)
Theorem categoryCount_counts (ts : list Todo) :
  NoDup (List.map fst (categoryCount ts))
  /\ (forall c n,
         In (c, n) (categoryCount ts) <->
         1 <= n
         /\ n = List.length
                  (List.filter (fun t => Category_eqb (category t) c) ts))
  /\ list_sum (List.map snd (categoryCount ts)) = List.length ts
  /\ (pieData ts = None <-> ts = []).
Proof.
  destruct (categoryCount_fold ts [] (NoDup_nil _) (Forall_nil _))
    as [A [B [C D]]].
  fold (categoryCount ts) in A, B, C, D. cbn in C, D.
  split; [exact A|]. split; [|split; [exact D|]].
  - intros c n. split.
    + intros I. split.
      * rewrite Forall_forall in B. exact (B _ I).
      * rewrite <- C. symmetry. apply sum_of_entry; assumption.
    + intros [P E]. rewrite <- C in E.
      destruct (entry_of_sum c (categoryCount ts)) as [m I]; [lia|].
      rewrite (sum_of_entry c m _ A I) in E. subst. exact I.
  - destruct ts; cbn; split; congruence.
Qed.

Local Close Scope nat_scope.

(** ** The activity of the week *)


Lemma day_name_inj (a b : Z) :
  0 <= a <= 6 -> 0 <= b <= 6 -> day_name a = day_name b -> a = b.
Proof.
  intros Ha Hb.
  assert (A : a = 0 \/ a = 1 \/ a = 2 \/ a = 3 \/ a = 4 \/ a = 5 \/ a = 6)
    by lia.
  assert (B : b = 0 \/ b = 1 \/ b = 2 \/ b = 3 \/ b = 4 \/ b = 5 \/ b = 6)
    by lia.
  clear Ha Hb.
  repeat (destruct A as [-> | A]); try subst a;
    repeat (destruct B as [-> | B]); try subst b;
    intros E; try reflexivity; vm_compute in E; discriminate E.
Qed.



(** ** The theme, and later sessions *)

Lemma JSON_stringify_jsonify (v : value) :
  JSON_stringify (jsonify v) = JSON_stringify v.
Proof.
  induction v as [ | b | z | m e | s | t | l IH | l IH ] using value_nested_ind;
    try reflexivity.
  - cbn [jsonify JSON_stringify]. do 3 f_equal. rewrite map_map.
    apply map_ext_in. intros x I. rewrite Forall_forall in IH. apply IH, I.
  - cbn [jsonify JSON_stringify]. do 3 f_equal. rewrite map_map.
    apply map_ext_in. intros kv I. rewrite Forall_forall in IH.
    cbn [fst snd]. rewrite (IH kv I). reflexivity.
Qed.

Lemma storable_jsonify (v : value) :
  storable v = true -> storable (jsonify v) = true.
Proof.
  induction v as [ | b | z | m e | s | t | l IH | l IH ] using value_nested_ind;
    intros H; try exact H; try reflexivity.
  - cbn [jsonify storable] in *. rewrite forallb_forall in *.
    intros x I. apply in_map_iff in I. destruct I as [y [<- I]].
    rewrite Forall_forall in IH. apply IH; auto.
  - cbn [jsonify storable] in *. apply andb_true_iff in H.
    destruct H as [K H]. apply andb_true_iff. split.
    + rewrite map_map. cbn [fst]. exact K.
    + rewrite forallb_forall in *. intros kv I.
      apply in_map_iff in I. destruct I as [y [<- I]].
      rewrite Forall_forall in IH. cbn [snd]. apply IH; auto.
Qed.

Lemma storable_todos_value (ts : list Todo) :
  Forall (fun t => Z.abs (id t) < 2 ^ 53) ts ->
  storable (todos_value ts) = true.
Proof.
  intros H. cbn [todos_value storable]. apply forallb_forall. intros v I.
  apply in_map_iff in I. destruct I as [t [<- I]].
  apply storable_todo_value. rewrite Forall_forall in H. auto.
Qed.

Lemma jsonify_todos_value (ts : list Todo) :
  jsonify (todos_value ts) = VArr (List.map stored_todo ts).
Proof.
  cbn [todos_value jsonify]. rewrite map_map. f_equal. apply map_ext.
  exact jsonify_todo_value.
Qed.

Lemma stringify_array_nonempty (l : list value) :
  exists c s, JSON_stringify (VArr l) = c :: s.
Proof. eexists _, _. reflexivity. Qed.

Lemma load_of_texts (c : N) (s : jsstring) (d : N) (r : jsstring)
    (v w : value) :
  JSON_parse (c :: s) = Ok v -> JSON_parse (d :: r) = Ok w ->
  load (mkStorage (Some (c :: s)) (Some (d :: r))) = Ok (mkLoaded v w).
Proof.
  intros A B. unfold load. cbn [complexTodos darkMode_item]. rewrite A, B.
  reflexivity.
Qed.

(** X22. After the two save effects have run, a load gives back the
    tasks in their stored form, as in C3, together with the theme that was
    saved: the theme flag survives a reload exactly. The ids are safe
    integers. *)
Theorem save_both_then_load (ts : list Todo) (b : bool) (stg : Storage) :
  Forall (fun t => Z.abs (id t) < 2 ^ 53) ts ->
  load (saveDarkMode b (saveTodos ts stg))
  = Ok (mkLoaded (VArr (List.map stored_todo ts)) (VBool b)).
Proof.
  intros H. unfold saveDarkMode, saveTodos. cbn [complexTodos darkMode_item].
  rewrite <- jsonify_todos_value.
  pose proof (JSON_parse_stringify _ (storable_todos_value ts H)) as P.
  pose proof (JSON_parse_stringify (VBool b) eq_refl) as Q.
  destruct (stringify_array_nonempty (List.map todo_value ts)) as [c [s E]].
  change (VArr (List.map todo_value ts)) with (todos_value ts) in E.
  rewrite E in *.
  destruct b; cbn [JSON_stringify] in *;
    apply (load_of_texts c s _ _ _ _ P Q).
Qed.

Lemma save_both_then_load_witness :
  Forall (fun t => Z.abs (id t) < 2 ^ 53) sample_store
  /\ load (saveDarkMode true (saveTodos sample_store (mkStorage None None)))
     = Ok (mkLoaded (VArr (List.map stored_todo sample_store)) (VBool true)).
Proof.
  split; [exact sample_store_safe|].
  exact (save_both_then_load sample_store true (mkStorage None None)
           sample_store_safe).
Defined.

(** X23. What a session loads, it saves again unchanged. The tasks a
    reload gives, with [createdAt] as a string, are written back as the
    same text that the first session wrote, and the next reload gives the
    same tasks and the same theme again: the change of [createdAt] from a
    date to a string happens once and is stable from then on. The ids are
    safe integers. *)
Theorem later_sessions_exact (ts : list Todo) (b : bool) (stg : Storage) :
  Forall (fun t => Z.abs (id t) < 2 ^ 53) ts ->
  let first := mkLoaded (VArr (List.map stored_todo ts)) (VBool b) in
  complexTodos (saveLoaded (loaded_todos first) stg)
     = complexTodos (saveTodos ts stg)
  /\ load (saveDarkMode b (saveLoaded (loaded_todos first) stg)) = Ok first.
Proof.
  intros H. cbv zeta. cbn [loaded_todos].
  pose proof (storable_todos_value ts H) as S.
  pose proof (JSON_parse_stringify _ S) as P.
  pose proof (JSON_parse_stringify (VBool b) eq_refl) as Q.
  pose proof (JSON_stringify_jsonify (todos_value ts)) as R.
  rewrite jsonify_todos_value in *.
  destruct (stringify_array_nonempty (List.map todo_value ts)) as [c [s E]].
  change (VArr (List.map todo_value ts)) with (todos_value ts) in E.
  unfold saveDarkMode, saveTodos, saveLoaded. cbn [complexTodos darkMode_item].
  rewrite R, E in *.
  split; [reflexivity|].
  destruct b; cbn [JSON_stringify] in *;
    apply (load_of_texts c s _ _ _ _ P Q).
Qed.

Lemma later_sessions_exact_witness :
  let first := mkLoaded (VArr (List.map stored_todo sample_store)) (VBool true) in
  Forall (fun t => Z.abs (id t) < 2 ^ 53) sample_store
  /\ complexTodos (saveLoaded (loaded_todos first) (mkStorage None None))
     = complexTodos (saveTodos sample_store (mkStorage None None))
  /\ load (saveDarkMode true
             (saveLoaded (loaded_todos first) (mkStorage None None)))
     = Ok first.
Proof.
  split; [exact sample_store_safe|].
  exact (later_sessions_exact sample_store true (mkStorage None None)
           sample_store_safe).
Defined.

(** Whether a stored value lets the load go on: it is absent, empty, or
    JSON. *)
Lemma load_total (stg : Storage) :
  load stg = SyntaxError \/ exists l, load stg = Ok l.
Proof.
  unfold load. destruct (complexTodos stg) as [[|c s]|];
    destruct (darkMode_item stg) as [[|d r]|]; cbn [bind].
  all: repeat match goal with
         | |- context [JSON_parse ?x] =>
             let E := fresh "E" in
             destruct (JSON_parse_total x) as [E | [? E]]; rewrite E;
             cbn [bind]; clear E
         end.
  all: try (left; reflexivity); right; eexists; reflexivity.
Qed.

Ltac only_theme d r :=
  destruct (JSON_parse_total (d :: r)) as [E | [v E]]; rewrite E; cbn [bind];
  [ split; [|reflexivity]; intros _; right; exists d, r;
    split; [reflexivity | exact E]
  | split; [discriminate|];
    intros [[? [? [F _]]] | [? [? [F G]]]]; [discriminate F|];
    inversion F; subst; congruence ].

Ltac only_tasks c s :=
  destruct (JSON_parse_total (c :: s)) as [E | [v E]]; rewrite E; cbn [bind];
  [ split; [|reflexivity]; intros _; left; exists c, s;
    split; [reflexivity | exact E]
  | split; [discriminate|];
    intros [[? [? [F G]]] | [? [? [F _]]]]; [|discriminate F];
    inversion F; subst; congruence ].

(** X24. The load at start-up throws exactly when one of the two stored
    values, the tasks or the theme, is a non-empty text that is not JSON;
    the theme value is parsed as unguarded as the tasks value. In every
    other case the load ends with a value. *)
Theorem load_throws_iff (stg : Storage) :
  (load stg = SyntaxError <->
   (exists c s, complexTodos stg = Some (c :: s)
                /\ JSON_parse (c :: s) = SyntaxError)
   \/ (exists d r, darkMode_item stg = Some (d :: r)
                   /\ JSON_parse (d :: r) = SyntaxError))
  /\ (load stg = SyntaxError \/ exists l, load stg = Ok l).
Proof.
  split; [|apply load_total]. unfold load.
  destruct (complexTodos stg) as [[|c s]|];
    destruct (darkMode_item stg) as [[|d r]|]; cbn [bind].
  - split; [discriminate
           | intros [[? [? [E _]]] | [? [? [E _]]]]; discriminate E].
  - only_theme d r.
  - split; [discriminate
           | intros [[? [? [E _]]] | [? [? [E _]]]]; discriminate E].
  - only_tasks c s.
  - destruct (JSON_parse_total (c :: s)) as [E | [v E]]; rewrite E; cbn [bind].
    + split; [|reflexivity]. intros _. left. exists c, s.
      split; [reflexivity | exact E].
    + destruct (JSON_parse_total (d :: r)) as [F | [w F]]; rewrite F; cbn [bind].
      * split; [|reflexivity]. intros _. right. exists d, r.
        split; [reflexivity | exact F].
      * split; [discriminate|].
        intros [[? [? [G K]]] | [? [? [G K]]]]; inversion G; subst; congruence.
  - only_tasks c s.
  - split; [discriminate
           | intros [[? [? [E _]]] | [? [? [E _]]]]; discriminate E].
  - only_theme d r.
  - split; [discriminate
           | intros [[? [? [E _]]] | [? [? [E _]]]]; discriminate E].
Qed.

(** ** The progress figure *)

(** X25. The progress figure is a whole number from 0 to 100: it is 100
    when the store is not empty and every task is completed, and 0 when no
    task is completed. The store holds fewer than [2^32] tasks, the limit
    of a JavaScript array. *)
Theorem progressPercent_range (ts : list Todo) :
  Z.of_nat (List.length ts) < 2 ^ 32 ->
  0 <= progressPercent (stats ts) <= 100
  /\ (ts <> [] -> Stats.active (stats ts) = 0%nat ->
      progressPercent (stats ts) = 100)
  /\ (Stats.completed (stats ts) = 0%nat -> progressPercent (stats ts) = 0).
Proof.
  intros HL.
  pose proof (completed_le_total ts) as CT.
  assert (AC : (Stats.active (stats ts) + Stats.completed (stats ts)
                = Stats.total (stats ts))%nat).
  { unfold stats; cbn [Stats.active Stats.completed Stats.total].
    induction ts as [|t ts IH]; [reflexivity|]. cbn [List.filter List.length] in *.
    assert (Z.of_nat (List.length ts) < 2 ^ 32) by lia.
    assert ((Stats.completed (stats ts) <= Stats.total (stats ts))%nat)
      by apply completed_le_total.
    specialize (IH H H0). destruct (completed t); cbn [negb List.length]; lia. }
  assert (B : Z.abs (2 * Z.of_nat (Stats.total (stats ts))
                     * progressPercent (stats ts)
                     - 200 * Z.of_nat (Stats.completed (stats ts)))
              <= Z.of_nat (Stats.total (stats ts))
              /\ (Stats.total (stats ts) = 0%nat ->
                  progressPercent (stats ts) = 0)).
  { unfold progressPercent.
    change (Stats.total (stats ts)) with (List.length ts) in *.
    destruct (Nat.ltb_spec 0 (List.length ts)) as [T | T].
    - split; [|lia].
      destruct (Nat.eq_dec (Stats.completed (stats ts)) 0) as [C | C].
      + rewrite C. change (count 0) with 0%Q.
        rewrite progressPercent_none_completed. lia.
      + apply Math_round_percent; lia.
    - split; [lia | reflexivity]. }
  destruct B as [B Z0].
  assert (N0 : ts <> [] -> Stats.total (stats ts) <> 0%nat)
    by (destruct ts; [congruence | discriminate]).
  revert B Z0 AC CT N0.
  generalize (progressPercent (stats ts)) (Stats.total (stats ts))
    (Stats.completed (stats ts)) (Stats.active (stats ts)).
  intros r n c a B Z0 AC CT N0.
  destruct (Nat.eq_dec n 0) as [E | E].
  - rewrite (Z0 E). split; [lia|]. split; [|reflexivity].
    intros N. exfalso. exact (N0 N E).
  - split; [nia|]. split.
    + intros _ A. nia.
    + intros C. nia.
Qed.

Lemma progressPercent_range_witness :
  Z.of_nat (List.length sample_store) < 2 ^ 32
  /\ 0 <= progressPercent (stats sample_store) <= 100
  /\ (sample_store <> [] -> Stats.active (stats sample_store) = 0%nat ->
      progressPercent (stats sample_store) = 100)
  /\ (Stats.completed (stats sample_store) = 0%nat ->
      progressPercent (stats sample_store) = 0).
Proof.
  assert (H : Z.of_nat (List.length sample_store) < 2 ^ 32) by reflexivity.
  split; [exact H|].
  exact (progressPercent_range sample_store H).
Defined.
